(** * UnrealIRCd: the event scheduler (api-event.c) and the in-memory
      history backend (history_backend_mem.c)

    A shallow embedding of the two C files and the properties proved about
    them.  Pointers to heap structures are modelled as addresses ([ptr]),
    a possibly-NULL pointer as an [option]; the hand-linked lists of the C
    code are Rocq lists kept in link order (head first). *)

From stdpp Require Import base tactics option list numbers strings pretty gmap.
From Stdlib Require Import ZArith Lia Ascii.

Local Open Scope Z_scope.

(** ** C scalars *)

Definition INT_MAX : Z := 2147483647.
Definition INT_MIN : Z := -2147483648.
Definition LONG_MAX : Z := 9223372036854775807.

(** Two's complement wrap-around of [int] and [long] arithmetic. *)
Definition wrap_int (z : Z) : Z := (z + 2147483648) `mod` 4294967296 - 2147483648.
Definition wrap_long (z : Z) : Z :=
  (z + 9223372036854775808) `mod` 18446744073709551616 - 9223372036854775808.

(** Addresses of heap objects; NULL is [None] at the use site. *)
Definition ptr := positive.

(** What a call can do besides returning: dereference a dangling or NULL
    pointer ([Undefined]), or exceed the step budget of the model
    ([OutOfFuel]). *)
Inductive result (A : Type) : Type :=
  | Returns (a : A)
  | Undefined
  | OutOfFuel.
Arguments Returns {A} a.
Arguments Undefined {A}.
Arguments OutOfFuel {A}.

Definition rbind {A B} (r : result A) (k : A -> result B) : result B :=
  match r with
  | Returns a => k a
  | Undefined => Undefined
  | OutOfFuel => OutOfFuel
  end.

Record timeval := mk_timeval { tv_sec : Z; tv_usec : Z }.

(** ** Part I: the event scheduler (api-event.c) *)

(** [vFP]: the address of a callback; [Data]: the [void *] handed to it. *)
Definition vFP := ptr.
Definition Data := option ptr.

Inductive ModErr := MODERR_NOERROR | MODERR_INVALID | MODERR_OTHER (code : Z).

(** A module's object list: only [MOBJ_EVENT] entries matter here. *)
Inductive ModuleObject :=
  | MObjEvent (ev : ptr)
  | MObjOther (type : Z) (obj : ptr).

Record Module := mk_Module {
  mod_name : string;          (* module->header->name *)
  errorcode : ModErr;
  objects : list ModuleObject
}.

Record Event := mk_Event {
  ev_addr : ptr;              (* the address of the struct: its identity *)
  ev_name : option string;    (* char *name *)
  ev_count : Z;               (* int count *)
  ev_every_msec : Z;          (* long every_msec *)
  ev_event : option vFP;      (* vFP event *)
  ev_data : Data;
  ev_last_run : timeval;
  ev_owner : option ptr       (* Module *owner *)
}.

(** ircd_log(LOG_ERROR, "[BUG] EventAdd() from module %s with suspiciously
    low every_msec value (%ld) ...") kept as its arguments. *)
Inductive LogEntry :=
  | BugLowEveryMsec (module_name : string) (every_msec : Z)
  | LogOther (text : string).

(** The process state the scheduler touches: the global [events] list, the
    modules it reports to, and the log. *)
Record Sched := mk_Sched {
  events : list Event;
  modules : gmap ptr Module;
  ircd_log : list LogEntry
}.

Definition set_events (l : list Event) (s : Sched) : Sched :=
  mk_Sched l (modules s) (ircd_log s).
Definition set_modules (m : gmap ptr Module) (s : Sched) : Sched :=
  mk_Sched (events s) m (ircd_log s).
Definition add_log (e : LogEntry) (s : Sched) : Sched :=
  mk_Sched (events s) (modules s) (ircd_log s ++ [e]).

Definition set_errorcode (c : ModErr) (m : Module) : Module :=
  mk_Module (mod_name m) c (objects m).
Definition set_objects (o : list ModuleObject) (m : Module) : Module :=
  mk_Module (mod_name m) (errorcode m) o.

Definition set_count (c : Z) (e : Event) : Event :=
  mk_Event (ev_addr e) (ev_name e) c (ev_every_msec e) (ev_event e)
           (ev_data e) (ev_last_run e) (ev_owner e).
Definition set_every_msec (v : Z) (e : Event) : Event :=
  mk_Event (ev_addr e) (ev_name e) (ev_count e) v (ev_event e)
           (ev_data e) (ev_last_run e) (ev_owner e).
Definition set_name (n : option string) (e : Event) : Event :=
  mk_Event (ev_addr e) n (ev_count e) (ev_every_msec e) (ev_event e)
           (ev_data e) (ev_last_run e) (ev_owner e).
Definition set_event (f : option vFP) (e : Event) : Event :=
  mk_Event (ev_addr e) (ev_name e) (ev_count e) (ev_every_msec e) f
           (ev_data e) (ev_last_run e) (ev_owner e).
Definition set_data (d : Data) (e : Event) : Event :=
  mk_Event (ev_addr e) (ev_name e) (ev_count e) (ev_every_msec e) (ev_event e)
           d (ev_last_run e) (ev_owner e).
Definition set_last_run (t : timeval) (e : Event) : Event :=
  mk_Event (ev_addr e) (ev_name e) (ev_count e) (ev_every_msec e) (ev_event e)
           (ev_data e) t (ev_owner e).

(** *** The list macros *)

(** Modelled from the spec: AddListItem, AppendListItem and DelListItem are
    macros of the daemon's list header, which is not among the sources; the
    spec says that a new item is linked into its list and a removed one
    unlinked.  Here AddListItem links the item in as the new head of the
    list, AppendListItem as its new tail, and DelListItem unlinks the item
    it is given.  None of the properties below depends on where in the
    list a new item goes. *)
Definition AddListItem {A} (x : A) (l : list A) : list A := x :: l.
Definition AppendListItem {A} (x : A) (l : list A) : list A := l ++ [x].

(** Walking the [events] list by address. *)
Fixpoint find_event (a : ptr) (l : list Event) : option Event :=
  match l with
  | [] => None
  | e :: l' => if Pos.eqb (ev_addr e) a then Some e else find_event a l'
  end.

(** [p->next] for the event at address [a]. *)
Fixpoint next_of (a : ptr) (l : list Event) : option ptr :=
  match l with
  | [] => None
  | e :: l' => if Pos.eqb (ev_addr e) a then ev_addr <$> head l' else next_of a l'
  end.

(** DelListItem(p, events). *)
Fixpoint unlink (a : ptr) (l : list Event) : list Event :=
  match l with
  | [] => []
  | e :: l' => if Pos.eqb (ev_addr e) a then l' else e :: unlink a l'
  end.

(** A store through an [Event *]. *)
Fixpoint update_event (a : ptr) (f : Event -> Event) (l : list Event) : list Event :=
  match l with
  | [] => []
  | e :: l' => if Pos.eqb (ev_addr e) a then f e :: l' else e :: update_event a f l'
  end.

Definition addrs (s : Sched) : list ptr := ev_addr <$> events s.

(** module->errorcode = c, through a possibly-NULL module pointer. *)
Definition report (module : option ptr) (c : ModErr) (s : Sched) : Sched :=
  match module with
  | Some m => set_modules (alter (set_errorcode c) m (modules s)) s
  | None => s
  end.

(** *** EventAdd

    [p] is the address safe_alloc returns for the new Event and [now] the
    value of the global clock [timeofday_tv]. *)
Definition EventAdd (p : ptr) (now : timeval)
    (module : option ptr) (name : option string) (event : option vFP)
    (data : Data) (every_msec count : Z) (s : Sched) : option ptr * Sched :=
  match name, event with
  | Some nm, Some f =>
      if (every_msec <? 0) || (count <? 0) then (None, report module MODERR_INVALID s)
      else
        let '(every, s1) :=
          if every_msec <? 100 then
            (100,
             add_log (BugLowEveryMsec
                        (match module with
                         | Some m => default "???"%string (mod_name <$> modules s !! m)
                         | None => "???"%string
                         end) every_msec) s)
          else (every_msec, s) in
        let newevent :=
          mk_Event p (Some nm) count every (Some f) data now module in
        let s2 := set_events (AddListItem newevent (events s1)) s1 in
        let s3 :=
          match module with
          | Some m =>
              set_modules
                (alter (fun md => set_errorcode MODERR_NOERROR
                                    (set_objects (AddListItem (MObjEvent p) (objects md)) md))
                       m (modules s2)) s2
          | None => s2
          end in
        (Some p, s3)
  | _, _ => (None, report module MODERR_INVALID s)
  end.

(** *** EventMarkDel: a store through [event], which is undefined when
    [event] is not a live Event. *)
Definition EventMarkDel (event : ptr) (s : Sched) : result (ptr * Sched) :=
  match find_event event (events s) with
  | None => Undefined
  | Some _ =>
      Returns (event, set_events (update_event event (set_count (-1)) (events s)) s)
  end.

(** The inner loop of EventDel: unlink the first MOBJ_EVENT entry for [p]. *)
Fixpoint del_eventobj (p : ptr) (l : list ModuleObject) : list ModuleObject :=
  match l with
  | [] => []
  | MObjEvent q :: l' => if Pos.eqb q p then l' else MObjEvent q :: del_eventobj p l'
  | o :: l' => o :: del_eventobj p l'
  end.

(** *** EventDel: returns the successor of the event it removed. *)
Definition EventDel (event : ptr) (s : Sched) : option ptr * Sched :=
  match find_event event (events s) with
  | Some p =>
      let q := next_of event (events s) in
      let s1 := set_events (unlink event (events s)) s in
      let s2 :=
        match ev_owner p with
        | Some m => set_modules
                      (alter (fun md => set_objects (del_eventobj event (objects md)) md)
                             m (modules s1)) s1
        | None => s1
        end in
      (q, s2)
  | None => (None, s)
  end.

(** *** EventFind: strcmp on a NULL name is undefined. *)
Fixpoint EventFind_from (l : list Event) (name : string) : result (option ptr) :=
  match l with
  | [] => Returns None
  | e :: l' =>
      match ev_name e with
      | None => Undefined
      | Some n => if String.eqb n name then Returns (Some (ev_addr e))
                  else EventFind_from l' name
      end
  end.

Definition EventFind (name : string) (s : Sched) : result (option ptr) :=
  EventFind_from (events s) name.

(** *** EventMod *)
Record EventInfo := mk_EventInfo {
  ei_flags : Z;
  ei_count : Z;
  ei_every_msec : Z;
  ei_name : option string;
  ei_event : option vFP;
  ei_data : Data
}.

Definition flagged (flags mask : Z) : bool := negb (Z.land flags mask =? 0).

Section WithFlags.
(** The EMOD_ bit masks are defined in the modules header, outside the
    sources; the code only tests them. *)
Variables EMOD_EVERY EMOD_HOWMANY EMOD_NAME EMOD_EVENT EMOD_DATA : Z.

Definition apply_mods (mods : EventInfo) (e : Event) : Event :=
  let e1 := if flagged (ei_flags mods) EMOD_EVERY
            then set_every_msec (ei_every_msec mods) e else e in
  let e2 := if flagged (ei_flags mods) EMOD_HOWMANY
            then set_count (ei_count mods) e1 else e1 in
  let e3 := if flagged (ei_flags mods) EMOD_NAME
            then set_name (ei_name mods) e2 else e2 in
  let e4 := if flagged (ei_flags mods) EMOD_EVENT
            then set_event (ei_event mods) e3 else e3 in
  if flagged (ei_flags mods) EMOD_DATA then set_data (ei_data mods) e4 else e4.

(** Dereferencing an [event] that is not a live Event is undefined. *)
Definition EventMod (event : option ptr) (mods : option EventInfo) (s : Sched)
    : result (Z * Sched) :=
  match event, mods with
  | Some a, Some m =>
      match find_event a (events s) with
      | None => Undefined
      | Some e =>
          let s1 := set_events (update_event a (apply_mods m) (events s)) s in
          Returns (0, report (ev_owner e) MODERR_NOERROR s1)
      end
  | Some a, None =>
      match find_event a (events s) with
      | None => Undefined
      | Some e => Returns (-1, report (ev_owner e) MODERR_INVALID s)
      end
  | None, _ => Returns (-1, s)
  end.
End WithFlags.


(** *** DoEvents

    One pass of the main loop over [events].  The cursor [eventptr] is an
    address that is looked up in the list as it is at that moment, as the C
    code follows [eventptr->next] in the heap as it is at that moment; after
    a removal the loop continues from the address EventDel returned (the C
    code stores it in [temp.next] and lets the loop header read it back).

    The pass also returns what it did, in order. *)
Inductive Step :=
  | Visited (p : ptr)
  | Fired (p : ptr) (f : vFP) (d : Data)
  | Deleted (p : ptr).

Definition emit {S} (steps : list Step) (r : result (S * list Step)) : result (S * list Step) :=
  rbind r (fun '(s, tr) => Returns (s, steps ++ tr)).

(** The addresses a pass visited, in order. *)
Definition visited (tr : list Step) : list ptr :=
  omap (fun st => match st with Visited p => Some p | _ => None end) tr.

(** How often a pass fired the event at [p]. *)
Definition is_fired (p : ptr) (st : Step) : bool :=
  match st with Fired q _ _ => Pos.eqb q p | _ => false end.
Definition fired_count (p : ptr) (tr : list Step) : nat :=
  length (List.filter (is_fired p) tr).

Definition step_addr (st : Step) : ptr :=
  match st with Visited p | Fired p _ _ | Deleted p => p end.

Section WithCallbacks.
(** What running the callback at an address does to the process: anything,
    the scheduler's own list included. *)
Variable call : vFP -> Data -> Sched -> result Sched.
(** minimum_msec_since_last_run(&last_run, minimum) is defined in another
    file: given the clock and the old [last_run] it answers and may store a
    new [last_run]. *)
Variable minimum_msec_since_last_run : timeval -> timeval -> Z -> bool * timeval.

Fixpoint DoEvents_loop (fuel : nat) (now : timeval) (eventptr : option ptr) (s : Sched)
    : result (Sched * list Step) :=
  match fuel with
  | O => OutOfFuel
  | S fuel' =>
      match eventptr with
      | None => Returns (s, [])
      | Some p =>
          let freeit (s0 : Sched) :=
            let '(q, s') := EventDel p s0 in
            emit [Deleted p] (DoEvents_loop fuel' now q s') in
          match find_event p (events s) with
          | None => Undefined
          | Some e =>
              emit [Visited p]
                (if ev_count e =? -1 then freeit s
                 else
                   let '(due, s1) :=
                     if ev_every_msec e =? 0 then (true, s)
                     else
                       let '(b, lr) :=
                         minimum_msec_since_last_run now (ev_last_run e) (ev_every_msec e) in
                       (b, set_events (update_event p (set_last_run lr) (events s)) s) in
                   if due then
                     match ev_event e with
                     | None => Undefined
                     | Some f =>
                         emit [Fired p f (ev_data e)]
                           (rbind (call f (ev_data e) s1) (fun s2 =>
                              match find_event p (events s2) with
                              | None => Undefined
                              | Some e2 =>
                                  if 0 <? ev_count e2 then
                                    let c := wrap_int (ev_count e2 - 1) in
                                    let s3 := set_events
                                                (update_event p (set_count c) (events s2)) s2 in
                                    if c =? 0 then freeit s3
                                    else DoEvents_loop fuel' now (next_of p (events s3)) s3
                                  else DoEvents_loop fuel' now (next_of p (events s2)) s2
                              end))
                     end
                   else DoEvents_loop fuel' now (next_of p (events s1)) s1)
          end
      end
  end.

Definition DoEvents (fuel : nat) (now : timeval) (s : Sched) : result (Sched * list Step) :=
  DoEvents_loop fuel now (ev_addr <$> head (events s)) s.

(** A run of the main loop: one DoEvents per clock reading. *)
Fixpoint run_ticks (fuel : nat) (nows : list timeval) (s : Sched)
    : result (Sched * list (list Step)) :=
  match nows with
  | [] => Returns (s, [])
  | now :: rest =>
      rbind (DoEvents fuel now s) (fun '(s1, tr) =>
        rbind (run_ticks fuel rest s1) (fun '(s2, trs) => Returns (s2, tr :: trs)))
  end.

End WithCallbacks.

(** *** SetupEvents

    The eight registrations of the core, in the order of the source.  The
    callbacks are functions of other files, known here by their addresses;
    GARBAGE_COLLECT_EVERY is a macro of the configuration header, and the
    product GARBAGE_COLLECT_EVERY*1000 is computed in [int].  [alloc k] is
    the address safe_alloc gives the Event of the k-th registration. *)
Section WithSetup.
Variables save_tunefile garbage_collect loop_event unrealdns_removeoldrecords : vFP.
Variables check_pings check_deadsockets handshake_timeout try_connections : vFP.
Variable GARBAGE_COLLECT_EVERY : Z.

Definition SetupEvents (alloc : nat -> ptr) (now : timeval) (s : Sched) : Sched :=
  let s1 := (EventAdd (alloc 0%nat) now None (Some "tunefile"%string)
               (Some save_tunefile) None (wrap_int (300 * 1000)) 0 s).2 in
  let s2 := (EventAdd (alloc 1%nat) now None (Some "garbage"%string)
               (Some garbage_collect) None (wrap_int (GARBAGE_COLLECT_EVERY * 1000)) 0 s1).2 in
  let s3 := (EventAdd (alloc 2%nat) now None (Some "loop"%string)
               (Some loop_event) None 1000 0 s2).2 in
  let s4 := (EventAdd (alloc 3%nat) now None (Some "unrealdns_removeoldrecords"%string)
               (Some unrealdns_removeoldrecords) None 15000 0 s3).2 in
  let s5 := (EventAdd (alloc 4%nat) now None (Some "check_pings"%string)
               (Some check_pings) None 1000 0 s4).2 in
  let s6 := (EventAdd (alloc 5%nat) now None (Some "check_deadsockets"%string)
               (Some check_deadsockets) None 1000 0 s5).2 in
  let s7 := (EventAdd (alloc 6%nat) now None (Some "handshake_timeout"%string)
               (Some handshake_timeout) None 1000 0 s6).2 in
  (EventAdd (alloc 7%nat) now None (Some "try_connections"%string)
     (Some try_connections) None 2000 0 s7).2.

End WithSetup.

(** Modelled from the spec: minimum_msec_since_last_run is not among the
    sources; the spec describes it as the predicate "has at least
    interval_ms milliseconds elapsed since timestamp T", with the time of the
    last firing updated to now each time the task fires. *)
Definition elapsed_at_least (now old : timeval) (minimum : Z) : bool * timeval :=
  let v := (tv_sec now - tv_sec old) * 1000 + (tv_usec now - tv_usec old) `quot` 1000 in
  if minimum <=? v then (true, now) else (false, old).

(** ** Part II: the memory history backend (history_backend_mem.c) *)

Definition HISTORY_BACKEND_MEM_HASH_TABLE_SIZE : nat := 1019.

Record MessageTag := mk_MessageTag {
  mt_name : string;
  mt_value : option string
}.

Record HistoryLogLine := mk_HistoryLogLine {
  hl_t : Z;                          (* time_t t *)
  hl_mtags : list MessageTag;
  hl_line : string
}.

(** [hlo_lines] is the chain from [head] (the earliest entry) to [tail]. *)
Record HistoryLogObject := mk_HistoryLogObject {
  hlo_lines : list HistoryLogLine;
  hlo_num_lines : Z;                 (* int num_lines *)
  hlo_oldest_t : Z;                  (* time_t oldest_t *)
  hlo_name : string
}.

(** [history_hash_table]: one chain of objects per bucket. *)
Abbreviation HistoryTable := (list (list HistoryLogObject)).

(** MOD_INIT: memset(&history_hash_table, 0, ...). *)
Definition history_hash_table_init : HistoryTable :=
  replicate HISTORY_BACKEND_MEM_HASH_TABLE_SIZE [].

(** strcasecmp of the C library: byte-wise on the lower-cased strings. *)
Definition tolower (c : ascii) : ascii :=
  let n := nat_of_ascii c in
  if ((65 <=? n) && (n <=? 90))%nat then ascii_of_nat (n + 32) else c.

Fixpoint strcasecmp (a b : string) : Z :=
  match a, b with
  | EmptyString, EmptyString => 0
  | EmptyString, String d _ => 0 - Z.of_nat (nat_of_ascii (tolower d))
  | String c _, EmptyString => Z.of_nat (nat_of_ascii (tolower c))
  | String c a', String d b' =>
      let x := Z.of_nat (nat_of_ascii (tolower c)) in
      let y := Z.of_nat (nat_of_ascii (tolower d)) in
      if x =? y then strcasecmp a' b' else x - y
  end.

(** strlcpy(dst, src, size) leaves the first [size - 1] bytes of [src]. *)
Fixpoint string_take (n : nat) (s : string) : string :=
  match n, s with
  | S n', String c s' => String c (string_take n' s')
  | _, _ => EmptyString
  end.

Definition strlcpy (src : string) (size : nat) : string := string_take (size - 1) src.

(** Modelled from the spec: find_mtag is not among the sources; the spec
    describes a tag set as an ordered collection of key to value
    annotations looked up by key. *)
Fixpoint find_mtag (l : list MessageTag) (token : string) : option MessageTag :=
  match l with
  | [] => None
  | m :: l' => if String.eqb (mt_name m) token then Some m else find_mtag l' token
  end.

(** struct tm as gmtime fills it. *)
Record tm := mk_tm {
  tm_year : Z; tm_mon : Z; tm_mday : Z; tm_hour : Z; tm_min : Z; tm_sec : Z
}.

(** printf's %0<width>d. *)
Fixpoint zero_pad (width : nat) (digits : string) : string :=
  match width with
  | O => digits
  | S w => if (String.length digits <? S w)%nat
           then String "0" (zero_pad w digits) else digits
  end.

Definition fmt_0d (width : nat) (z : Z) : string :=
  if z <? 0 then String "-" (zero_pad (width - 1) (pretty (Z.abs z)))
  else zero_pad width (pretty z).

(** A recipient of replayed history: its negotiated capabilities and what
    sendto_one has queued for it, oldest first. *)
Record Message := mk_Message {
  msg_mtags : list MessageTag;
  msg_text : string
}.

Record Client := mk_Client {
  cl_caps : list string;
  cl_sendq : list Message
}.

(** Modelled from the spec: HasCapability and sendto_one belong to the
    connection layer; the spec gives them as a boolean fact about the
    recipient and as writing one line, with its tags, to the recipient. *)
Definition HasCapability (client : Client) (cap : string) : bool :=
  existsb (String.eqb cap) (cl_caps client).

Definition sendto_one (client : Client) (mtags : list MessageTag) (text : string) : Client :=
  mk_Client (cl_caps client) (cl_sendq client ++ [mk_Message mtags text]).

(** Modelled from the spec: HistoryFilter is declared elsewhere; the spec
    treats it as an external predicate over (timestamp, text). *)
Definition HistoryFilter := Z -> string -> bool.

Definition BadPtr (s : string) : bool := String.eqb s "".

Definition set_lines (ls : list HistoryLogLine) (h : HistoryLogObject) : HistoryLogObject :=
  mk_HistoryLogObject ls (hlo_num_lines h) (hlo_oldest_t h) (hlo_name h).
Definition set_num_lines (n : Z) (h : HistoryLogObject) : HistoryLogObject :=
  mk_HistoryLogObject (hlo_lines h) n (hlo_oldest_t h) (hlo_name h).
Definition set_oldest_t (t : Z) (h : HistoryLogObject) : HistoryLogObject :=
  mk_HistoryLogObject (hlo_lines h) (hlo_num_lines h) t (hlo_name h).

Section WithEnvironment.
(** NICKLEN and CHANNELLEN, hence OBJECTLEN, come from the configuration
    header. *)
Variable OBJECTLEN : nat.
(** siphash_nocase(object, key), the process key included. *)
Variable siphash_nocase : string -> Z.
(** server_time_to_unix_time of the server-time module. *)
Variable server_time_to_unix_time : option string -> Z.
(** gmtime of the C library. *)
Variable gmtime : Z -> tm.
(** me.name. *)
Variable me_name : string.

Definition hbm_hash (object : string) : nat :=
  Z.to_nat (siphash_nocase object `mod` Z.of_nat HISTORY_BACKEND_MEM_HASH_TABLE_SIZE).

Definition bucket (tbl : HistoryTable) (hashv : nat) : list HistoryLogObject :=
  default [] (tbl !! hashv).

(** The position in its chain of the first object whose name matches. *)
Fixpoint chain_find (object : string) (c : list HistoryLogObject) : option nat :=
  match c with
  | [] => None
  | h :: c' =>
      if strcasecmp object (hlo_name h) =? 0 then Some O
      else S <$> chain_find object c'
  end.

(** A [HistoryLogObject *]: the bucket and the position in its chain. *)
Abbreviation hlo_ptr := (nat * nat)%type.

Definition deref (tbl : HistoryTable) (h : hlo_ptr) : option HistoryLogObject :=
  bucket tbl h.1 !! h.2.

Definition store (tbl : HistoryTable) (h : hlo_ptr) (f : HistoryLogObject -> HistoryLogObject)
    : HistoryTable :=
  alter (alter f h.2) h.1 tbl.

Definition hbm_find_object (tbl : HistoryTable) (object : string) : option hlo_ptr :=
  let hashv := hbm_hash object in
  (fun i => (hashv, i)) <$> chain_find object (bucket tbl hashv).

Definition hbm_find_or_add_object (tbl : HistoryTable) (object : string)
    : hlo_ptr * HistoryTable :=
  let hashv := hbm_hash object in
  match chain_find object (bucket tbl hashv) with
  | Some i => ((hashv, i), tbl)
  | None =>
      let h := mk_HistoryLogObject [] 0 0 (strlcpy object (OBJECTLEN + 1)) in
      ((hashv, O), alter (AddListItem h) hashv tbl)
  end.

(** DelListItem(h, history_hash_table[hashv]) with [hashv] recomputed from
    the stored name: the object is unlinked from the chain it is in, but
    the head pointer that is updated is the one of bucket [hashv]. *)
Definition hbm_delete_object_hlo (tbl : HistoryTable) (h : hlo_ptr) : result HistoryTable :=
  match deref tbl h with
  | None => Undefined
  | Some o =>
      let hashv := hbm_hash (hlo_name o) in
      if (h.2 =? 0)%nat && negb (hashv =? h.1)%nat then Undefined
      else Returns (alter (delete h.2) h.1 tbl)
  end.

(** The tags of a new line and its time: the caller's tags, copied in
    order, with a "time" tag put in front when there was none. *)
Definition hbm_duplicate_mtags (now : timeval) (m : list MessageTag)
    : list MessageTag * Z :=
  let mtags := foldl (fun acc x => AppendListItem x acc) [] m in
  match find_mtag mtags "time" with
  | Some n => (mtags, server_time_to_unix_time (mt_value n))
  | None =>
      let sec := tv_sec now in
      let t := gmtime sec in
      let buf :=
        (fmt_0d 4 (tm_year t + 1900) +:+ "-" +:+ fmt_0d 2 (tm_mon t + 1) +:+ "-" +:+
         fmt_0d 2 (tm_mday t) +:+ "T" +:+ fmt_0d 2 (tm_hour t) +:+ ":" +:+
         fmt_0d 2 (tm_min t) +:+ ":" +:+ fmt_0d 2 (tm_sec t) +:+ "." +:+
         fmt_0d 3 (wrap_int (tv_usec now `quot` 1000)) +:+ "Z")%string in
      let n := mk_MessageTag "time" (Some buf) in
      (AddListItem n mtags, server_time_to_unix_time (mt_value n))
  end.

(** Add a line to a history object. *)
Definition hbm_history_add_line (now : timeval) (h : HistoryLogObject)
    (mtags : list MessageTag) (line : string) : HistoryLogObject :=
  let '(tags, t) := hbm_duplicate_mtags now mtags in
  let l := mk_HistoryLogLine t tags line in
  let num := wrap_int (hlo_num_lines h + 1) in
  let oldest := if (t <? hlo_oldest_t h) || (hlo_oldest_t h =? 0) then t
                else hlo_oldest_t h in
  mk_HistoryLogObject (hlo_lines h ++ [l]) num oldest (hlo_name h).

(** Add history entry. *)
Definition hbm_history_add (now : timeval) (tbl : HistoryTable) (object : string)
    (mtags : list MessageTag) (line : string) : Z * HistoryTable :=
  let '(h, tbl1) := hbm_find_or_add_object tbl object in
  (0, store tbl1 h (fun o => hbm_history_add_line now o mtags line)).

Definition can_receive_history (client : Client) : bool :=
  HasCapability client "server-time".

Definition hbm_send_line (client : Client) (l : HistoryLogLine) (batchid : string) : Client :=
  if can_receive_history client then
    if BadPtr batchid then sendto_one client (hl_mtags l) (hl_line l)
    else
      let m := mk_MessageTag "batch" (Some batchid) in
      sendto_one client (AddListItem m (hl_mtags l)) (hl_line l)
  else client.

(** [fresh_id] is what generate_batch_id writes into [batch]. *)
Definition hbm_history_request (fresh_id : string) (tbl : HistoryTable)
    (client : Client) (object : string) (filter : HistoryFilter) : Z * Client :=
  match hbm_find_object tbl object with
  | None => (0, client)
  | Some hp =>
      if negb (can_receive_history client) then (0, client)
      else
        let h := default (mk_HistoryLogObject [] 0 0 "") (deref tbl hp) in
        let '(batch, c1) :=
          if HasCapability client "batch" then
            (fresh_id,
             sendto_one client []
               (":" +:+ me_name +:+ " BATCH +" +:+ fresh_id +:+ " chathistory " +:+ object))
          else (""%string, client) in
        let c2 := foldl (fun c l => hbm_send_line c l batch) c1 (hlo_lines h) in
        let c3 := if negb (BadPtr batch)
                  then sendto_one c2 [] (":" +:+ me_name +:+ " BATCH -" +:+ batch)
                  else c2 in
        (1, c3)
  end.

(** The two loops of hbm_history_del over the chain of lines.  Each walks
    the lines that are left ([rest]) and returns the lines it kept with the
    object's [num_lines] and [oldest_t] as the loop leaves them;
    hbm_history_del_line unlinks the line and decrements [num_lines]. *)
Fixpoint del_by_time (redline : Z) (rest : list HistoryLogLine) (num oldest : Z)
    : list HistoryLogLine * Z * Z :=
  match rest with
  | [] => ([], num, oldest)
  | l :: rest' =>
      if hl_t l <? redline then del_by_time redline rest' (wrap_int (num - 1)) oldest
      else
        let oldest' := if (oldest =? 0) || (hl_t l <? oldest) then hl_t l else oldest in
        let '(kept, n, o) := del_by_time redline rest' num oldest' in
        (l :: kept, n, o)
  end.

Fixpoint del_by_count (max_lines : Z) (rest : list HistoryLogLine) (num oldest : Z)
    : list HistoryLogLine * Z * Z :=
  match rest with
  | [] => ([], num, oldest)
  | l :: rest' =>
      if max_lines <? num then del_by_count max_lines rest' (wrap_int (num - 1)) oldest
      else
        let oldest' := if (oldest =? 0) || (hl_t l <? oldest) then hl_t l else oldest in
        let '(kept, n, o) := del_by_count max_lines rest' num oldest' in
        (l :: kept, n, o)
  end.

(** hbm_history_del on the object found: first 'max_time', then
    'max_lines'.  [tstime] is TStime(). *)
Definition history_del_object (tstime : Z) (max_lines max_time : Z) (h : HistoryLogObject)
    : HistoryLogObject :=
  let redline := wrap_long (tstime - max_time) in
  let h1 :=
    if hlo_oldest_t h <? redline then
      let '(kept, n, o) := del_by_time redline (hlo_lines h) (hlo_num_lines h) 0 in
      mk_HistoryLogObject kept n o (hlo_name h)
    else h in
  if max_lines <? hlo_num_lines h1 then
    let '(kept, n, o) := del_by_count max_lines (hlo_lines h1) (hlo_num_lines h1) 0 in
    mk_HistoryLogObject kept n o (hlo_name h1)
  else h1.

Definition hbm_history_del (tstime : Z) (tbl : HistoryTable) (object : string)
    (max_lines max_time : Z) : Z * HistoryTable :=
  match hbm_find_object tbl object with
  | None => (0, tbl)
  | Some h => (1, store tbl h (history_del_object tstime max_lines max_time))
  end.

Definition hbm_history_destroy (tbl : HistoryTable) (object : string)
    : result (Z * HistoryTable) :=
  match hbm_find_object tbl object with
  | None => Returns (0, tbl)
  | Some h => rbind (hbm_delete_object_hlo tbl h) (fun tbl' => Returns (1, tbl'))
  end.

End WithEnvironment.

(** ** Part III: the vocabulary of the properties, and concrete inputs *)

(** *** A pass of DoEvents, event by event *)

Section TickByTick.
Variable call : vFP -> Data -> Sched -> result Sched.
Variable minimum_msec_since_last_run : timeval -> timeval -> Z -> bool * timeval.

(** A callback that returns and leaves the [events] list as it found it. *)
Definition callback_ok (e : Event) : Prop :=
  exists f, ev_event e = Some f /\
    forall s, exists s', call f (ev_data e) s = Returns s' /\ events s' = events s.

(** The addresses in [events] are pairwise distinct and every event has a
    well-behaved callback. *)
Definition sched_ok (s : Sched) : Prop :=
  NoDup (addrs s) /\ Forall callback_ok (events s).

(** Is the event due at [now], and the [last_run] the check leaves. *)
Definition due_check (now : timeval) (e : Event) : bool * Event :=
  if ev_every_msec e =? 0 then (true, e)
  else
    let '(b, lr) := minimum_msec_since_last_run now (ev_last_run e) (ev_every_msec e) in
    (b, set_last_run lr e).

(** What a pass does with one event when callbacks leave the list alone:
    the steps it records and the event as it is afterwards, if it stays. *)
Definition tick_event (now : timeval) (e : Event) : list Step * option Event :=
  let p := ev_addr e in
  if ev_count e =? -1 then ([Visited p; Deleted p], None)
  else
    let '(due, e1) := due_check now e in
    if due then
      let fired := match ev_event e with
                   | Some f => [Fired p f (ev_data e)]
                   | None => []
                   end in
      if 0 <? ev_count e1 then
        let c := wrap_int (ev_count e1 - 1) in
        if c =? 0 then (Visited p :: fired ++ [Deleted p], None)
        else (Visited p :: fired, Some (set_count c e1))
      else (Visited p :: fired, Some e1)
    else ([Visited p], Some e1).

Definition tick_steps (now : timeval) (l : list Event) : list Step :=
  concat ((fun e => (tick_event now e).1) <$> l).
Definition tick_survivors (now : timeval) (l : list Event) : list Event :=
  omap (fun e => (tick_event now e).2) l.

(** How many of the passes at the clock readings [nows] find the event
    due: its interval is 0, or minimum_msec_since_last_run answers that
    the interval has elapsed since the [last_run] the earlier checks
    left. *)
Fixpoint due_passes (nows : list timeval) (e : Event) : nat :=
  match nows with
  | [] => 0
  | now :: rest =>
      let '(due, e1) := due_check now e in
      ((if due then 1 else 0) + due_passes rest e1)%nat
  end.

End TickByTick.

(** The same task, up to the time of its last run. *)
Definition same_task (e e' : Event) : Prop :=
  ev_addr e' = ev_addr e /\ ev_name e' = ev_name e /\ ev_count e' = ev_count e
  /\ ev_every_msec e' = ev_every_msec e /\ ev_event e' = ev_event e
  /\ ev_data e' = ev_data e /\ ev_owner e' = ev_owner e.

(** *** Tasks and their owners *)

(** The tasks a module's object list names: its MOBJ_EVENT entries. *)
Definition listed_objs (l : list ModuleObject) : list ptr :=
  omap (fun o => match o with MObjEvent p => Some p | MObjOther _ _ => None end) l.

(** The task at [p] is in the list and its owner is [m]. *)
Definition owned_by (s : Sched) (p m : ptr) : Prop :=
  exists e, e ∈ events s /\ ev_addr e = p /\ ev_owner e = Some m.

(** The module at [m] has a MOBJ_EVENT entry for [p]. *)
Definition lists_task (s : Sched) (m p : ptr) : Prop :=
  exists md, modules s !! m = Some md /\ p ∈ listed_objs (objects md).

(** The tasks and the object lists of the modules are in step: addresses
    are distinct, no module names a task twice, and a module names a task
    exactly when the task is in the list and the module owns it. *)
Definition owners_ok (s : Sched) : Prop :=
  NoDup (addrs s)
  /\ (forall m md, modules s !! m = Some md -> NoDup (listed_objs (objects md)))
  /\ (forall p m, owned_by s p m <-> lists_task s m p).

(** No task of the list has a stored interval of 0. *)
Definition no_zero_interval (s : Sched) : Prop :=
  Forall (fun e => ev_every_msec e <> 0) (events s).

(** The name EventAdd's diagnostic gives for its caller:
    [module ? module->header->name : "???"]. *)
Definition caller_name (module : option ptr) (s : Sched) : string :=
  match module with
  | Some m => default "???"%string (mod_name <$> modules s !! m)
  | None => "???"%string
  end.

(** The names SetupEvents registers, in the order of its calls. *)
Definition setup_names : list string :=
  ["tunefile"; "garbage"; "loop"; "unrealdns_removeoldrecords"; "check_pings";
   "check_deadsockets"; "handshake_timeout"; "try_connections"]%string.

(** *** What the cached fields stand for *)

(** The cached [oldest_t] as one more line is seen: the test of
    hbm_history_add_line and of the two loops of hbm_history_del. *)
Definition update_oldest (oldest : Z) (l : HistoryLogLine) : Z :=
  if (oldest =? 0) || (hl_t l <? oldest) then hl_t l else oldest.

Definition scan_oldest (oldest : Z) (ls : list HistoryLogLine) : Z :=
  foldl update_oldest oldest ls.

(** The least timestamp among the lines, if there is a line. *)
Fixpoint min_time (ls : list HistoryLogLine) : option Z :=
  match ls with
  | [] => None
  | l :: ls' => Some (match min_time ls' with
                      | Some m => Z.min (hl_t l) m
                      | None => hl_t l
                      end)
  end.

(** The oldest timestamp present, or the "no lines" value 0. *)
Definition oldest_or_sentinel (ls : list HistoryLogLine) : Z := default 0 (min_time ls).

(** The cached fields agree with the lines. *)
Definition cache_ok (h : HistoryLogObject) : Prop :=
  hlo_num_lines h = Z.of_nat (length (hlo_lines h))
  /\ hlo_oldest_t h = oldest_or_sentinel (hlo_lines h).

Definition nonzero_times (ls : list HistoryLogLine) : Prop :=
  Forall (fun l => hl_t l <> 0) ls.

(** *** Names as C strings *)

(** A C string has no NUL inside. *)
Fixpoint nul_free (s : string) : Prop :=
  match s with
  | EmptyString => True
  | String c s' => c <> zero /\ nul_free s'
  end.

Fixpoint lower (s : string) : string :=
  match s with
  | EmptyString => EmptyString
  | String c s' => String (tolower c) (lower s')
  end.

(** *** Runs of the backend

    The calls a history module makes on the backend, with the clock
    readings they see.  (hbm_history_request does not change the table.) *)
Inductive HistoryOp :=
  | OpAdd (now : timeval) (object : string) (mtags : list MessageTag) (line : string)
  | OpDel (tstime : Z) (object : string) (max_lines max_time : Z)
  | OpDestroy (object : string).

Definition op_object (op : HistoryOp) : string :=
  match op with
  | OpAdd _ o _ _ | OpDel _ o _ _ | OpDestroy o => o
  end.

Section HistoryRuns.
Variable OBJECTLEN : nat.
Variable siphash_nocase : string -> Z.
Variable server_time_to_unix_time : option string -> Z.
Variable gmtime : Z -> tm.

Definition run_op (tbl : HistoryTable) (op : HistoryOp) : result HistoryTable :=
  match op with
  | OpAdd now o m l =>
      Returns (hbm_history_add OBJECTLEN siphash_nocase server_time_to_unix_time gmtime
                 now tbl o m l).2
  | OpDel tstime o max_lines max_time =>
      Returns (hbm_history_del siphash_nocase tstime tbl o max_lines max_time).2
  | OpDestroy o =>
      rbind (hbm_history_destroy siphash_nocase tbl o) (fun r => Returns r.2)
  end.

Fixpoint run_ops (ops : list HistoryOp) (tbl : HistoryTable) : result HistoryTable :=
  match ops with
  | [] => Returns tbl
  | op :: ops' => rbind (run_op tbl op) (run_ops ops')
  end.

End HistoryRuns.

(** A run of hbm_history_add calls on one target. *)
Record AddCall := mk_AddCall {
  ac_now : timeval;
  ac_mtags : list MessageTag;
  ac_line : string
}.

(** *** The calls seen on the chain of their bucket *)

Section ChainView.
Variable OBJECTLEN : nat.
Variable siphash_nocase : string -> Z.
Variable server_time_to_unix_time : option string -> Z.
Variable gmtime : Z -> tm.

Local Abbreviation hashv := (hbm_hash siphash_nocase).
Local Abbreviation add_line := (hbm_history_add_line server_time_to_unix_time gmtime).
Local Abbreviation history_add :=
  (hbm_history_add OBJECTLEN siphash_nocase server_time_to_unix_time gmtime).

(** The table has its buckets. *)
Definition table_ok (tbl : HistoryTable) : Prop :=
  length tbl = HISTORY_BACKEND_MEM_HASH_TABLE_SIZE.

(** One replayed line as it goes out inside a batch. *)
Definition batched_line (batchid : string) (l : HistoryLogLine) : Message :=
  mk_Message (mk_MessageTag "batch" (Some batchid) :: hl_mtags l) (hl_line l).

Definition valid_name (o : string) : Prop :=
  (String.length o <= OBJECTLEN)%nat /\ nul_free o.

Definition new_object (o : string) : HistoryLogObject :=
  mk_HistoryLogObject [] 0 0 (strlcpy o (OBJECTLEN + 1)).

Definition chain_add (now : timeval) (o : string) (m : list MessageTag) (l : string)
    (c : list HistoryLogObject) : list HistoryLogObject :=
  match chain_find o c with
  | Some i => alter (fun h => add_line now h m l) i c
  | None => add_line now (new_object o) m l :: c
  end.

Definition chain_del (tstime : Z) (o : string) (max_lines max_time : Z)
    (c : list HistoryLogObject) : list HistoryLogObject :=
  match chain_find o c with
  | Some i => alter (history_del_object tstime max_lines max_time) i c
  | None => c
  end.

Definition chain_destroy (o : string) (c : list HistoryLogObject) : list HistoryLogObject :=
  match chain_find o c with
  | Some i => delete i c
  | None => c
  end.

(** The chain without the objects that answer to [target]. *)
Definition forget (target : string) (c : list HistoryLogObject) : list HistoryLogObject :=
  filter (fun h => strcasecmp target (hlo_name h) <> 0) c.

Definition without (target : string) (tbl : HistoryTable) : HistoryTable :=
  forget target <$> tbl.

(** No two objects of a chain answer to the same name. *)
Fixpoint chain_unique (c : list HistoryLogObject) : Prop :=
  match c with
  | [] => True
  | h :: c' => chain_find (hlo_name h) c' = None /\ chain_unique c'
  end.

Definition chain_ok (hv : nat) (c : list HistoryLogObject) : Prop :=
  chain_unique c
  /\ Forall (fun h => hashv (hlo_name h) = hv /\ nul_free (hlo_name h)) c.

Definition store_ok (tbl : HistoryTable) : Prop :=
  table_ok tbl /\ forall hv c, tbl !! hv = Some c -> chain_ok hv c.

(** The first match updated, or removed, without going through its
    position. *)
Fixpoint alter_first (o : string) (f : HistoryLogObject -> HistoryLogObject)
    (c : list HistoryLogObject) : list HistoryLogObject :=
  match c with
  | [] => []
  | h :: c' => if strcasecmp o (hlo_name h) =? 0 then f h :: c'
               else h :: alter_first o f c'
  end.

Fixpoint delete_first (o : string) (c : list HistoryLogObject) : list HistoryLogObject :=
  match c with
  | [] => []
  | h :: c' => if strcasecmp o (hlo_name h) =? 0 then c' else h :: delete_first o c'
  end.

(** The timestamp hbm_duplicate_mtags gives a new line. *)
Definition line_time (now : timeval) (m : list MessageTag) : Z :=
  (hbm_duplicate_mtags server_time_to_unix_time gmtime now m).2.

Definition add_lines (target : string) (calls : list AddCall) (tbl : HistoryTable)
    : HistoryTable :=
  foldl (fun t a => (history_add (ac_now a) t target (ac_mtags a) (ac_line a)).2) tbl calls.

Definition names_ok (c : list HistoryLogObject) : Prop :=
  Forall (fun h => nul_free (hlo_name h)) c.

End ChainView.

(** *** What is stored under a name *)

(** The first object of a chain that answers to [o]. *)
Fixpoint chain_lookup (o : string) (c : list HistoryLogObject) : option HistoryLogObject :=
  match c with
  | [] => None
  | h :: c' => if strcasecmp o (hlo_name h) =? 0 then Some h else chain_lookup o c'
  end.

(** The cached fields as the code keeps them: the number of lines, and the
    oldest time as the scan of hbm_history_del computes it from the
    lines. *)
Definition cache_consistent (h : HistoryLogObject) : Prop :=
  hlo_num_lines h = Z.of_nat (length (hlo_lines h))
  /\ hlo_oldest_t h = scan_oldest 0 (hlo_lines h).

(** One replayed line as it goes out without a batch. *)
Definition bare_line (l : HistoryLogLine) : Message :=
  mk_Message (hl_mtags l) (hl_line l).

Section StoreView.
Variable OBJECTLEN : nat.
Variable siphash_nocase : string -> Z.
Variable server_time_to_unix_time : option string -> Z.
Variable gmtime : Z -> tm.

(** The object hbm_find_object reaches for [o], if there is one. *)
Definition stored_object (tbl : HistoryTable) (o : string) : option HistoryLogObject :=
  hbm_find_object siphash_nocase tbl o ≫= deref tbl.

(** Every stored name fits the name buffer and is a C string. *)
Definition names_fit (tbl : HistoryTable) : Prop :=
  Forall (Forall (fun h => (String.length (hlo_name h) <= OBJECTLEN)%nat
                           /\ nul_free (hlo_name h))) tbl.

(** What a call does to the chain of its bucket. *)
Definition op_chain (op : HistoryOp) (c : list HistoryLogObject) : list HistoryLogObject :=
  match op with
  | OpAdd now o m l =>
      chain_add OBJECTLEN server_time_to_unix_time gmtime now o m l c
  | OpDel tstime o max_lines max_time => chain_del tstime o max_lines max_time c
  | OpDestroy o => chain_destroy o c
  end.

End StoreView.

(** *** Concrete inputs *)

(** A callback that leaves a line in the log and returns. *)
Definition sample_call (f : vFP) (d : Data) (s : Sched) : result Sched :=
  Returns (add_log (LogOther "callback ran") s).

Definition boot_time : timeval := mk_timeval 1000 0.

(** Three of the registrations of SetupEvents, the middle one counted. *)
Definition sample_sched : Sched :=
  let s0 := mk_Sched [] ∅ [] in
  let s1 := (EventAdd 1%positive boot_time None (Some "tunefile"%string) (Some 11%positive) None 300000 0 s0).2 in
  let s2 := (EventAdd 2%positive boot_time None (Some "garbage"%string) (Some 12%positive) None 600000 2 s1).2 in
  (EventAdd 3%positive boot_time None (Some "loop"%string) (Some 13%positive) None 1000 0 s2).2.

Definition ev_tunefile : Event :=
  mk_Event 1%positive (Some "tunefile"%string) 0 300000 (Some 11%positive) None boot_time None.
Definition ev_garbage : Event :=
  mk_Event 2%positive (Some "garbage"%string) 2 600000 (Some 12%positive) None boot_time None.
Definition ev_loop : Event :=
  mk_Event 3%positive (Some "loop"%string) 0 1000 (Some 13%positive) None boot_time None.

(** The task "loop" after EventMod has stored every_msec = 0 in it. *)
Definition sample_sched_zero : Sched :=
  match EventMod 1 2 4 8 16 (Some 3%positive)
          (Some (mk_EventInfo 1 0 0 None None None)) sample_sched with
  | Returns (_, s) => s
  | _ => sample_sched
  end.

Definition ev_loop_zero : Event := set_every_msec 0 ev_loop.

(** Two later clock readings. *)
Definition late : timeval := mk_timeval 2000 0.
Definition later : timeval := mk_timeval 3000 0.

(** The callback of "garbage" taking its own task out, with EventDel and
    with EventMarkDel; the other callbacks do nothing. *)
Definition self_deleting_call (f : vFP) (d : Data) (s : Sched) : result Sched :=
  if Pos.eqb f 12 then Returns (EventDel 2%positive s).2 else Returns s.
Definition self_marking_call (f : vFP) (d : Data) (s : Sched) : result Sched :=
  if Pos.eqb f 12 then rbind (EventMarkDel 2%positive s) (fun r => Returns r.2)
  else Returns s.

(** No tasks yet, and one loaded module. *)
Definition sched_with_module : Sched :=
  mk_Sched [] {[ 50%positive := mk_Module "history" MODERR_NOERROR [] ]} [].

(** The module owning one task. *)
Definition owned_sched : Sched :=
  (EventAdd 9%positive late (Some 50%positive) (Some "flush"%string) (Some 19%positive)
     None 40 3 sched_with_module).2.

(** An allocator that hands out the addresses 1, 2, 3, ... *)
Definition first_addresses (k : nat) : ptr := Pos.of_succ_nat k.

(** Modelled from the spec: server_time_to_unix_time and the clock
    conversions are not among the sources; the spec fixes the shape of a
    "time" tag value, YYYY-MM-DDTHH:MM:SS.mmmZ in UTC.  A value of another
    shape reads as 0 here. *)
Definition digit (c : ascii) : option Z :=
  let n := nat_of_ascii c in
  if ((48 <=? n) && (n <=? 57))%nat then Some (Z.of_nat (n - 48)) else None.

Fixpoint number (acc : Z) (cs : list ascii) : option Z :=
  match cs with
  | [] => Some acc
  | c :: cs' => d ← digit c; number (10 * acc + d) cs'
  end.

Definition field (cs : list ascii) (from len : nat) : option Z :=
  let f := take len (drop from cs) in
  if (length f =? len)%nat then number 0 f else None.

Definition sep (cs : list ascii) (pos : nat) (c : ascii) : bool :=
  match cs !! pos with Some d => Ascii.eqb c d | None => false end.

Definition days_from_civil (y m d : Z) : Z :=
  let y' := if m <=? 2 then y - 1 else y in
  let era := y' `div` 400 in
  let yoe := y' - era * 400 in
  let mp := (m + 9) `mod` 12 in
  let doy := (153 * mp + 2) `div` 5 + d - 1 in
  let doe := yoe * 365 + yoe `div` 4 - yoe `div` 100 + doy in
  era * 146097 + doe - 719468.

Definition iso8601_to_unix_time (v : option string) : Z :=
  match v with
  | None => 0
  | Some s =>
      let cs := String.list_ascii_of_string s in
      if sep cs 4 "-" && sep cs 7 "-" && sep cs 10 "T" && sep cs 13 ":" && sep cs 16 ":"
         && sep cs 19 "." && sep cs 23 "Z" && (length cs =? 24)%nat then
        match field cs 0 4, field cs 5 2, field cs 8 2, field cs 11 2, field cs 14 2,
              field cs 17 2, field cs 20 3 with
        | Some y, Some mo, Some d, Some h, Some mi, Some sec, Some _ =>
            days_from_civil y mo d * 86400 + h * 3600 + mi * 60 + sec
        | _, _, _, _, _, _, _ => 0
        end
      else 0
  end.

Definition utc_gmtime (sec : Z) : tm :=
  let days := sec `div` 86400 in
  let rem := sec `mod` 86400 in
  let z := days + 719468 in
  let era := z `div` 146097 in
  let doe := z - era * 146097 in
  let yoe := (doe - doe `div` 1460 + doe `div` 36524 - doe `div` 146096) `div` 365 in
  let doy := doe - (365 * yoe + yoe `div` 4 - yoe `div` 100) in
  let mp := (5 * doy + 2) `div` 153 in
  let d := doy - (153 * mp + 2) `div` 5 + 1 in
  let m := if mp <? 10 then mp + 3 else mp - 9 in
  let y := yoe + era * 400 + (if m <=? 2 then 1 else 0) in
  mk_tm (y - 1900) (m - 1) d (rem `div` 3600) ((rem `mod` 3600) `div` 60) (rem `mod` 60).

(** A case-insensitive hash standing in for the keyed siphash. *)
Fixpoint sum_codes (s : string) : Z :=
  match s with
  | EmptyString => 7
  | String c s' => Z.of_nat (nat_of_ascii c) + 31 * sum_codes s'
  end.
Definition sample_hash (s : string) : Z := sum_codes (lower s).

Definition sample_OBJECTLEN : nat := 32.

Definition time_tag (v : string) : MessageTag := mk_MessageTag "time" (Some v).

Definition sample_object (tbl : HistoryTable) (object : string) : option HistoryLogObject :=
  hbm_find_object sample_hash tbl object ≫= deref tbl.

Definition line_times (h : HistoryLogObject) : list Z := hl_t <$> hlo_lines h.

Definition sample_add_lines (target : string) (calls : list AddCall) : HistoryTable :=
  add_lines sample_OBJECTLEN sample_hash iso8601_to_unix_time utc_gmtime
    target calls history_hash_table_init.

Definition sample_del (tstime : Z) (tbl : HistoryTable) (object : string)
    (max_lines max_time : Z) : HistoryTable :=
  (hbm_history_del sample_hash tstime tbl object max_lines max_time).2.

Definition at_100 : timeval := mk_timeval 100 0.

Definition stamped (v : string) (line : string) : AddCall :=
  mk_AddCall at_100 [time_tag v] line.

Definition sample_client : Client := mk_Client ["server-time"; "batch"]%string [].

Definition sample_table : HistoryTable :=
  sample_add_lines "#chat"
    [stamped "1970-01-01T00:01:40.000Z" "hello"; stamped "1970-01-01T00:03:20.000Z" "world"].

Definition sample_ops : list HistoryOp :=
  [OpAdd at_100 "#chat" [time_tag "1970-01-01T00:01:40.000Z"] "hello";
   OpAdd at_100 "#other" [] "elsewhere";
   OpDel 300 "#CHAT" 10 1000;
   OpAdd at_100 "#Chat" [] "again"].

Definition two_calls : list AddCall :=
  [stamped "1970-01-01T00:01:40.000Z" "hello"; stamped "1970-01-01T00:03:20.000Z" "world"].

Definition three_lines_table : HistoryTable :=
  sample_add_lines "#chat"
    [stamped "1970-01-01T00:01:40.000Z" "a"; stamped "1970-01-01T00:03:20.000Z" "b";
     stamped "1970-01-01T00:05:00.000Z" "c"].

Definition chat_ptr : nat * nat := (hbm_hash sample_hash "#chat", 0%nat).

Definition three_lines_object : HistoryLogObject :=
  Eval vm_compute in
    default (mk_HistoryLogObject [] 0 0 "") (deref three_lines_table chat_ptr).

(** The table with a second target, a recipient without the batch
    capability, and a name longer than the name buffer. *)
Definition busy_table : HistoryTable :=
  (hbm_history_add sample_OBJECTLEN sample_hash iso8601_to_unix_time utc_gmtime
     at_100 sample_table "#other" [] "elsewhere").2.

Definition plain_client : Client := mk_Client ["server-time"]%string [].

Definition long_name : string := "#a-channel-name-that-does-not-fit-the-buffer".

(** ** Part IV: properties of the scheduler *)

(** *** The [events] list seen through an address *)

Lemma find_event_app a pre e suf :
  ev_addr e = a -> a ∉ ev_addr <$> pre ->
  find_event a (pre ++ e :: suf) = Some e.
Proof.
  intros <-. induction pre as [|x pre IH]; simpl; intros Hn.
  - by rewrite Pos.eqb_refl.
  - apply not_elem_of_cons in Hn as [Hx Hn].
    destruct (Pos.eqb_spec (ev_addr x) (ev_addr e)); [congruence | auto].
Qed.

Lemma next_of_app a pre e suf :
  ev_addr e = a -> a ∉ ev_addr <$> pre ->
  next_of a (pre ++ e :: suf) = ev_addr <$> head suf.
Proof.
  intros <-. induction pre as [|x pre IH]; simpl; intros Hn.
  - by rewrite Pos.eqb_refl.
  - apply not_elem_of_cons in Hn as [Hx Hn].
    destruct (Pos.eqb_spec (ev_addr x) (ev_addr e)); [congruence | auto].
Qed.

Lemma unlink_app a pre e suf :
  ev_addr e = a -> a ∉ ev_addr <$> pre ->
  unlink a (pre ++ e :: suf) = pre ++ suf.
Proof.
  intros <-. induction pre as [|x pre IH]; simpl; intros Hn.
  - by rewrite Pos.eqb_refl.
  - apply not_elem_of_cons in Hn as [Hx Hn].
    destruct (Pos.eqb_spec (ev_addr x) (ev_addr e)); [congruence | f_equal; auto].
Qed.

Lemma update_event_app a f pre e suf :
  ev_addr e = a -> a ∉ ev_addr <$> pre ->
  update_event a f (pre ++ e :: suf) = pre ++ f e :: suf.
Proof.
  intros <-. induction pre as [|x pre IH]; simpl; intros Hn.
  - by rewrite Pos.eqb_refl.
  - apply not_elem_of_cons in Hn as [Hx Hn].
    destruct (Pos.eqb_spec (ev_addr x) (ev_addr e)); [congruence | f_equal; auto].
Qed.

Lemma find_event_addr a l e : find_event a l = Some e -> ev_addr e = a.
Proof.
  induction l as [|x l IH]; simpl; [done|].
  destruct (Pos.eqb_spec (ev_addr x) a); [congruence | auto].
Qed.

Lemma find_event_elem a l e : find_event a l = Some e -> e ∈ l.
Proof.
  induction l as [|x l IH]; simpl; [done|].
  destruct (Pos.eqb_spec (ev_addr x) a).
  - intros [= ->]. left.
  - intros H. right. auto.
Qed.

Lemma find_event_None a l : find_event a l = None <-> a ∉ ev_addr <$> l.
Proof.
  induction l as [|x l IH]; simpl.
  - split; [intros _; apply not_elem_of_nil | done].
  - rewrite not_elem_of_cons.
    destruct (Pos.eqb_spec (ev_addr x) a); split; try done.
    + intros [? _]. congruence.
    + intros H. split; [congruence | by apply IH].
    + intros [_ H]. by apply IH.
Qed.

Lemma elem_split_first (a : ptr) (l : list Event) :
  a ∈ ev_addr <$> l ->
  exists pre e suf, l = pre ++ e :: suf /\ ev_addr e = a /\ a ∉ ev_addr <$> pre.
Proof.
  induction l as [|x l IH]; simpl; intros H.
  - by apply elem_of_nil in H.
  - destruct (decide (ev_addr x = a)) as [Heq|Hne].
    + exists [], x, l. repeat split; [done | apply not_elem_of_nil].
    + apply elem_of_cons in H as [H|H]; [congruence|].
      destruct (IH H) as (pre & e & suf & -> & He & Hpre).
      exists (x :: pre), e, suf. repeat split; [done|].
      simpl. apply not_elem_of_cons. done.
Qed.

Lemma NoDup_addr_mid (pre : list Event) e suf :
  NoDup (ev_addr <$> (pre ++ e :: suf)) ->
  (ev_addr e ∉ ev_addr <$> pre) /\ (ev_addr e ∉ ev_addr <$> suf).
Proof.
  rewrite fmap_app, fmap_cons. intros H.
  apply NoDup_app in H as (_ & Hd & H2).
  apply NoDup_cons in H2 as [Hs _]. split; [|done].
  intros Hin. apply (Hd _ Hin). left.
Qed.

(** *** One pass of DoEvents, event by event *)

Section DoEventsFacts.
Variable call : vFP -> Data -> Sched -> result Sched.
Variable minimum_msec_since_last_run : timeval -> timeval -> Z -> bool * timeval.

Local Abbreviation callback_ok := (callback_ok call).
Local Abbreviation sched_ok := (sched_ok call).
Local Abbreviation due_check := (due_check minimum_msec_since_last_run).
Local Abbreviation tick_event := (tick_event minimum_msec_since_last_run).
Local Abbreviation tick_steps := (tick_steps minimum_msec_since_last_run).
Local Abbreviation tick_survivors := (tick_survivors minimum_msec_since_last_run).
Local Abbreviation due_passes := (due_passes minimum_msec_since_last_run).

Lemma due_check_addr now e : ev_addr (due_check now e).2 = ev_addr e.
Proof.
  unfold due_check. destruct (ev_every_msec e =? 0); [done|].
  by destruct (minimum_msec_since_last_run _ _ _).
Qed.

Lemma due_check_count now e : ev_count (due_check now e).2 = ev_count e.
Proof.
  unfold due_check. destruct (ev_every_msec e =? 0); [done|].
  by destruct (minimum_msec_since_last_run _ _ _).
Qed.

Lemma due_check_event now e : ev_event (due_check now e).2 = ev_event e.
Proof.
  unfold due_check. destruct (ev_every_msec e =? 0); [done|].
  by destruct (minimum_msec_since_last_run _ _ _).
Qed.

Lemma due_check_data now e : ev_data (due_check now e).2 = ev_data e.
Proof.
  unfold due_check. destruct (ev_every_msec e =? 0); [done|].
  by destruct (minimum_msec_since_last_run _ _ _).
Qed.

Lemma due_check_name now e : ev_name (due_check now e).2 = ev_name e.
Proof.
  unfold due_check. destruct (ev_every_msec e =? 0); [done|].
  by destruct (minimum_msec_since_last_run _ _ _).
Qed.

Lemma tick_event_addr now e e' : (tick_event now e).2 = Some e' -> ev_addr e' = ev_addr e.
Proof.
  unfold tick_event. destruct (ev_count e =? -1); [done|].
  pose proof (due_check_addr now e) as Ha.
  destruct (due_check now e) as [due e1]; simpl in Ha.
  destruct due; [|by intros [= <-]].
  destruct (0 <? ev_count e1).
  - destruct (_ =? 0); [done|]. by intros [= <-].
  - by intros [= <-].
Qed.

Lemma tick_event_callback now e e' :
  (tick_event now e).2 = Some e' -> callback_ok e -> callback_ok e'.
Proof.
  unfold tick_event. destruct (ev_count e =? -1); [done|].
  pose proof (due_check_event now e) as Hf. pose proof (due_check_data now e) as Hd.
  destruct (due_check now e) as [due e1]; simpl in Hf, Hd.
  assert (callback_ok e -> callback_ok e1) as H1.
  { unfold callback_ok. by rewrite Hf, Hd. }
  destruct due; [|by intros [= <-]].
  destruct (0 <? ev_count e1).
  - destruct (_ =? 0); [done|]. intros [= <-]. intros H. by apply H1 in H.
  - by intros [= <-].
Qed.

Lemma tick_survivors_addrs now l :
  ev_addr <$> tick_survivors now l ⊆ ev_addr <$> l.
Proof.
  unfold tick_survivors. induction l as [|e l IH]; simpl; [done|].
  destruct (tick_event now e).2 as [e'|] eqn:He.
  - rewrite fmap_cons. apply tick_event_addr in He. rewrite He.
    intros x Hx. apply elem_of_cons in Hx as [->|Hx]; [left | right; auto].
  - intros x Hx. right. auto.
Qed.

Lemma tick_survivors_NoDup now l :
  NoDup (ev_addr <$> l) -> NoDup (ev_addr <$> tick_survivors now l).
Proof.
  unfold tick_survivors. induction l as [|e l IH]; simpl; [done|].
  rewrite NoDup_cons. intros [Hn Hd].
  destruct (tick_event now e).2 as [e'|] eqn:He; [|auto].
  rewrite fmap_cons. apply NoDup_cons. split; [|auto].
  apply tick_event_addr in He. rewrite He. intros Hin.
  apply Hn. by apply (tick_survivors_addrs now l).
Qed.

Lemma tick_survivors_callback now l :
  Forall callback_ok l -> Forall callback_ok (tick_survivors now l).
Proof.
  unfold tick_survivors. induction 1 as [|e l He Hl IH]; simpl; [constructor|].
  destruct (tick_event now e).2 as [e'|] eqn:Heq; [|done].
  constructor; [|done]. by eapply tick_event_callback.
Qed.

Lemma tick_survivors_length now l : (length (tick_survivors now l) <= length l)%nat.
Proof.
  unfold tick_survivors. induction l as [|e l IH]; csimpl; [done|].
  destruct (tick_event now e).2; csimpl; lia.
Qed.

Lemma EventDel_mid s pre e suf :
  events s = pre ++ e :: suf -> ev_addr e ∉ ev_addr <$> pre ->
  exists s', EventDel (ev_addr e) s = (ev_addr <$> head suf, s') /\ events s' = pre ++ suf.
Proof.
  intros Hs Hn. unfold EventDel. rewrite Hs.
  rewrite (find_event_app _ pre e suf eq_refl Hn), (next_of_app _ pre e suf eq_refl Hn),
    (unlink_app _ pre e suf eq_refl Hn).
  destruct (ev_owner e); eexists; split; reflexivity.
Qed.

Lemma due_check_loop now s pre e suf :
  events s = pre ++ e :: suf -> ev_addr e ∉ ev_addr <$> pre ->
  exists s1,
    (if ev_every_msec e =? 0 then (true, s)
     else
       let '(b, lr) := minimum_msec_since_last_run now (ev_last_run e) (ev_every_msec e) in
       (b, set_events (update_event (ev_addr e) (set_last_run lr) (events s)) s))
    = ((due_check now e).1, s1)
    /\ events s1 = pre ++ (due_check now e).2 :: suf.
Proof.
  intros Hs Hn. unfold due_check. destruct (ev_every_msec e =? 0).
  - by exists s.
  - destruct (minimum_msec_since_last_run _ _ _) as [b lr]. simpl.
    eexists; split; [reflexivity|]. simpl.
    by rewrite Hs, (update_event_app _ _ pre e suf eq_refl Hn).
Qed.

Lemma tick_steps_cons now e l :
  tick_steps now (e :: l) = (tick_event now e).1 ++ tick_steps now l.
Proof. reflexivity. Qed.

Lemma tick_survivors_cons now e l :
  tick_survivors now (e :: l) =
  match (tick_event now e).2 with
  | Some e' => e' :: tick_survivors now l
  | None => tick_survivors now l
  end.
Proof. reflexivity. Qed.

Lemma NoDup_addr_drop (pre : list Event) e suf :
  NoDup (ev_addr <$> (pre ++ e :: suf)) -> NoDup (ev_addr <$> (pre ++ suf)).
Proof.
  rewrite !fmap_app, fmap_cons. intros H.
  apply NoDup_app in H as (H1 & Hd & H2). apply NoDup_cons in H2 as [_ H2].
  apply NoDup_app. repeat split; [done| |done].
  intros x Hx Hx'. apply (Hd x Hx). by right.
Qed.

Lemma NoDup_addr_shift (pre : list Event) e e' suf :
  ev_addr e' = ev_addr e ->
  NoDup (ev_addr <$> (pre ++ e :: suf)) -> NoDup (ev_addr <$> ((pre ++ [e']) ++ suf)).
Proof.
  intros He. rewrite <- app_assoc. simpl. by rewrite !fmap_app, !fmap_cons, He.
Qed.

Lemma DoEvents_loop_spec now suf : forall pre s fuel,
  events s = pre ++ suf ->
  NoDup (ev_addr <$> (pre ++ suf)) ->
  Forall callback_ok suf ->
  (length suf < fuel)%nat ->
  exists s',
    DoEvents_loop call minimum_msec_since_last_run fuel now (ev_addr <$> head suf) s
      = Returns (s', tick_steps now suf)
    /\ events s' = pre ++ tick_survivors now suf.
Proof.
  induction suf as [|e suf IH]; intros pre s fuel Hs Hnd Hcb Hfuel.
  - destruct fuel; [simpl in Hfuel; lia|]. exists s. by rewrite Hs.
  - destruct fuel as [|k]; [simpl in Hfuel; lia|]. simpl in Hfuel.
    destruct (NoDup_addr_mid _ _ _ Hnd) as [Hpre Hsuf].
    apply Forall_cons in Hcb as [(f & Hf & Hcall) Hcb].
    (* leaving the event in place, possibly updated, and moving on *)
    assert (forall e' s0, ev_addr e' = ev_addr e -> events s0 = pre ++ e' :: suf ->
              exists s',
                DoEvents_loop call minimum_msec_since_last_run k now
                  (next_of (ev_addr e) (events s0)) s0 = Returns (s', tick_steps now suf)
                /\ events s' = pre ++ e' :: tick_survivors now suf) as Hstay.
    { intros e' s0 He' Hs0. rewrite Hs0.
      rewrite (next_of_app (ev_addr e) pre e' suf He' Hpre).
      destruct (IH (pre ++ [e']) s0 k) as (s' & HL & Hev); [| |done|lia|].
      - by rewrite <- app_assoc.
      - by apply (NoDup_addr_shift pre e).
      - exists s'. split; [done|]. by rewrite Hev, <- app_assoc. }
    (* freeit *)
    assert (forall e' s0, ev_addr e' = ev_addr e -> events s0 = pre ++ e' :: suf ->
              exists s',
                (let '(q, s'0) := EventDel (ev_addr e) s0 in
                 emit [Deleted (ev_addr e)]
                   (DoEvents_loop call minimum_msec_since_last_run k now q s'0))
                = Returns (s', Deleted (ev_addr e) :: tick_steps now suf)
                /\ events s' = pre ++ tick_survivors now suf) as Hfree.
    { intros e' s0 He' Hs0. rewrite <- He' in Hpre |- *.
      destruct (EventDel_mid s0 pre e' suf Hs0 Hpre) as (s1 & HD & Hev1). rewrite HD.
      destruct (IH pre s1 k) as (s' & HL & Hev); [done| |done|lia|].
      - by apply (NoDup_addr_drop pre e).
      - exists s'. rewrite HL. done. }
    rewrite tick_steps_cons, tick_survivors_cons.
    cbn [DoEvents_loop head fmap option_fmap option_map].
    assert (find_event (ev_addr e) (events s) = Some e) as Hfind.
    { rewrite Hs. by apply find_event_app. }
    rewrite Hfind. unfold tick_event. destruct (ev_count e =? -1) eqn:Hdel.
    + destruct (Hfree e s eq_refl Hs) as (s' & HL & Hev). rewrite HL.
      exists s'. done.
    + destruct (due_check_loop now s pre e suf Hs Hpre) as (s1 & Hdc & Hev1).
      rewrite Hdc.
      pose proof (due_check_addr now e) as Ha.
      destruct (due_check now e) as [due e1]. simpl in Ha, Hev1. simpl fst.
      destruct due.
      * rewrite Hf. destruct (Hcall s1) as (s2 & Hc & Hev2). rewrite Hc. simpl rbind.
        rewrite Hev1 in Hev2.
        assert (find_event (ev_addr e) (events s2) = Some e1) as Hfind2.
        { rewrite Hev2. by apply find_event_app. }
        rewrite Hfind2.
        destruct (0 <? ev_count e1) eqn:Hpos.
        -- destruct (wrap_int (ev_count e1 - 1) =? 0) eqn:Hzero.
           ++ destruct (Hfree (set_count (wrap_int (ev_count e1 - 1)) e1)
                          (set_events
                             (update_event (ev_addr e)
                                (set_count (wrap_int (ev_count e1 - 1))) (events s2)) s2))
                as (s' & HL & Hev); [done| |].
              { simpl. by rewrite Hev2, (update_event_app _ _ pre e1 suf Ha Hpre). }
              rewrite HL. exists s'. done.
           ++ destruct (Hstay (set_count (wrap_int (ev_count e1 - 1)) e1)
                          (set_events
                             (update_event (ev_addr e)
                                (set_count (wrap_int (ev_count e1 - 1))) (events s2)) s2))
                as (s' & HL & Hev); [done| |].
              { simpl. by rewrite Hev2, (update_event_app _ _ pre e1 suf Ha Hpre). }
              simpl in HL. rewrite HL. exists s'. done.
        -- destruct (Hstay e1 s2 Ha Hev2) as (s' & HL & Hev). rewrite HL.
           exists s'. done.
      * destruct (Hstay e1 s1 Ha Hev1) as (s' & HL & Hev). rewrite HL.
        exists s'. done.
Qed.

Lemma sched_ok_tick now l :
  NoDup (ev_addr <$> l) /\ Forall callback_ok l ->
  NoDup (ev_addr <$> tick_survivors now l) /\ Forall callback_ok (tick_survivors now l).
Proof.
  intros [H1 H2]. split; [by apply tick_survivors_NoDup | by apply tick_survivors_callback].
Qed.

(** With well-behaved callbacks a pass returns, given a step budget above
    the length of the list, and it is the event-by-event pass. *)
Lemma DoEvents_spec now s fuel :
  sched_ok s -> (length (events s) < fuel)%nat ->
  exists s',
    DoEvents call minimum_msec_since_last_run fuel now s
      = Returns (s', tick_steps now (events s))
    /\ events s' = tick_survivors now (events s)
    /\ sched_ok s'.
Proof.
  intros [Hnd Hcb] Hfuel.
  destruct (DoEvents_loop_spec now (events s) [] s fuel) as (s' & HL & Hev); try done.
  exists s'. split; [done|]. split; [done|].
  unfold sched_ok, addrs. rewrite Hev. by apply sched_ok_tick.
Qed.

Lemma tick_event_steps now e :
  exists rest, (tick_event now e).1 = Visited (ev_addr e) :: rest
    /\ Forall (fun st => step_addr st = ev_addr e /\ forall p, st <> Visited p) rest.
Proof.
  unfold tick_event. destruct (ev_count e =? -1).
  - eexists; split; [reflexivity|]. by repeat constructor.
  - destruct (due_check now e) as [due e1]. destruct due.
    + destruct (ev_event e); destruct (0 <? ev_count e1);
        try destruct (wrap_int _ =? 0); eexists; (split; [reflexivity|]);
        by repeat constructor.
    + eexists; split; [reflexivity|]. constructor.
Qed.

Lemma visited_app tr1 tr2 : visited (tr1 ++ tr2) = visited tr1 ++ visited tr2.
Proof. unfold visited. apply omap_app. Qed.

Lemma visited_none tr : Forall (fun st => forall p, st <> Visited p) tr -> visited tr = [].
Proof.
  induction 1 as [|st tr Hst _ IH]; [done|].
  unfold visited in *. csimpl. rewrite IH. destruct st; [by destruct (Hst p) | done | done].
Qed.

(** Every event of the list is visited exactly once, in list order. *)
Lemma visited_tick_steps now l : visited (tick_steps now l) = ev_addr <$> l.
Proof.
  induction l as [|e l IH]; [done|].
  rewrite tick_steps_cons, visited_app, IH, fmap_cons.
  destruct (tick_event_steps now e) as (rest & -> & Hrest).
  change (visited (Visited (ev_addr e) :: rest)) with (ev_addr e :: visited rest).
  rewrite visited_none; [done|].
  eapply Forall_impl; [exact Hrest|]. by intros st [_ H].
Qed.

Lemma tick_steps_addr now l st :
  st ∈ tick_steps now l -> step_addr st ∈ ev_addr <$> l.
Proof.
  induction l as [|e l IH]; [intros H; by apply elem_of_nil in H|].
  rewrite tick_steps_cons, fmap_cons. intros H. apply elem_of_app in H as [H|H].
  - destruct (tick_event_steps now e) as (rest & Heq & Hrest). rewrite Heq in H.
    apply elem_of_cons in H as [->|H]; [left|].
    rewrite Forall_forall in Hrest. destruct (Hrest _ H) as [-> _]. left.
  - right. auto.
Qed.

Lemma tick_steps_app now l1 l2 :
  tick_steps now (l1 ++ l2) = tick_steps now l1 ++ tick_steps now l2.
Proof. unfold tick_steps. by rewrite fmap_app, concat_app. Qed.

Lemma tick_survivors_app now l1 l2 :
  tick_survivors now (l1 ++ l2) = tick_survivors now l1 ++ tick_survivors now l2.
Proof. unfold tick_survivors. apply omap_app. Qed.

Lemma update_event_addrs a f l :
  (forall e, ev_addr (f e) = ev_addr e) ->
  ev_addr <$> update_event a f l = ev_addr <$> l.
Proof.
  intros Ha. induction l as [|x l IH]; csimpl; [done|].
  destruct (Pos.eqb _ a); csimpl; by rewrite ?Ha, ?IH.
Qed.

Lemma EventMarkDel_live p s :
  p ∈ addrs s ->
  EventMarkDel p s
  = Returns (p, set_events (update_event p (set_count (-1)) (events s)) s).
Proof.
  intros Hp. unfold EventMarkDel.
  destruct (find_event p (events s)) eqn:Hf; [done|].
  apply find_event_None in Hf. by unfold addrs in Hp.
Qed.

Lemma EventMarkDel_dangling p s : p ∉ addrs s -> EventMarkDel p s = Undefined.
Proof.
  intros Hp. unfold EventMarkDel.
  destruct (find_event p (events s)) as [e|] eqn:Hf; [|done].
  pose proof (find_event_addr _ _ _ Hf) as Ha. apply find_event_elem in Hf.
  exfalso. apply Hp. unfold addrs. rewrite <- Ha. by apply list_elem_of_fmap_2.
Qed.

Lemma sched_ok_update s a f :
  (forall e, ev_addr (f e) = ev_addr e) ->
  (forall e, ev_event (f e) = ev_event e) ->
  (forall e, ev_data (f e) = ev_data e) ->
  sched_ok s -> sched_ok (set_events (update_event a f (events s)) s).
Proof.
  intros Ha Hf Hd [Hnd Hcb]. unfold sched_ok, addrs in *. simpl.
  rewrite (update_event_addrs a f _ Ha). split; [done|].
  clear Hnd. induction Hcb as [|x l Hx Hl IH]; simpl; [constructor|].
  destruct (Pos.eqb _ a); constructor; try done.
  destruct Hx as (g & Hg & Hcall). exists g. by rewrite Hf, Hd.
Qed.

(** C1: for every task list and every task [e] in it, EventMarkDel followed
    by DoEvents removes [e] exactly once (one [Deleted] step for it, and it
    is gone from the list afterwards); the pass visits every task of the
    list exactly once in list order, and the step right after the removal
    is the visit of the task that followed [e], whose address is what
    EventDel returned. *)
Theorem C1_marked_task_removed_once_and_successor_visited
    (s : Sched) (pre suf : list Event) (e : Event) (now : timeval) (fuel : nat) :
  sched_ok s ->
  events s = pre ++ e :: suf ->
  (length (events s) < fuel)%nat ->
  let p := ev_addr e in
  exists s1 s' tr1 tr2,
    EventMarkDel p s = Returns (p, s1)
    /\ DoEvents call minimum_msec_since_last_run fuel now s1
        = Returns (s', tr1 ++ Visited p :: Deleted p :: tr2)
    /\ (Deleted p ∉ tr1) /\ (Deleted p ∉ tr2)
    /\ visited (tr1 ++ Visited p :: Deleted p :: tr2) = ev_addr <$> (pre ++ e :: suf)
    /\ (EventDel p s1).1 = ev_addr <$> head suf
    /\ match suf with
       | [] => tr2 = []
       | q :: _ => exists tr3, tr2 = Visited (ev_addr q) :: tr3
       end
    /\ (p ∉ addrs s').
Proof.
  intros Hok Hs Hfuel p.
  pose proof Hok as [Hnd Hcb]. unfold addrs in Hnd. rewrite Hs in Hnd.
  destruct (NoDup_addr_mid _ _ _ Hnd) as [Hpre Hsuf].
  set (e' := set_count (-1) e).
  set (s1 := set_events (update_event p (set_count (-1)) (events s)) s).
  assert (EventMarkDel p s = Returns (p, s1)) as Hmark.
  { apply EventMarkDel_live. unfold addrs. rewrite Hs, fmap_app, fmap_cons.
    apply elem_of_app. right. left. }
  assert (events s1 = pre ++ e' :: suf) as Hs1.
  { subst s1. simpl. rewrite Hs. by apply update_event_app. }
  assert (sched_ok s1) as Hok1 by (by apply sched_ok_update).
  assert (length (events s1) < fuel)%nat as Hfuel1.
  { rewrite Hs1. rewrite Hs in Hfuel. by rewrite length_app in *. }
  destruct (DoEvents_spec now s1 fuel Hok1 Hfuel1) as (s' & HD & Hev & _).
  rewrite Hs1 in HD, Hev.
  rewrite tick_steps_app, tick_steps_cons in HD.
  rewrite tick_survivors_app, tick_survivors_cons in Hev.
  assert (tick_event now e' = ([Visited p; Deleted p], None)) as Hte by reflexivity.
  rewrite Hte in HD, Hev. simpl in HD, Hev.
  exists s1, s', (tick_steps now pre), (tick_steps now suf).
  split; [exact Hmark|]. split; [exact HD|].
  split. { intros Hin. by apply tick_steps_addr in Hin. }
  split. { intros Hin. by apply tick_steps_addr in Hin. }
  split.
  { change (Visited p :: Deleted p :: tick_steps now suf)
      with ((tick_event now e').1 ++ tick_steps now suf).
    rewrite <- tick_steps_cons, <- tick_steps_app, visited_tick_steps.
    by rewrite !fmap_app, !fmap_cons. }
  split.
  { destruct (EventDel_mid s1 pre e' suf Hs1 Hpre) as (s2 & HE & _).
    change (ev_addr e') with p in HE. by rewrite HE. }
  split.
  { destruct suf as [|q suf']; [done|]. rewrite tick_steps_cons.
    destruct (tick_event_steps now q) as (rest & -> & _). by eexists. }
  unfold addrs. rewrite Hev, fmap_app. intros Hin.
  apply elem_of_app in Hin as [Hin|Hin]; apply tick_survivors_addrs in Hin; done.
Qed.

(** *** Counting firings *)

Lemma fired_count_app p tr1 tr2 :
  fired_count p (tr1 ++ tr2) = (fired_count p tr1 + fired_count p tr2)%nat.
Proof. unfold fired_count. by rewrite List.filter_app, length_app. Qed.

Lemma fired_count_other p tr :
  Forall (fun st => step_addr st <> p) tr -> fired_count p tr = 0%nat.
Proof.
  unfold fired_count. induction 1 as [|st tr Hst _ IH]; [done|]. simpl.
  destruct st as [q|q f d|q]; simpl; try done.
  destruct (Pos.eqb_spec q p); [by simpl in Hst | done].
Qed.

Lemma tick_steps_other now l p :
  p ∉ ev_addr <$> l -> Forall (fun st => step_addr st <> p) (tick_steps now l).
Proof.
  intros Hp. apply Forall_forall. intros st Hst Heq.
  apply tick_steps_addr in Hst. by rewrite Heq in Hst.
Qed.

Lemma EventFind_from_elem l nm q :
  EventFind_from l nm = Returns (Some q) -> q ∈ ev_addr <$> l.
Proof.
  induction l as [|e l IH]; csimpl; [done|].
  destruct (ev_name e) as [n|]; [|done].
  destruct (String.eqb n nm).
  - intros [= <-]. left.
  - intros H. right. auto.
Qed.

Lemma DoEvents_absent now s fuel p :
  sched_ok s -> (length (events s) < fuel)%nat -> p ∉ addrs s ->
  exists s' tr,
    DoEvents call minimum_msec_since_last_run fuel now s = Returns (s', tr)
    /\ sched_ok s' /\ (length (events s') <= length (events s))%nat
    /\ Forall (fun st => step_addr st <> p) tr /\ (p ∉ addrs s').
Proof.
  intros Hok Hfuel Hp.
  destruct (DoEvents_spec now s fuel Hok Hfuel) as (s' & HD & Hev & Hok').
  exists s', (tick_steps now (events s)). split; [done|]. split; [done|].
  split; [rewrite Hev; apply tick_survivors_length|].
  split; [by apply tick_steps_other|].
  unfold addrs. rewrite Hev. intros Hin. by apply tick_survivors_addrs in Hin.
Qed.

Lemma find_event_of_elem (l : list Event) e :
  NoDup (ev_addr <$> l) -> e ∈ l -> find_event (ev_addr e) l = Some e.
Proof.
  intros Hnd Hin. apply list_elem_of_split in Hin as (l1 & l2 & ->).
  destruct (NoDup_addr_mid _ _ _ Hnd) as [H1 _]. by apply find_event_app.
Qed.

Lemma run_ticks_absent nows : forall s fuel p,
  sched_ok s -> (length (events s) < fuel)%nat -> p ∉ addrs s ->
  exists s' trs,
    run_ticks call minimum_msec_since_last_run fuel nows s = Returns (s', trs)
    /\ Forall (Forall (fun st => step_addr st <> p)) trs /\ (p ∉ addrs s').
Proof.
  induction nows as [|now nows IH]; intros s fuel p Hok Hfuel Hp.
  - exists s, []. by repeat split.
  - destruct (DoEvents_absent now s fuel p Hok Hfuel Hp)
      as (s1 & tr & HD & Hok1 & Hlen & Htr & Hp1).
    destruct (IH s1 fuel p Hok1 ltac:(lia) Hp1) as (s2 & trs & HR & Htrs & Hp2).
    exists s2, (tr :: trs). simpl. rewrite HD. simpl. rewrite HR. simpl.
    split; [done|]. split; [by constructor | done].
Qed.

(** What one pass does to an event with [0 < count], by whether it is due. *)
Lemma tick_event_counted_due now e n :
  callback_ok e -> ev_count e = n -> 0 < n <= INT_MAX ->
  let p := ev_addr e in
  let dc := due_check now e in
  let r := tick_event now e in
  fired_count p r.1 = (if dc.1 then 1 else 0)%nat
  /\ r.2 = (if dc.1 then (if n =? 1 then None else Some (set_count (n - 1) dc.2))
            else Some dc.2)
  /\ (Deleted p ∈ r.1 <-> dc.1 = true /\ n = 1).
Proof.
  intros (f & Hf & _) Hn Hrange p dc r. subst dc r. unfold tick_event.
  destruct (Z.eqb_spec (ev_count e) (-1)) as [|_]; [lia|].
  pose proof (due_check_count now e) as Hc.
  destruct (due_check now e) as [due e1]. simpl in Hc. simpl fst. simpl snd.
  destruct due.
  - rewrite Hf. destruct (Z.ltb_spec 0 (ev_count e1)) as [_|]; [|lia].
    assert (wrap_int (ev_count e1 - 1) = n - 1) as ->.
    { unfold wrap_int, INT_MAX in *. rewrite Hc, Hn. rewrite Z.mod_small; lia. }
    fold p.
    destruct (Z.eqb_spec (n - 1) 0), (Z.eqb_spec n 1); try lia; simpl.
    + split; [unfold fired_count; simpl; by rewrite Pos.eqb_refl|]. split; [done|].
      split; [done|]. intros _. right. right. left.
    + split; [unfold fired_count; simpl; by rewrite Pos.eqb_refl|]. split; [done|].
      split; [|by intros [_ ?]]. intros H.
      apply elem_of_cons in H as [H|H]; [done|].
      apply elem_of_cons in H as [H|H]; [done|]. by apply elem_of_nil in H.
  - fold p. split; [done|]. split; [done|]. split; [|by intros [? _]].
    intros H. apply elem_of_cons in H as [H|H]; [done|]. by apply elem_of_nil in H.
Qed.

(** One pass over a list that holds a counted task. *)
Lemma DoEvents_counted now s fuel e n :
  sched_ok s -> (length (events s) < fuel)%nat ->
  e ∈ events s -> ev_count e = n -> 0 < n <= INT_MAX ->
  let p := ev_addr e in
  let dc := due_check now e in
  exists s' tr,
    DoEvents call minimum_msec_since_last_run fuel now s = Returns (s', tr)
    /\ sched_ok s' /\ (length (events s') <= length (events s))%nat
    /\ fired_count p tr = (if dc.1 then 1 else 0)%nat
    /\ (Deleted p ∈ tr <-> dc.1 = true /\ n = 1)
    /\ (if dc.1 && (n =? 1) then p ∉ addrs s'
        else find_event p (events s')
             = Some (if dc.1 then set_count (n - 1) dc.2 else dc.2)).
Proof.
  intros Hok Hfuel Hin Hn Hrange p dc.
  destruct (DoEvents_spec now s fuel Hok Hfuel) as (s' & HD & Hev & Hok').
  exists s', (tick_steps now (events s)). split; [done|]. split; [done|].
  split; [rewrite Hev; apply tick_survivors_length|].
  destruct Hok as [Hnd Hcb]. unfold addrs in *.
  apply list_elem_of_split in Hin as (pre & suf & Hs).
  rewrite Hs in Hnd. destruct (NoDup_addr_mid _ _ _ Hnd) as [Hpre Hsuf].
  fold p in Hpre, Hsuf.
  rewrite Hs in Hcb. apply Forall_app in Hcb as [_ Hcb].
  apply Forall_cons in Hcb as [Hcbe _].
  rewrite Hev, Hs, tick_steps_app, tick_steps_cons, tick_survivors_app, tick_survivors_cons.
  rewrite !fired_count_app.
  rewrite (fired_count_other p (tick_steps now pre)) by (by apply tick_steps_other).
  rewrite (fired_count_other p (tick_steps now suf)) by (by apply tick_steps_other).
  rewrite Nat.add_0_l, Nat.add_0_r.
  assert (p ∉ ev_addr <$> tick_survivors now pre) as Hpre'.
  { intros H. by apply tick_survivors_addrs in H. }
  assert (p ∉ ev_addr <$> tick_survivors now suf) as Hsuf'.
  { intros H. by apply tick_survivors_addrs in H. }
  destruct (tick_event_counted_due now e n Hcbe Hn Hrange) as (Hfc & Hres & Hdel).
  fold p dc in Hfc, Hres, Hdel.
  split; [exact Hfc|]. split.
  { rewrite <- Hdel. rewrite !elem_of_app. split; [|by intros H; right; left].
    intros [H|[H|H]]; [|done|]; apply tick_steps_addr in H; done. }
  rewrite Hres. destruct (dc.1); simpl; [destruct (n =? 1); simpl|].
  - rewrite fmap_app. intros H. by apply elem_of_app in H as [H|H].
  - apply find_event_app; [|done]. simpl. apply due_check_addr.
  - apply find_event_app; [|done]. apply due_check_addr.
Qed.

Lemma due_check_set_count now c e :
  due_check now (set_count c e) = ((due_check now e).1, set_count c (due_check now e).2).
Proof.
  unfold due_check. simpl. destruct (ev_every_msec e =? 0); [done|].
  by destruct (minimum_msec_since_last_run _ _ _).
Qed.

Lemma due_passes_set_count nows : forall c e,
  due_passes nows (set_count c e) = due_passes nows e.
Proof.
  induction nows as [|now nows IH]; intros c e; [done|]. simpl.
  rewrite due_check_set_count. destruct (due_check now e) as [due e1]. simpl.
  by rewrite IH.
Qed.

Lemma run_ticks_sched_ok nows : forall s fuel s' trs,
  sched_ok s -> (length (events s) < fuel)%nat ->
  run_ticks call minimum_msec_since_last_run fuel nows s = Returns (s', trs) ->
  sched_ok s' /\ (length (events s') <= length (events s))%nat.
Proof.
  induction nows as [|n ns IH]; intros s fuel s' trs Hok Hfuel HR.
  - simpl in HR. injection HR as <- <-. by split.
  - simpl in HR.
    destruct (DoEvents_spec n s fuel Hok Hfuel) as (sx & HDx & Hevx & Hokx).
    rewrite HDx in HR. simpl in HR.
    destruct (run_ticks _ _ fuel ns sx) as [[sy ty]| |] eqn:HRx; try done.
    simpl in HR. injection HR as <- <-.
    pose proof (tick_survivors_length n (events s)) as Hl. rewrite <- Hevx in Hl.
    destruct (IH sx fuel sy ty Hokx ltac:(lia) HRx) as [H1 H2].
    split; [done | lia].
Qed.

Lemma concat_other p (trs : list (list Step)) :
  Forall (Forall (fun st => step_addr st <> p)) trs ->
  Forall (fun st => step_addr st <> p) (concat trs).
Proof.
  induction 1 as [|t ts Ht _ IH]; simpl; [constructor|]. by apply Forall_app.
Qed.

Lemma not_deleted_other p tr :
  Forall (fun st => step_addr st <> p) tr -> Deleted p ∉ tr.
Proof.
  intros H Hin. rewrite Forall_forall in H. by apply (H _ Hin).
Qed.

(** C7: a task with [count = N > 0] fires at each pass at which it is due
    (its interval is 0, or has elapsed since its last run), at most once a
    pass, until it has fired N times; each firing takes one from its
    count.  While it has fired fewer than N times it is in the list with
    the remaining count and no pass has removed it; the pass of its N-th
    firing removes it, and from then on it is not in the list, EventFind
    never returns it, and no later pass visits, fires or deletes it. *)
Theorem C7_counted_task_removed_after_N_firings
    (nows : list timeval) :
  forall (s : Sched) (e : Event) (N : Z) (fuel : nat),
  sched_ok s ->
  e ∈ events s ->
  ev_count e = N -> 0 < N <= INT_MAX ->
  (length (events s) < fuel)%nat ->
  let p := ev_addr e in
  exists s' trs,
    run_ticks call minimum_msec_since_last_run fuel nows s = Returns (s', trs)
    /\ let k := Z.of_nat (fired_count p (concat trs)) in
       k = Z.min N (Z.of_nat (due_passes nows e))
       /\ Forall (fun tr => (fired_count p tr <= 1)%nat) trs
       /\ k <= N
       /\ (k < N ->
             (exists e', find_event p (events s') = Some e' /\ ev_count e' = N - k)
             /\ (Deleted p ∉ concat trs))
       /\ (k = N ->
             (Deleted p ∈ concat trs)
             /\ (p ∉ addrs s')
             /\ (forall name, EventFind name s' <> Returns (Some p))
             /\ forall nows2, exists s'' trs2,
                  run_ticks call minimum_msec_since_last_run fuel nows2 s' = Returns (s'', trs2)
                  /\ Forall (Forall (fun st => step_addr st <> p)) trs2
                  /\ (p ∉ addrs s'')).
Proof.
  induction nows as [|now nows IH]; intros s e N fuel Hok Hin HN Hrange Hfuel p.
  - exists s, []. split; [done|]. simpl.
    change (fired_count p []) with 0%nat.
    split; [lia|]. split; [constructor|]. split; [lia|]. split; [|lia].
    intros _. split; [|apply not_elem_of_nil].
    exists e. rewrite Z.sub_0_r. split; [|done].
    apply find_event_of_elem; [apply Hok | done].
  - destruct (DoEvents_counted now s fuel e N Hok Hfuel Hin HN Hrange)
      as (s1 & tr & HD & Hok1 & Hlen & Hfc & Hdel & Hafter).
    fold p in Hfc, Hdel, Hafter.
    pose proof (due_check_addr now e) as Ha1. fold p in Ha1.
    pose proof (due_check_count now e) as Hc1.
    simpl due_passes. destruct (due_check now e) as [due e1].
    simpl in Hfc, Hdel, Hafter, Ha1, Hc1.
    (* what the rest of the run gives when the task is still there *)
    assert (forall e2 c,
              find_event p (events s1) = Some e2 -> ev_addr e2 = p -> ev_count e2 = c ->
              c = N - Z.of_nat (fired_count p tr) -> 0 < c ->
              (fired_count p tr <= 1)%nat -> Deleted p ∉ tr ->
              due_passes nows e2 = due_passes nows e1 ->
              (if due then 1 else 0)%nat = fired_count p tr ->
              exists s' trs,
                run_ticks call minimum_msec_since_last_run fuel (now :: nows) s
                  = Returns (s', trs)
                /\ let k := Z.of_nat (fired_count p (concat trs)) in
                   k = Z.min N (Z.of_nat ((if due then 1 else 0) + due_passes nows e1))
                   /\ Forall (fun tr => (fired_count p tr <= 1)%nat) trs
                   /\ k <= N
                   /\ (k < N ->
                         (exists e', find_event p (events s') = Some e'
                                     /\ ev_count e' = N - k)
                         /\ (Deleted p ∉ concat trs))
                   /\ (k = N ->
                         (Deleted p ∈ concat trs)
                         /\ (p ∉ addrs s')
                         /\ (forall name, EventFind name s' <> Returns (Some p))
                         /\ forall nows2, exists s'' trs2,
                              run_ticks call minimum_msec_since_last_run fuel nows2 s'
                                = Returns (s'', trs2)
                              /\ Forall (Forall (fun st => step_addr st <> p)) trs2
                              /\ (p ∉ addrs s''))) as Hgo.
    { intros e2 c Hf2 Ha2 Hc2 Hc Hpos Hone Hnodel Hdp Hdue.
      destruct (IH s1 e2 c fuel Hok1) as (s2 & trs & HR & Hk & Hones & Hle & Hlt & Heq);
        [by eapply find_event_elem | done | unfold INT_MAX in *; lia | lia |].
      rewrite Ha2 in Hk, Hones, Hle, Hlt, Heq. rewrite Hdp in Hk.
      exists s2, (tr :: trs). simpl run_ticks. rewrite HD. simpl. rewrite HR. simpl.
      split; [done|]. rewrite fired_count_app, Nat2Z.inj_add.
      split; [rewrite <- Hdue in *; lia|]. split; [by constructor|].
      split; [lia|]. split.
      - intros Hk'. destruct Hlt as [(e'' & He'' & Hc'') Hnd]; [lia|]. split.
        + exists e''. split; [done|]. lia.
        + intros H. apply elem_of_app in H as [H|H]; done.
      - intros Hk'. destruct Heq as (Hd & Hrest); [lia|].
        split; [apply elem_of_app; by right | exact Hrest]. }
    destruct due; [destruct (Z.eqb_spec N 1) as [HN1|HN1]|]; simpl in Hafter.
    + (* the last firing: the pass removes the task *)
      destruct (run_ticks_absent nows s1 fuel p Hok1 ltac:(lia) Hafter)
        as (s2 & trs & HR & Htrs & Hp2).
      exists s2, (tr :: trs). simpl run_ticks. rewrite HD. simpl. rewrite HR. simpl.
      split; [done|]. rewrite fired_count_app, Nat2Z.inj_add, Hfc.
      rewrite (fired_count_other p (concat trs)) by (by apply concat_other).
      split; [lia|]. split.
      { constructor; [lia|]. eapply Forall_impl; [exact Htrs|].
        intros t Ht. simpl. rewrite (fired_count_other p t Ht). lia. }
      split; [lia|]. split; [lia|]. intros _.
      split; [apply elem_of_app; left; by apply Hdel|].
      split; [done|]. split.
      * intros name Hname. apply EventFind_from_elem in Hname. done.
      * intros nows2.
        destruct (run_ticks_sched_ok nows s1 fuel s2 trs Hok1 ltac:(lia) HR) as [Hok2 Hlen2].
        apply run_ticks_absent; [done | lia | done].
    + (* a firing that leaves a positive count *)
      apply (Hgo (set_count (N - 1) e1) (N - 1)); try done; rewrite ?Hfc; try lia.
      * by intros [_ ?]%Hdel.
      * apply due_passes_set_count.
    + (* not due: nothing happens to the task *)
      apply (Hgo e1 N); try done; rewrite ?Hfc; try lia.
      by intros [? _]%Hdel.
Qed.

Lemma EventAdd_success p now module name event data every_msec count s p1 s1 :
  EventAdd p now module name event data every_msec count s = (Some p1, s1) ->
  exists nm f,
    name = Some nm /\ event = Some f /\ 0 <= every_msec /\ 0 <= count /\ p1 = p
    /\ events s1 =
         mk_Event p (Some nm) count (Z.max 100 every_msec) (Some f) data now module
         :: events s.
Proof.
  unfold EventAdd. destruct name as [nm|], event as [f|]; try done.
  destruct (Z.ltb_spec every_msec 0); [done|].
  destruct (Z.ltb_spec count 0); [done|]. simpl.
  destruct (Z.ltb_spec every_msec 100); intros [= <- <-]; exists nm, f;
    (repeat split; try done); destruct module; simpl; do 2 f_equal; lia.
Qed.

Lemma tick_event_zero_interval now e :
  callback_ok e -> ev_every_msec e = 0 -> ev_count e <> -1 ->
  fired_count (ev_addr e) (tick_event now e).1 = 1%nat.
Proof.
  intros (f & Hf & _) Hz Hc. unfold tick_event, due_check.
  destruct (Z.eqb_spec (ev_count e) (-1)); [done|].
  rewrite Hz. simpl. rewrite Hf.
  destruct (0 <? ev_count e); [destruct (wrap_int _ =? 0)|];
    unfold fired_count; simpl; by rewrite Pos.eqb_refl.
Qed.

(** A stored interval of 0 at one event of a pass. *)
Lemma zero_interval_fires (s : Sched) (e : Event) (now : timeval) (fuel : nat) :
  sched_ok s -> e ∈ events s -> ev_every_msec e = 0 -> ev_count e <> -1 ->
  (length (events s) < fuel)%nat ->
  exists s' tr,
    DoEvents call minimum_msec_since_last_run fuel now s = Returns (s', tr)
    /\ fired_count (ev_addr e) tr = 1%nat.
Proof.
  intros Hok Hin Hz Hc Hfuel.
  destruct (DoEvents_spec now s fuel Hok Hfuel) as (s' & HD & _).
  exists s', (tick_steps now (events s)). split; [done|].
  destruct Hok as [Hnd Hcb]. unfold addrs in Hnd.
  apply list_elem_of_split in Hin as (l1 & l2 & Hs). rewrite Hs in *.
  destruct (NoDup_addr_mid _ _ _ Hnd) as [H1 H2].
  apply Forall_app in Hcb as [_ Hcb]. apply Forall_cons in Hcb as [Hcbe _].
  rewrite tick_steps_app, tick_steps_cons, !fired_count_app.
  rewrite (fired_count_other _ (tick_steps now l1)) by (by apply tick_steps_other).
  rewrite (fired_count_other _ (tick_steps now l2)) by (by apply tick_steps_other).
  by rewrite tick_event_zero_interval.
Qed.

(** *** Tasks that are not counted down, and what a pass never does *)

Lemma due_check_every now e : ev_every_msec (due_check now e).2 = ev_every_msec e.
Proof.
  unfold due_check. destruct (ev_every_msec e =? 0); [done|].
  by destruct (minimum_msec_since_last_run _ _ _).
Qed.

(** A pass stores into [last_run] and [count] only. *)
Lemma tick_event_every now e e' :
  (tick_event now e).2 = Some e' -> ev_every_msec e' = ev_every_msec e.
Proof.
  unfold tick_event. destruct (ev_count e =? -1); [done|].
  pose proof (due_check_every now e) as He.
  destruct (due_check now e) as [due e1]. simpl in He.
  destruct due; [destruct (0 <? ev_count e1); [destruct (wrap_int _ =? 0)|]|];
    simpl; intros [= <-]; done.
Qed.

Lemma DoEvents_no_zero_interval now s fuel :
  sched_ok s -> (length (events s) < fuel)%nat -> no_zero_interval s ->
  exists s' tr,
    DoEvents call minimum_msec_since_last_run fuel now s = Returns (s', tr)
    /\ no_zero_interval s'.
Proof.
  intros Hok Hfuel Hnz.
  destruct (DoEvents_spec now s fuel Hok Hfuel) as (s' & HD & Hev & _).
  exists s', (tick_steps now (events s)). split; [done|].
  unfold no_zero_interval in *. rewrite Hev. clear -Hnz.
  induction Hnz as [|e l He _ IH]; [constructor|].
  rewrite tick_survivors_cons. destruct (tick_event now e).2 as [e'|] eqn:Hte; [|done].
  constructor; [|done]. by rewrite (tick_event_every now e e' Hte).
Qed.

Lemma due_check_owner now e : ev_owner (due_check now e).2 = ev_owner e.
Proof.
  unfold due_check. destruct (ev_every_msec e =? 0); [done|].
  by destruct (minimum_msec_since_last_run _ _ _).
Qed.

Lemma due_check_same_task now e : same_task e (due_check now e).2.
Proof.
  unfold same_task.
  rewrite due_check_addr, due_check_name, due_check_count, due_check_every,
    due_check_event, due_check_data, due_check_owner. done.
Qed.

Lemma same_task_trans e1 e2 e3 : same_task e1 e2 -> same_task e2 e3 -> same_task e1 e3.
Proof. unfold same_task. intros H1 H2. intuition congruence. Qed.

(** A task whose count is neither positive nor the removal mark stays in
    the list, whether it fires or not. *)
Lemma tick_event_uncounted now e :
  ev_count e <= 0 -> ev_count e <> -1 ->
  (tick_event now e).2 = Some (due_check now e).2
  /\ (Deleted (ev_addr e) ∉ (tick_event now e).1).
Proof.
  intros Hle Hne. unfold tick_event.
  destruct (Z.eqb_spec (ev_count e) (-1)); [done|].
  pose proof (due_check_count now e) as Hc.
  destruct (due_check now e) as [due e1]; simpl in *.
  destruct due.
  - destruct (Z.ltb_spec 0 (ev_count e1)); [lia|]. split; [done|].
    destruct (ev_event e); intros Hin;
      repeat (apply elem_of_cons in Hin as [Hin|Hin]; [discriminate Hin|]);
      by apply elem_of_nil in Hin.
  - split; [done|]. intros Hin.
    apply elem_of_cons in Hin as [Hin|Hin]; [discriminate Hin | by apply elem_of_nil in Hin].
Qed.

Lemma DoEvents_uncounted now s fuel e :
  sched_ok s -> (length (events s) < fuel)%nat -> e ∈ events s ->
  ev_count e <= 0 -> ev_count e <> -1 ->
  exists s' tr,
    DoEvents call minimum_msec_since_last_run fuel now s = Returns (s', tr)
    /\ sched_ok s' /\ (length (events s') <= length (events s))%nat
    /\ (Deleted (ev_addr e) ∉ tr)
    /\ ((due_check now e).2 ∈ events s').
Proof.
  intros Hok Hfuel Hin Hle Hne.
  destruct (DoEvents_spec now s fuel Hok Hfuel) as (s' & HD & Hev & Hok').
  exists s', (tick_steps now (events s)). split; [done|]. split; [done|].
  split; [rewrite Hev; apply tick_survivors_length|].
  destruct Hok as [Hnd _]. unfold addrs in Hnd.
  apply list_elem_of_split in Hin as (pre & suf & Hs). rewrite Hs in Hnd.
  destruct (NoDup_addr_mid _ _ _ Hnd) as [Hpre Hsuf].
  destruct (tick_event_uncounted now e Hle Hne) as [Hstay Hnodel].
  rewrite Hev, Hs, tick_steps_app, tick_steps_cons, tick_survivors_app, tick_survivors_cons.
  rewrite Hstay. split.
  - intros H. apply elem_of_app in H as [H|H]; [|apply elem_of_app in H as [H|H]].
    + by apply tick_steps_addr in H.
    + done.
    + by apply tick_steps_addr in H.
  - apply elem_of_app. right. left.
Qed.

(** A task whose count is 0 ("infinite times"), or any other value that
    is neither positive nor the removal mark -1, is never removed by
    DoEvents: after any number of passes it is still in the list, with the
    name, count, interval, callback, data and owner it had. *)
Theorem uncounted_task_is_never_removed
    (nows : list timeval) :
  forall (s : Sched) (e : Event) (fuel : nat),
  sched_ok s ->
  e ∈ events s ->
  ev_count e <= 0 -> ev_count e <> -1 ->
  (length (events s) < fuel)%nat ->
  exists s' trs,
    run_ticks call minimum_msec_since_last_run fuel nows s = Returns (s', trs)
    /\ Forall (fun tr => Deleted (ev_addr e) ∉ tr) trs
    /\ exists e', find_event (ev_addr e) (events s') = Some e' /\ same_task e e'.
Proof.
  induction nows as [|now nows IH]; intros s e fuel Hok Hin Hle Hne Hfuel.
  - exists s, []. split; [done|]. split; [constructor|]. exists e. split.
    + apply find_event_of_elem; [apply Hok | done].
    + by unfold same_task.
  - destruct (DoEvents_uncounted now s fuel e Hok Hfuel Hin Hle Hne)
      as (s1 & tr & HD & Hok1 & Hlen & Hnd & Hin1).
    pose proof (due_check_same_task now e) as Hsame.
    destruct (IH s1 (due_check now e).2 fuel Hok1 Hin1) as (s2 & trs & HR & Htrs & e' & He' & Hs');
      [rewrite due_check_count; lia | by rewrite due_check_count | lia |].
    rewrite due_check_addr in Htrs, He'.
    exists s2, (tr :: trs). simpl run_ticks. rewrite HD. simpl. rewrite HR. simpl.
    split; [done|]. split; [by constructor|]. exists e'. split; [done|].
    by eapply same_task_trans.
Qed.

(** *** What one pass does at most *)

Lemma fired_count_tick_event now e p : (fired_count p (tick_event now e).1 <= 1)%nat.
Proof.
  unfold tick_event, fired_count. destruct (ev_count e =? -1); [simpl; lia|].
  destruct (due_check now e) as [due e1]. destruct due; [|simpl; lia].
  destruct (ev_event e); destruct (0 <? ev_count e1); try destruct (wrap_int _ =? 0);
    simpl; try destruct (Pos.eqb _ p); simpl; lia.
Qed.

Lemma fired_count_tick_steps now l p :
  NoDup (ev_addr <$> l) -> (fired_count p (tick_steps now l) <= 1)%nat.
Proof.
  induction l as [|e l IH]; [unfold fired_count; simpl; lia|].
  rewrite fmap_cons, NoDup_cons. intros [Hn Hd].
  rewrite tick_steps_cons, fired_count_app.
  destruct (decide (ev_addr e = p)) as [<-|Hne].
  - rewrite (fired_count_other _ (tick_steps now l)) by (by apply tick_steps_other).
    pose proof (fired_count_tick_event now e (ev_addr e)). lia.
  - assert (fired_count p (tick_event now e).1 = 0%nat) as ->.
    { apply fired_count_other.
      assert ((tick_event now e).1 = tick_steps now [e]) as ->
        by (unfold tick_steps; simpl; by rewrite app_nil_r).
      apply tick_steps_other. simpl. intros H.
      apply elem_of_cons in H as [H|H]; [done | by apply elem_of_nil in H]. }
    specialize (IH Hd). lia.
Qed.

Lemma tick_survivors_sublist now l :
  ev_addr <$> tick_survivors now l `sublist_of` ev_addr <$> l.
Proof.
  induction l as [|e l IH]; [done|]. rewrite tick_survivors_cons, fmap_cons.
  destruct (tick_event now e).2 as [e'|] eqn:He.
  - rewrite fmap_cons, (tick_event_addr now e e' He). by apply sublist_skip.
  - by apply sublist_cons.
Qed.

(** One pass of DoEvents over a list with distinct addresses and
    callbacks that leave the list alone returns; it visits every task once,
    in list order, calls no callback more than once, calls none for a task
    that is not in the list, and the list it leaves is the old one with
    some tasks taken out: nothing is added and the order is kept. *)
Theorem DoEvents_pass_fires_each_task_at_most_once
    (s : Sched) (now : timeval) (fuel : nat) :
  sched_ok s ->
  (length (events s) < fuel)%nat ->
  exists s' tr,
    DoEvents call minimum_msec_since_last_run fuel now s = Returns (s', tr)
    /\ visited tr = addrs s
    /\ (forall p, (fired_count p tr <= 1)%nat)
    /\ (forall p, p ∉ addrs s -> fired_count p tr = 0%nat)
    /\ addrs s' `sublist_of` addrs s
    /\ NoDup (addrs s').
Proof.
  intros Hok Hfuel.
  destruct (DoEvents_spec now s fuel Hok Hfuel) as (s' & HD & Hev & Hok').
  exists s', (tick_steps now (events s)). split; [done|].
  split; [apply visited_tick_steps|].
  split; [intros p; apply fired_count_tick_steps, Hok|].
  split; [intros p Hp; by apply fired_count_other, tick_steps_other|].
  split; [unfold addrs; rewrite Hev; apply tick_survivors_sublist | apply Hok'].
Qed.

(** A task marked with EventMarkDel is taken out by the next pass
    without its callback being called, even when it is due; and the list
    that pass leaves is the list a pass leaves after an immediate
    EventDel. *)
Theorem marked_task_is_removed_without_firing
    (s : Sched) (e : Event) (now : timeval) (fuel : nat) :
  sched_ok s ->
  e ∈ events s ->
  (length (events s) < fuel)%nat ->
  let p := ev_addr e in
  exists s1 s' tr s'' tr'',
    EventMarkDel p s = Returns (p, s1)
    /\ DoEvents call minimum_msec_since_last_run fuel now s1 = Returns (s', tr)
    /\ fired_count p tr = 0%nat
    /\ (Deleted p ∈ tr)
    /\ (p ∉ addrs s')
    /\ DoEvents call minimum_msec_since_last_run fuel now (EventDel p s).2 = Returns (s'', tr'')
    /\ events s' = events s''.
Proof.
  intros Hok Hin Hfuel p.
  pose proof Hok as [Hnd Hcb]. unfold addrs in Hnd.
  apply list_elem_of_split in Hin as (pre & suf & Hs). rewrite Hs in Hnd, Hcb.
  destruct (NoDup_addr_mid _ _ _ Hnd) as [Hpre Hsuf].
  set (e' := set_count (-1) e).
  set (s1 := set_events (update_event p (set_count (-1)) (events s)) s).
  assert (EventMarkDel p s = Returns (p, s1)) as Hmark.
  { apply EventMarkDel_live. unfold addrs. rewrite Hs, fmap_app, fmap_cons.
    apply elem_of_app. right. left. }
  assert (events s1 = pre ++ e' :: suf) as Hs1.
  { subst s1. simpl. rewrite Hs. by apply update_event_app. }
  assert (sched_ok s1) as Hok1 by (by apply sched_ok_update).
  assert (length (events s1) < fuel)%nat as Hfuel1.
  { rewrite Hs1. rewrite Hs in Hfuel. by rewrite length_app in *. }
  destruct (DoEvents_spec now s1 fuel Hok1 Hfuel1) as (s' & HD & Hev & _).
  rewrite Hs1 in HD, Hev.
  rewrite tick_steps_app, tick_steps_cons in HD.
  rewrite tick_survivors_app, tick_survivors_cons in Hev.
  assert (tick_event now e' = ([Visited p; Deleted p], None)) as Hte by reflexivity.
  rewrite Hte in HD, Hev. simpl in HD, Hev.
  destruct (EventDel_mid s pre e suf Hs Hpre) as (s2 & HE & Hs2).
  fold p in HE.
  assert (sched_ok s2) as Hok2.
  { split; unfold addrs; rewrite Hs2; [by apply (NoDup_addr_drop pre e)|].
    apply Forall_app in Hcb as [Hcb1 Hcb2]. apply Forall_cons in Hcb2 as [_ Hcb2].
    by apply Forall_app. }
  assert (length (events s2) < fuel)%nat as Hfuel2.
  { rewrite Hs2. rewrite Hs in Hfuel. rewrite length_app in *. simpl in Hfuel. lia. }
  destruct (DoEvents_spec now s2 fuel Hok2 Hfuel2) as (s'' & HD2 & Hev2 & _).
  exists s1, s', (tick_steps now pre ++ Visited p :: Deleted p :: tick_steps now suf),
    s'', (tick_steps now (events s2)).
  split; [exact Hmark|]. split; [exact HD|]. split.
  { rewrite fired_count_app.
    rewrite (fired_count_other p (tick_steps now pre)) by (by apply tick_steps_other).
    change (Visited p :: Deleted p :: tick_steps now suf)
      with ([Visited p; Deleted p] ++ tick_steps now suf).
    rewrite fired_count_app.
    by rewrite (fired_count_other p (tick_steps now suf)) by (by apply tick_steps_other). }
  split. { apply elem_of_app. right. right. left. }
  split.
  { unfold addrs. rewrite Hev, fmap_app. intros H.
    apply elem_of_app in H as [H|H]; apply tick_survivors_addrs in H; done. }
  split; [by rewrite HE|].
  by rewrite Hev, Hev2, Hs2, tick_survivors_app.
Qed.

(** *** A list of tasks that are all uncounted *)

Lemma tick_survivors_all_uncounted now l :
  Forall (fun e => ev_count e <= 0 /\ ev_count e <> -1) l ->
  ev_addr <$> tick_survivors now l = ev_addr <$> l
  /\ Forall (fun e => ev_count e <= 0 /\ ev_count e <> -1) (tick_survivors now l).
Proof.
  induction 1 as [|e l [Hle Hne] _ [IH1 IH2]]; [done|].
  rewrite tick_survivors_cons.
  rewrite (proj1 (tick_event_uncounted now e Hle Hne)).
  rewrite !fmap_cons, due_check_addr, IH1. split; [done|].
  constructor; [by rewrite due_check_count | done].
Qed.

Lemma run_ticks_all_uncounted nows : forall s fuel,
  sched_ok s -> (length (events s) < fuel)%nat ->
  Forall (fun e => ev_count e <= 0 /\ ev_count e <> -1) (events s) ->
  exists s' trs,
    run_ticks call minimum_msec_since_last_run fuel nows s = Returns (s', trs)
    /\ addrs s' = addrs s.
Proof.
  induction nows as [|now nows IH]; intros s fuel Hok Hfuel Hall.
  - by exists s, [].
  - destruct (DoEvents_spec now s fuel Hok Hfuel) as (s1 & HD & Hev & Hok1).
    destruct (tick_survivors_all_uncounted now (events s) Hall) as [Ha Hall1].
    rewrite <- Hev in Ha, Hall1.
    destruct (IH s1 fuel Hok1) as (s2 & trs & HR & Ha2).
    + pose proof (tick_survivors_length now (events s)). rewrite Hev. lia.
    + done.
    + exists s2, (tick_steps now (events s) :: trs). simpl run_ticks.
      rewrite HD. simpl. rewrite HR. simpl. split; [done|].
      unfold addrs in *. by rewrite Ha2, Ha.
Qed.

(** *** A pass up to a given task *)

Lemma emit_app {S} (a b : list Step) (r : result (S * list Step)) :
  emit a (emit b r) = emit (a ++ b) r.
Proof. destruct r as [[s tr]| |]; simpl; [by rewrite app_assoc | done | done]. Qed.

Lemma emit_nil {S} (r : result (S * list Step)) : emit [] r = r.
Proof. by destruct r as [[s tr]| |]. Qed.

(** The pass over the tasks [mid], with whatever follows them left to the
    rest of the loop. *)
Lemma DoEvents_loop_prefix now mid : forall pre rest s fuel,
  events s = pre ++ mid ++ rest ->
  NoDup (ev_addr <$> (pre ++ mid ++ rest)) ->
  Forall (fun e => ev_count e = -1 \/ callback_ok e) mid ->
  (length mid < fuel)%nat ->
  exists s1,
    events s1 = pre ++ tick_survivors now mid ++ rest
    /\ DoEvents_loop call minimum_msec_since_last_run fuel now
         (ev_addr <$> head (mid ++ rest)) s
       = emit (tick_steps now mid)
           (DoEvents_loop call minimum_msec_since_last_run (fuel - length mid) now
              (ev_addr <$> head rest) s1).
Proof.
  induction mid as [|e mid IH]; intros pre rest s fuel Hs Hnd Hcb Hfuel.
  - exists s. split; [done|]. simpl. by rewrite emit_nil, Nat.sub_0_r.
  - destruct fuel as [|k]; [simpl in Hfuel; lia|]. simpl in Hfuel.
    change ((e :: mid) ++ rest) with (e :: mid ++ rest) in *.
    destruct (NoDup_addr_mid _ _ _ Hnd) as [Hpre Hsuf].
    apply Forall_cons in Hcb as [Hcbe Hcb].
    assert (forall e' s0, ev_addr e' = ev_addr e -> events s0 = pre ++ e' :: mid ++ rest ->
              exists s1,
                events s1 = pre ++ e' :: tick_survivors now mid ++ rest
                /\ DoEvents_loop call minimum_msec_since_last_run k now
                     (next_of (ev_addr e) (events s0)) s0
                   = emit (tick_steps now mid)
                       (DoEvents_loop call minimum_msec_since_last_run (k - length mid) now
                          (ev_addr <$> head rest) s1)) as Hstay.
    { intros e' s0 He' Hs0. rewrite Hs0.
      rewrite (next_of_app (ev_addr e) pre e' (mid ++ rest) He' Hpre).
      destruct (IH (pre ++ [e']) rest s0 k) as (s1 & Hev & HL); [| |done|lia|].
      - by rewrite <- app_assoc.
      - by apply (NoDup_addr_shift pre e).
      - exists s1. split; [by rewrite Hev, <- app_assoc | done]. }
    assert (forall e' s0, ev_addr e' = ev_addr e -> events s0 = pre ++ e' :: mid ++ rest ->
              exists s1,
                events s1 = pre ++ tick_survivors now mid ++ rest
                /\ (let '(q, s'0) := EventDel (ev_addr e) s0 in
                    emit [Deleted (ev_addr e)]
                      (DoEvents_loop call minimum_msec_since_last_run k now q s'0))
                   = emit (Deleted (ev_addr e) :: tick_steps now mid)
                       (DoEvents_loop call minimum_msec_since_last_run (k - length mid) now
                          (ev_addr <$> head rest) s1)) as Hfree.
    { intros e' s0 He' Hs0. rewrite <- He' in Hpre |- *.
      destruct (EventDel_mid s0 pre e' (mid ++ rest) Hs0 Hpre) as (s1 & HD & Hev1).
      rewrite HD.
      destruct (IH pre rest s1 k) as (s2 & Hev & HL); [done| |done|lia|].
      - by apply (NoDup_addr_drop pre e).
      - exists s2. split; [done|]. rewrite HL. by rewrite emit_app. }
    rewrite tick_steps_cons, tick_survivors_cons.
    cbn [DoEvents_loop head fmap option_fmap option_map length Nat.sub].
    assert (find_event (ev_addr e) (events s) = Some e) as Hfind.
    { rewrite Hs. by apply find_event_app. }
    rewrite Hfind. unfold tick_event. destruct (ev_count e =? -1) eqn:Hdel.
    + destruct (Hfree e s eq_refl Hs) as (s1 & Hev & HL). rewrite HL.
      exists s1. split; [done|]. by rewrite emit_app.
    + destruct Hcbe as [Hm|(f & Hf & Hcall)]; [by rewrite Hm in Hdel|].
      destruct (due_check_loop now s pre e (mid ++ rest) Hs Hpre) as (s1 & Hdc & Hev1).
      rewrite Hdc.
      pose proof (due_check_addr now e) as Ha.
      destruct (due_check now e) as [due e1]. simpl in Ha, Hev1. simpl fst.
      destruct due.
      * rewrite Hf. destruct (Hcall s1) as (s2 & Hc & Hev2). rewrite Hc. simpl rbind.
        rewrite Hev1 in Hev2.
        assert (find_event (ev_addr e) (events s2) = Some e1) as Hfind2.
        { rewrite Hev2. by apply find_event_app. }
        rewrite Hfind2.
        destruct (0 <? ev_count e1) eqn:Hpos.
        -- destruct (wrap_int (ev_count e1 - 1) =? 0) eqn:Hzero.
           ++ destruct (Hfree (set_count (wrap_int (ev_count e1 - 1)) e1)
                          (set_events
                             (update_event (ev_addr e)
                                (set_count (wrap_int (ev_count e1 - 1))) (events s2)) s2))
                as (s3 & Hev & HL); [done| |].
              { simpl. by rewrite Hev2, (update_event_app _ _ pre e1 (mid ++ rest) Ha Hpre). }
              rewrite HL. exists s3. split; [done|]. by rewrite !emit_app.
           ++ destruct (Hstay (set_count (wrap_int (ev_count e1 - 1)) e1)
                          (set_events
                             (update_event (ev_addr e)
                                (set_count (wrap_int (ev_count e1 - 1))) (events s2)) s2))
                as (s3 & Hev & HL); [done| |].
              { simpl. by rewrite Hev2, (update_event_app _ _ pre e1 (mid ++ rest) Ha Hpre). }
              simpl in HL. rewrite HL. exists s3. split; [done|]. by rewrite !emit_app.
        -- destruct (Hstay e1 s2 Ha Hev2) as (s3 & Hev & HL). rewrite HL.
           exists s3. split; [done|]. by rewrite !emit_app.
      * destruct (Hstay e1 s1 Ha Hev1) as (s3 & Hev & HL). rewrite HL.
        exists s3. split; [done|]. by rewrite !emit_app.
Qed.

(** A callback that calls EventDel on its own task, instead of
    EventMarkDel, frees the Event that DoEvents is standing on: when the
    callback returns, DoEvents reads the count of an Event that is no
    longer in the list, and the rest of the pass is undefined.  (The tasks
    before it have callbacks that leave the list alone; the task is not
    marked and is due.) *)
Theorem callback_that_deletes_its_own_task_is_undefined
    (s : Sched) (pre suf : list Event) (e : Event) (f : vFP) (now : timeval) (fuel : nat) :
  events s = pre ++ e :: suf ->
  NoDup (addrs s) ->
  Forall callback_ok pre ->
  ev_count e <> -1 ->
  (ev_every_msec e = 0
   \/ (minimum_msec_since_last_run now (ev_last_run e) (ev_every_msec e)).1 = true) ->
  ev_event e = Some f ->
  (forall s0, call f (ev_data e) s0 = Returns (EventDel (ev_addr e) s0).2) ->
  (length pre < fuel)%nat ->
  DoEvents call minimum_msec_since_last_run fuel now s = Undefined.
Proof.
  intros Hs Hnd Hcb Hcnt Hdue Hf Hcall Hfuel. unfold addrs in Hnd. rewrite Hs in Hnd.
  assert ((due_check now e).1 = true) as Hdue'.
  { unfold due_check. destruct (Z.eqb_spec (ev_every_msec e) 0); [done|].
    destruct Hdue as [?|Hdue]; [done|].
    by destruct (minimum_msec_since_last_run _ _ _). }
  destruct (DoEvents_loop_prefix now pre [] (e :: suf) s fuel Hs Hnd
              (Forall_impl _ _ _ Hcb (fun x H => or_intror H)) Hfuel)
    as (s1 & Hev1 & HL).
  unfold DoEvents. rewrite Hs, HL. simpl in Hev1.
  destruct (NoDup_addr_mid _ _ _ Hnd) as [Hpre Hsuf].
  assert (ev_addr e ∉ ev_addr <$> tick_survivors now pre) as Hpre'.
  { intros Hin. by apply tick_survivors_addrs in Hin. }
  destruct (fuel - length pre)%nat as [|k] eqn:Hk; [lia|].
  cbn [DoEvents_loop head fmap option_fmap option_map].
  rewrite Hev1, (find_event_app _ _ e suf eq_refl Hpre'), <- Hev1.
  destruct (Z.eqb_spec (ev_count e) (-1)); [done|].
  destruct (due_check_loop now s1 _ e suf Hev1 Hpre') as (s2 & Hdc & Hev2).
  rewrite Hdc, Hdue', Hf, Hcall. simpl rbind.
  pose proof (due_check_addr now e) as Ha.
  rewrite <- Ha in Hpre' |- *.
  destruct (EventDel_mid s2 _ _ suf Hev2 Hpre') as (s3 & HD & Hev3).
  rewrite HD. simpl snd. rewrite Hev3.
  assert (find_event (ev_addr (due_check now e).2) (tick_survivors now pre ++ suf) = None)
    as ->.
  { apply find_event_None. rewrite fmap_app. intros Hin.
    apply elem_of_app in Hin as [Hin|Hin]; [done|]. by rewrite Ha in Hin. }
  done.
Qed.

(** A whole pass, when every task is marked or has a callback that leaves
    the list alone. *)
Lemma DoEvents_spec_marked now s fuel :
  NoDup (addrs s) ->
  Forall (fun e => ev_count e = -1 \/ callback_ok e) (events s) ->
  (length (events s) < fuel)%nat ->
  exists s',
    DoEvents call minimum_msec_since_last_run fuel now s
      = Returns (s', tick_steps now (events s))
    /\ events s' = tick_survivors now (events s).
Proof.
  intros Hnd Hcb Hfuel. unfold addrs in Hnd.
  destruct (DoEvents_loop_prefix now (events s) [] [] s fuel) as (s' & Hev & HL).
  - by rewrite app_nil_r.
  - by rewrite app_nil_r.
  - done.
  - done.
  - exists s'. rewrite app_nil_r in HL, Hev. unfold DoEvents. rewrite HL. simpl in Hev.
    destruct (fuel - length (events s))%nat as [|k] eqn:Hk; [lia|].
    simpl. by rewrite app_nil_r.
Qed.

Lemma tick_event_marked now e :
  ev_count e = -1 -> tick_event now e = ([Visited (ev_addr e); Deleted (ev_addr e)], None).
Proof. intros H. unfold tick_event. by rewrite H. Qed.

(** A callback that calls EventMarkDel on its own task is safe.  The
    pass in which it does so completes: the task has fired once and stays
    in the list, marked.  The next pass takes it out without calling its
    callback again.  (The other tasks have callbacks that leave the list
    alone; the task is not marked beforehand and is due.) *)
Theorem callback_that_marks_its_own_task_is_removed_by_the_next_pass
    (s : Sched) (pre suf : list Event) (e : Event) (f : vFP) (now now2 : timeval)
    (fuel : nat) :
  events s = pre ++ e :: suf ->
  NoDup (addrs s) ->
  Forall callback_ok pre -> Forall callback_ok suf ->
  ev_count e <> -1 ->
  (ev_every_msec e = 0
   \/ (minimum_msec_since_last_run now (ev_last_run e) (ev_every_msec e)).1 = true) ->
  ev_event e = Some f ->
  (forall s0, call f (ev_data e) s0
              = rbind (EventMarkDel (ev_addr e) s0) (fun r => Returns r.2)) ->
  (length (events s) < fuel)%nat ->
  let p := ev_addr e in
  exists s1 tr1 s2 tr2,
    DoEvents call minimum_msec_since_last_run fuel now s = Returns (s1, tr1)
    /\ fired_count p tr1 = 1%nat
    /\ (exists e1, find_event p (events s1) = Some e1 /\ ev_count e1 = -1)
    /\ DoEvents call minimum_msec_since_last_run fuel now2 s1 = Returns (s2, tr2)
    /\ fired_count p tr2 = 0%nat
    /\ (Deleted p ∈ tr2)
    /\ (p ∉ addrs s2).
Proof.
  intros Hs Hnd Hcb1 Hcb2 Hcnt Hdue Hf Hcall Hfuel p.
  unfold addrs in Hnd. rewrite Hs in Hnd, Hfuel. rewrite length_app in Hfuel.
  simpl in Hfuel.
  assert ((due_check now e).1 = true) as Hdue'.
  { unfold due_check. destruct (Z.eqb_spec (ev_every_msec e) 0); [done|].
    destruct Hdue as [?|Hdue]; [done|].
    by destruct (minimum_msec_since_last_run _ _ _). }
  destruct (NoDup_addr_mid _ _ _ Hnd) as [Hpre Hsuf]. fold p in Hpre, Hsuf.
  set (A := tick_survivors now pre).
  set (em := set_count (-1) (due_check now e).2).
  assert (ev_addr em = p) as Hem by apply due_check_addr.
  assert (p ∉ ev_addr <$> A) as HpA.
  { intros Hin. by apply tick_survivors_addrs in Hin. }
  assert (NoDup (ev_addr <$> (A ++ em :: suf))) as HndA.
  { eapply sublist_NoDup; [exact Hnd|].
    rewrite !fmap_app, !fmap_cons, Hem. apply sublist_app; [apply tick_survivors_sublist|].
    done. }
  (* the pass up to the task *)
  destruct (DoEvents_loop_prefix now pre [] (e :: suf) s fuel Hs Hnd
              (Forall_impl _ _ _ Hcb1 (fun x H => or_intror H)) ltac:(lia))
    as (sa & Heva & HLa).
  simpl in Heva. fold A in Heva.
  (* the rest of the pass, after the callback has marked the task *)
  assert (exists sb k,
            (fuel - length pre = S k)%nat /\ (length suf < k)%nat
            /\ events sb = A ++ em :: suf
            /\ DoEvents_loop call minimum_msec_since_last_run (S k) now (Some p) sa
               = emit [Visited p; Fired p f (ev_data e)]
                   (DoEvents_loop call minimum_msec_since_last_run k now
                      (ev_addr <$> head suf) sb)) as (sb & k & Hk & Hlen & Hevb & HLb).
  { destruct (fuel - length pre)%nat as [|k] eqn:Hk; [lia|].
    destruct (due_check_loop now sa A e suf Heva HpA) as (s2 & Hdc & Hev2).
    set (sm := set_events (update_event p (set_count (-1)) (events s2)) s2).
    assert (EventMarkDel p s2 = Returns (p, sm)) as Hmark.
    { apply EventMarkDel_live. unfold addrs.
      rewrite Hev2, fmap_app, fmap_cons, due_check_addr.
      apply elem_of_app. right. left. }
    assert (events sm = A ++ em :: suf) as Hevm.
    { subst sm. simpl. rewrite Hev2. by apply update_event_app; [apply due_check_addr|]. }
    exists sm, k. split; [done|]. split; [lia|]. split; [done|].
    cbn [DoEvents_loop].
    rewrite Heva, (find_event_app p A e suf eq_refl HpA), <- Heva.
    destruct (Z.eqb_spec (ev_count e) (-1)); [done|].
    fold p in Hdc. rewrite Hdc, Hdue', Hf, Hcall. fold p. rewrite Hmark.
    simpl rbind. simpl snd.
    pose proof Hevm as Hevm'. subst sm. simpl in Hevm'.
    rewrite !Hevm', (find_event_app p A em suf Hem HpA).
    change (0 <? ev_count em) with false. cbv iota.
    rewrite (next_of_app p A em suf Hem HpA). by rewrite emit_app. }
  destruct (DoEvents_loop_prefix now suf (A ++ [em]) [] sb k) as (s1 & Hev1 & HL1).
  { by rewrite app_nil_r, <- app_assoc. }
  { by rewrite app_nil_r, <- app_assoc. }
  { eapply Forall_impl; [exact Hcb2|]. by right. }
  { done. }
  rewrite !app_nil_r in Hev1, HL1. rewrite <- app_assoc in Hev1. simpl in Hev1.
  set (B := tick_survivors now suf) in *.
  assert (p ∉ ev_addr <$> B) as HpB.
  { intros Hin. by apply tick_survivors_addrs in Hin. }
  assert (DoEvents call minimum_msec_since_last_run fuel now s =
          Returns (s1, tick_steps now pre ++ [Visited p; Fired p f (ev_data e)]
                       ++ tick_steps now suf)) as HD1.
  { unfold DoEvents. rewrite Hs, HLa, Hk. simpl head. simpl fmap. fold p.
    rewrite HLb, HL1.
    destruct (k - length suf)%nat as [|j] eqn:Hj; [lia|]. simpl.
    by rewrite app_nil_r. }
  (* the next pass *)
  assert (NoDup (ev_addr <$> (A ++ em :: B))) as Hnd1.
  { eapply sublist_NoDup; [exact HndA|].
    rewrite !fmap_app, !fmap_cons. apply sublist_app; [done|].
    apply sublist_skip, tick_survivors_sublist. }
  destruct (DoEvents_spec_marked now2 s1 fuel) as (s2 & HD2 & Hev2).
  { unfold addrs. by rewrite Hev1. }
  { rewrite Hev1. apply Forall_app. split.
    - eapply Forall_impl; [apply tick_survivors_callback, Hcb1|]. by right.
    - constructor; [by left|].
      eapply Forall_impl; [apply tick_survivors_callback, Hcb2|]. by right. }
  { rewrite Hev1, length_app. simpl.
    pose proof (tick_survivors_length now pre). pose proof (tick_survivors_length now suf).
    fold A B in H, H0. lia. }
  rewrite Hev1 in HD2, Hev2.
  rewrite tick_steps_app, tick_steps_cons, (tick_event_marked now2 em eq_refl), Hem in HD2.
  rewrite tick_survivors_app, tick_survivors_cons, (tick_event_marked now2 em eq_refl)
    in Hev2.
  simpl in HD2, Hev2.
  eexists s1, _, s2, _. split; [exact HD1|]. split.
  { rewrite !fired_count_app.
    rewrite (fired_count_other p (tick_steps now pre)) by (by apply tick_steps_other).
    rewrite (fired_count_other p (tick_steps now suf)) by (by apply tick_steps_other).
    unfold fired_count. simpl. by rewrite Pos.eqb_refl. }
  split. { exists em. split; [|done]. rewrite Hev1. by apply find_event_app. }
  split; [exact HD2|]. split.
  { rewrite fired_count_app.
    rewrite (fired_count_other p (tick_steps now2 A)) by (by apply tick_steps_other).
    change (Visited p :: Deleted p :: tick_steps now2 B)
      with ([Visited p; Deleted p] ++ tick_steps now2 B).
    rewrite fired_count_app.
    by rewrite (fired_count_other p (tick_steps now2 B)) by (by apply tick_steps_other). }
  split. { apply elem_of_app. right. right. left. }
  unfold addrs. rewrite Hev2, fmap_app. intros Hin.
  apply elem_of_app in Hin as [Hin|Hin]; apply tick_survivors_addrs in Hin; done.
Qed.

End DoEventsFacts.

(** *** EventAdd and EventMod *)

(** C8 (as the code has it): EventAdd fails exactly when the name pointer or
    the callback is NULL, every_msec < 0 or count < 0.  A failure returns no
    event, leaves [events] and the log as they were and only sets the
    owner's errorcode to MODERR_INVALID, when there is an owner.  A name
    that is present but empty is accepted. *)
Theorem C8_EventAdd_fails_exactly_on_null_or_negative
    (p : ptr) (now : timeval) (module : option ptr) (name : option string)
    (event : option vFP) (data : Data) (every_msec count : Z) (s : Sched) :
  let r := EventAdd p now module name event data every_msec count s in
  (r.1 = None <-> name = None \/ event = None \/ every_msec < 0 \/ count < 0)
  /\ (r.1 = None ->
        events r.2 = events s /\ ircd_log r.2 = ircd_log s
        /\ match module with
           | Some m => modules r.2 = alter (set_errorcode MODERR_INVALID) m (modules s)
           | None => r.2 = s
           end)
  /\ (r.1 <> None -> r.1 = Some p /\ exists e, events r.2 = e :: events s /\ ev_addr e = p)
  /\ (name = Some ""%string -> event <> None -> 0 <= every_msec -> 0 <= count ->
        r.1 = Some p).
Proof.
  intros r. subst r. unfold EventAdd.
  destruct name as [nm|], event as [f|]; simpl;
    try (split; [split; [tauto|done] |
                 split; [intros _; by destruct module |
                         split; [done | by intros; congruence]]]).
  destruct (Z.ltb_spec every_msec 0) as [Hl|Hl]; simpl.
  { split; [split; [tauto|done]|].
    split; [intros _; by destruct module|]. split; [done|]. intros; lia. }
  destruct (Z.ltb_spec count 0) as [Hc|Hc]; simpl.
  { split; [split; [tauto|done]|].
    split; [intros _; by destruct module|]. split; [done|]. intros; lia. }
  destruct (every_msec <? 100); simpl.
  all: split; [split; [done | intros [?|[?|[?|?]]]; (done || lia)]|].
  all: split; [done|]. all: split; [|done].
  all: intros _; split; [done|]; destruct module; simpl; by eexists.
Qed.

(** *** EventFind, EventDel and EventAdd together *)

(** EventFind walks the list from its head and compares names with
    strcmp.  It returns the first task whose name is exactly [name]; NULL
    when every task has a name and none is [name]; and it is undefined when
    it meets a task without a name, a NULL handed to strcmp, before any
    match. *)
Theorem EventFind_returns_the_first_task_with_that_name (s : Sched) (name : string) :
  match EventFind name s with
  | Returns (Some q) =>
      exists pre e suf,
        events s = pre ++ e :: suf /\ ev_addr e = q /\ ev_name e = Some name
        /\ Forall (fun x => exists n, ev_name x = Some n /\ n <> name) pre
  | Returns None => Forall (fun x => exists n, ev_name x = Some n /\ n <> name) (events s)
  | Undefined =>
      exists pre e suf,
        events s = pre ++ e :: suf /\ ev_name e = None
        /\ Forall (fun x => exists n, ev_name x = Some n /\ n <> name) pre
  | OutOfFuel => False
  end.
Proof.
  unfold EventFind. induction (events s) as [|e l IH]; simpl; [constructor|].
  destruct (ev_name e) as [n|] eqn:Hn.
  - destruct (String.eqb_spec n name) as [->|Hne].
    + exists [], e, l. by repeat split.
    + assert (exists n0, ev_name e = Some n0 /\ n0 <> name) as He by (by exists n).
      destruct (EventFind_from l name) as [[q|]| |]; [| |  |done].
      * destruct IH as (pre & x & suf & -> & Hq & Hx & Hpre).
        exists (e :: pre), x, suf. repeat split; try done. by constructor.
      * by constructor.
      * destruct IH as (pre & x & suf & -> & Hx & Hpre).
        exists (e :: pre), x, suf. repeat split; try done. by constructor.
  - exists [], e, l. by repeat split.
Qed.

Lemma EventFind_from_named l name :
  Forall (fun e => ev_name e <> None) l ->
  EventFind_from l name =
  Returns (ev_addr <$> head (filter (fun e => ev_name e = Some name) l)).
Proof.
  induction 1 as [|e l He _ IH]; [done|]. simpl.
  destruct (ev_name e) as [n|] eqn:Hn; [|done].
  destruct (String.eqb_spec n name) as [->|Hne].
  - by rewrite filter_cons_True.
  - rewrite filter_cons_False by congruence. done.
Qed.

(** What a successful EventAdd leaves. *)
Lemma EventAdd_accepts p now module nm f data every_msec count s :
  0 <= every_msec -> 0 <= count ->
  let r := EventAdd p now module (Some nm) (Some f) data every_msec count s in
  r.1 = Some p
  /\ events r.2 =
       mk_Event p (Some nm) count (Z.max 100 every_msec) (Some f) data now module :: events s
  /\ modules r.2 =
       match module with
       | Some m => alter (fun md => set_errorcode MODERR_NOERROR
                                      (set_objects (MObjEvent p :: objects md) md))
                     m (modules s)
       | None => modules s
       end.
Proof.
  intros He Hc. unfold EventAdd.
  destruct (Z.ltb_spec every_msec 0); [lia|].
  destruct (Z.ltb_spec count 0); [lia|]. simpl.
  destruct (Z.ltb_spec every_msec 100); (split; [done|]); destruct module; simpl;
    (split; [do 2 f_equal; lia | done]).
Qed.

(** Insert then look up.  After a successful EventAdd, EventFind for the
    name given returns a task of the list that carries that name, and it is
    the new task whenever no older task has the same name. *)
Theorem EventAdd_then_EventFind_finds_the_name
    (p : ptr) (now : timeval) (module : option ptr) (nm : string) (f : vFP)
    (data : Data) (every_msec count : Z) (s : Sched) :
  0 <= every_msec -> 0 <= count ->
  p ∉ addrs s ->
  Forall (fun e => ev_name e <> None) (events s) ->
  let r := EventAdd p now module (Some nm) (Some f) data every_msec count s in
  r.1 = Some p
  /\ exists q e,
       EventFind nm r.2 = Returns (Some q)
       /\ find_event q (events r.2) = Some e /\ ev_name e = Some nm
       /\ (Forall (fun e0 => ev_name e0 <> Some nm) (events s) -> q = p).
Proof.
  intros He Hc Hp Hnamed r.
  destruct (EventAdd_accepts p now module nm f data every_msec count s He Hc)
    as (Hr & Hev & _). fold r in Hr, Hev.
  split; [done|]. unfold EventFind. rewrite Hev. simpl. rewrite String.eqb_refl.
  eexists _, _. split; [reflexivity|]. by rewrite Pos.eqb_refl.
Qed.

Lemma filter_all {A} (P : A -> Prop) `{!forall x, Decision (P x)} (l : list A) :
  Forall P l -> filter P l = l.
Proof.
  induction 1 as [|x l Hx _ IH]; [done|]. by rewrite filter_cons_True, IH.
Qed.

Lemma unlink_filter p l :
  NoDup (ev_addr <$> l) -> unlink p l = filter (fun e => ev_addr e <> p) l.
Proof.
  induction l as [|e l IH]; [done|]. rewrite fmap_cons, NoDup_cons. intros [Hn Hd].
  simpl. destruct (Pos.eqb_spec (ev_addr e) p) as [Heq|Hne].
  - rewrite filter_cons_False by (by intros ?).
    symmetry. apply filter_all. apply Forall_forall. intros x Hx Hxp.
    apply Hn. rewrite Heq, <- Hxp. by apply list_elem_of_fmap_2.
  - rewrite filter_cons_True by done. by rewrite IH.
Qed.

(** EventDel takes exactly the task at the address given out of the
    list and leaves the others in their order; it returns the address of
    the task that followed it, NULL for the last one; when no task is at
    that address it returns NULL and changes nothing. *)
Theorem EventDel_removes_exactly_the_given_task (s : Sched) (p : ptr) :
  NoDup (addrs s) ->
  let r := EventDel p s in
  events r.2 = filter (fun e => ev_addr e <> p) (events s)
  /\ (p ∉ addrs r.2)
  /\ ircd_log r.2 = ircd_log s
  /\ (p ∉ addrs s -> r = (None, s))
  /\ (forall pre e suf, events s = pre ++ e :: suf -> ev_addr e = p ->
        r.1 = ev_addr <$> head suf /\ events r.2 = pre ++ suf).
Proof.
  intros Hnd r. unfold addrs in *.
  assert (events r.2 = filter (fun e => ev_addr e <> p) (events s)) as Hev.
  { subst r. unfold EventDel. destruct (find_event p (events s)) as [e|] eqn:Hf.
    - rewrite <- unlink_filter by done. by destruct (ev_owner e).
    - simpl. symmetry. apply filter_all. apply Forall_forall. intros x Hx Hxp.
      apply find_event_None in Hf. apply Hf. rewrite <- Hxp. by apply list_elem_of_fmap_2. }
  split; [done|]. split.
  { rewrite Hev. intros Hin. apply list_elem_of_fmap in Hin as (x & Hx & Hin).
    apply list_elem_of_filter in Hin as [Hne _]. done. }
  split. { subst r. unfold EventDel. destruct (find_event p (events s)) as [e|]; [|done].
           by destruct (ev_owner e). }
  split. { intros Hp. subst r. unfold EventDel.
           by rewrite (proj2 (find_event_None p (events s)) Hp). }
  intros pre e suf Hs Hp. subst r. rewrite Hs in Hnd.
  destruct (NoDup_addr_mid _ _ _ Hnd) as [Hpre _]. rewrite <- Hp.
  destruct (EventDel_mid s pre e suf Hs Hpre) as (s' & -> & Hs'). done.
Qed.

(** Insert then delete.  EventDel on the task a successful EventAdd has
    just created returns the task that was the head of the list before the
    EventAdd, and leaves the scheduler as it was before the EventAdd but
    for two traces of the EventAdd: the errorcode of the owner, which is
    MODERR_NOERROR, and the log line about an interval below 100, which
    stays in the log.  The task list, the name and the object list of the
    owner, and every other module are exactly as before; with an interval
    of at least 100 and an owner that is NULL or had MODERR_NOERROR
    already, the whole scheduler state is. *)
Theorem EventDel_undoes_EventAdd
    (p : ptr) (now : timeval) (module : option ptr) (nm : string) (f : vFP)
    (data : Data) (every_msec count : Z) (s : Sched) :
  0 <= every_msec -> 0 <= count ->
  let r := EventAdd p now module (Some nm) (Some f) data every_msec count s in
  let d := EventDel p r.2 in
  r.1 = Some p
  /\ d.1 = ev_addr <$> head (events s)
  /\ events d.2 = events s
  /\ modules d.2 = match module with
                   | Some m => alter (set_errorcode MODERR_NOERROR) m (modules s)
                   | None => modules s
                   end
  /\ ircd_log d.2 = (if every_msec <? 100
                     then ircd_log s ++ [BugLowEveryMsec (caller_name module s) every_msec]
                     else ircd_log s)
  /\ (100 <= every_msec ->
      (forall m md, module = Some m -> modules s !! m = Some md ->
                    errorcode md = MODERR_NOERROR) ->
      d.2 = s).
Proof.
  intros He Hc r d.
  destruct (EventAdd_accepts p now module nm f data every_msec count s He Hc)
    as (Hr & Hev & Hmod). fold r in Hr, Hev, Hmod.
  assert (ircd_log r.2
          = (if every_msec <? 100
             then ircd_log s ++ [BugLowEveryMsec (caller_name module s) every_msec]
             else ircd_log s)) as Hlog.
  { subst r. unfold EventAdd, caller_name.
    destruct (Z.ltb_spec every_msec 0); [lia|].
    destruct (Z.ltb_spec count 0); [lia|]. simpl.
    by destruct (every_msec <? 100), module. }
  assert (d = (ev_addr <$> head (events s),
               mk_Sched (events s)
                 (match module with
                  | Some m => alter (set_errorcode MODERR_NOERROR) m (modules s)
                  | None => modules s
                  end) (ircd_log r.2))) as Hd.
  { subst d. unfold EventDel. rewrite Hev. simpl. rewrite Pos.eqb_refl. simpl.
    f_equal. unfold set_modules, set_events. simpl.
    destruct module as [m|]; simpl; rewrite Hmod; [|done].
    f_equal. apply map_eq. intros k.
    destruct (decide (m = k)) as [<-|Hne].
    - rewrite !lookup_alter_eq. destruct (modules s !! m) as [md|]; [|done]. simpl.
      by rewrite Pos.eqb_refl.
    - by rewrite !lookup_alter_ne. }
  rewrite Hd. simpl. split; [done|]. split; [done|]. split; [done|]. split; [done|].
  split; [done|]. intros Hbig Herr. rewrite Hlog.
  destruct (Z.ltb_spec every_msec 100); [lia|].
  destruct s as [evs mods lg]. simpl in *. f_equal.
  destruct module as [m|]; [|done]. apply map_eq. intros k.
  destruct (decide (m = k)) as [<-|Hne]; [|by rewrite lookup_alter_ne].
  rewrite lookup_alter_eq. destruct (mods !! m) as [md|] eqn:Hm; [|done]. simpl.
  f_equal. pose proof (Herr m md eq_refl Hm) as Hmd. destruct md as [n c o].
  simpl in Hmd. by rewrite Hmd.
Qed.

(** *** Tasks and their owners *)

Lemma listed_del_eventobj p l :
  NoDup (listed_objs l) ->
  listed_objs (del_eventobj p l) = filter (fun q => q <> p) (listed_objs l).
Proof.
  unfold listed_objs. induction l as [|[q|t x] l IH]; csimpl; [done| |done].
  rewrite NoDup_cons. intros [Hn Hd]. destruct (Pos.eqb_spec q p) as [->|Hne].
  - rewrite filter_cons_False by (by intros ?).
    symmetry. apply filter_all. apply Forall_forall. by intros x Hx ->.
  - csimpl. rewrite filter_cons_True by done. by rewrite IH.
Qed.

(** The invariant only looks at addresses, owners and MOBJ_EVENT
    entries. *)
Lemma owners_ok_ext s s' :
  (fun e => (ev_addr e, ev_owner e)) <$> events s'
    = (fun e => (ev_addr e, ev_owner e)) <$> events s ->
  (forall m, objects <$> modules s' !! m = objects <$> modules s !! m) ->
  owners_ok s -> owners_ok s'.
Proof.
  intros Hev Hmod (Hnd & Hl & Hiff).
  assert (addrs s' = addrs s) as Ha.
  { unfold addrs. apply (f_equal (fmap fst)) in Hev.
    by rewrite <- !list_fmap_compose in Hev. }
  assert (forall p m, owned_by s' p m <-> owned_by s p m) as Hown.
  { intros p m. unfold owned_by.
    assert (forall l l' : list Event,
              (fun e => (ev_addr e, ev_owner e)) <$> l'
                = (fun e => (ev_addr e, ev_owner e)) <$> l ->
              (exists e, e ∈ l' /\ ev_addr e = p /\ ev_owner e = Some m) ->
              exists e, e ∈ l /\ ev_addr e = p /\ ev_owner e = Some m) as Hdir.
    { intros l l' Hll (e & Hin & Hp & Hm).
      assert ((p, Some m) ∈ (fun e => (ev_addr e, ev_owner e)) <$> l') as Hin'.
      { apply list_elem_of_fmap. exists e. by rewrite Hp, Hm. }
      rewrite Hll in Hin'. apply list_elem_of_fmap in Hin' as (e0 & [= H1 H2] & Hin0).
      by exists e0. }
    split; apply Hdir; done. }
  assert (forall p m, lists_task s' m p <-> lists_task s m p) as Hlist.
  { intros p m. unfold lists_task. specialize (Hmod m).
    destruct (modules s' !! m) as [md'|], (modules s !! m) as [md|]; simpl in Hmod;
      try done.
    injection Hmod as Hmod.
    split; intros (x & [= <-] & Hx); eexists; (split; [reflexivity|]); congruence. }
  split; [by rewrite Ha|]. split.
  - intros m md' Hm'. specialize (Hmod m). rewrite Hm' in Hmod.
    destruct (modules s !! m) as [md|] eqn:Hm; [|done].
    injection Hmod as ->. by eapply Hl.
  - intros p m. by rewrite Hown, Hlist.
Qed.

Lemma update_event_ownership a f l :
  (forall e, ev_addr (f e) = ev_addr e) -> (forall e, ev_owner (f e) = ev_owner e) ->
  (fun e => (ev_addr e, ev_owner e)) <$> update_event a f l
    = (fun e => (ev_addr e, ev_owner e)) <$> l.
Proof.
  intros Ha Ho. induction l as [|x l IH]; csimpl; [done|].
  destruct (Pos.eqb _ a); csimpl; by rewrite ?Ha, ?Ho, ?IH.
Qed.

Lemma report_objects module c s m :
  objects <$> modules (report module c s) !! m = objects <$> modules s !! m.
Proof.
  destruct module as [k|]; [|done]. simpl.
  destruct (decide (k = m)) as [<-|Hne].
  - rewrite lookup_alter_eq. by destruct (modules s !! k).
  - by rewrite lookup_alter_ne.
Qed.

Lemma owners_ok_EventAdd p now module name event data every_msec count s :
  owners_ok s -> p ∉ addrs s ->
  (forall m, module = Some m -> is_Some (modules s !! m)) ->
  owners_ok (EventAdd p now module name event data every_msec count s).2.
Proof.
  intros Hok Hp Hloaded.
  assert (owners_ok (report module MODERR_INVALID s)) as Hfail.
  { apply (owners_ok_ext s); [|intros m; apply report_objects|exact Hok].
    by destruct module. }
  destruct name as [nm|]; [|by destruct event].
  destruct event as [f|]; [|done].
  destruct (Z.ltb_spec every_msec 0) as [Hlt|He].
  { unfold EventAdd. apply Z.ltb_lt in Hlt. by rewrite Hlt. }
  destruct (Z.ltb_spec count 0) as [Hlt|Hc].
  { unfold EventAdd. apply Z.ltb_lt in Hlt. by rewrite Hlt, orb_true_r. }
  destruct (EventAdd_accepts p now module nm f data every_msec count s He Hc)
    as (_ & Hev & Hmod).
  set (s' := (EventAdd p now module (Some nm) (Some f) data every_msec count s).2) in *.
  set (new := mk_Event p (Some nm) count (Z.max 100 every_msec) (Some f) data now module)
    in *.
  destruct Hok as (Hnd & Hl & Hiff).
  assert (forall m, ~ lists_task s m p) as Hfresh.
  { intros m Hm. apply Hiff in Hm as (e & Hin & Ha & _). apply Hp. unfold addrs.
    rewrite <- Ha. by apply list_elem_of_fmap_2. }
  split; [unfold addrs; rewrite Hev, fmap_cons; by apply NoDup_cons|].
  destruct module as [m|].
  - destruct (Hloaded m eq_refl) as [md Hmd]. split.
    + intros k mk Hk. rewrite Hmod in Hk. destruct (decide (m = k)) as [<-|Hne].
      * rewrite lookup_alter_eq, Hmd in Hk. injection Hk as <-. simpl.
        change (NoDup (p :: listed_objs (objects md))). apply NoDup_cons. split.
        -- intros Hin. apply (Hfresh m). by exists md.
        -- by eapply Hl.
      * rewrite lookup_alter_ne in Hk by done. by eapply Hl.
    + intros q k. unfold owned_by, lists_task. rewrite Hev, Hmod. split.
      * intros (e & Hin & Ha & Ho). apply elem_of_cons in Hin as [->|Hin].
        -- simpl in Ha, Ho. injection Ho as <-. subst q.
           eexists. rewrite lookup_alter_eq, Hmd. split; [reflexivity|]. simpl. left.
        -- destruct (proj1 (Hiff q k)) as (mk & Hk & Hq); [by exists e|].
           destruct (decide (m = k)) as [<-|Hne].
           ++ eexists. rewrite lookup_alter_eq, Hmd. split; [reflexivity|]. simpl.
              rewrite Hmd in Hk. injection Hk as <-. by right.
           ++ exists mk. by rewrite lookup_alter_ne.
      * intros (mk & Hk & Hq). destruct (decide (m = k)) as [<-|Hne].
        -- rewrite lookup_alter_eq, Hmd in Hk. injection Hk as <-. simpl in Hq.
           change (q ∈ p :: listed_objs (objects md)) in Hq.
           apply elem_of_cons in Hq as [->|Hq].
           ++ exists new. split; [left | done].
           ++ destruct (proj2 (Hiff q m)) as (e & Hin & Ha & Ho); [by exists md|].
              exists e. split; [by right | done].
        -- rewrite lookup_alter_ne in Hk by done.
           destruct (proj2 (Hiff q k)) as (e & Hin & Ha & Ho); [by exists mk|].
           exists e. split; [by right | done].
  - split; [intros k mk Hk; rewrite Hmod in Hk; by eapply Hl|].
    intros q k. unfold owned_by, lists_task. rewrite Hev, Hmod. split.
    + intros (e & Hin & Ha & Ho). apply elem_of_cons in Hin as [->|Hin]; [done|].
      apply Hiff. by exists e.
    + intros Hq. apply Hiff in Hq as (e & Hin & Ha & Ho).
      exists e. split; [by right | done].
Qed.

Lemma NoDup_addr_filter (P : Event -> Prop) `{!forall e, Decision (P e)} l :
  NoDup (ev_addr <$> l) -> NoDup (ev_addr <$> filter P l).
Proof.
  induction l as [|e l IH]; [done|]. rewrite fmap_cons, NoDup_cons. intros [Hn Hd].
  destruct (decide (P e)).
  - rewrite filter_cons_True by done. rewrite fmap_cons. apply NoDup_cons. split; [|auto].
    intros Hin. apply Hn. apply list_elem_of_fmap in Hin as (x & -> & Hx).
    apply list_elem_of_filter in Hx as [_ Hx]. by apply list_elem_of_fmap_2.
  - rewrite filter_cons_False by done. auto.
Qed.

Lemma owners_ok_EventDel p s : owners_ok s -> owners_ok (EventDel p s).2.
Proof.
  intros Hok. pose proof Hok as (Hnd & Hl & Hiff).
  destruct (find_event p (events s)) as [e|] eqn:Hf;
    [|by unfold EventDel; rewrite Hf].
  assert (events (EventDel p s).2 = filter (fun x => ev_addr x <> p) (events s)) as Hev.
  { unfold EventDel. rewrite Hf, <- unlink_filter by done. by destruct (ev_owner e). }
  assert (modules (EventDel p s).2 =
          match ev_owner e with
          | Some m => alter (fun md => set_objects (del_eventobj p (objects md)) md)
                        m (modules s)
          | None => modules s
          end) as Hmod.
  { unfold EventDel. rewrite Hf. by destruct (ev_owner e). }
  set (s' := (EventDel p s).2) in *.
  assert (forall q k, owned_by s' q k <-> q <> p /\ owned_by s q k) as Hown.
  { intros q k. unfold owned_by. rewrite Hev. split.
    - intros (x & Hin & Ha & Ho). apply list_elem_of_filter in Hin as [Hne Hin].
      split; [by rewrite <- Ha | by exists x].
    - intros (Hne & x & Hin & Ha & Ho). exists x. split; [|done].
      apply list_elem_of_filter. by rewrite Ha. }
  pose proof (find_event_addr _ _ _ Hf) as Ha. pose proof (find_event_elem _ _ _ Hf) as Hin.
  assert (forall k, owned_by s p k -> ev_owner e = Some k) as Huniq.
  { intros k (e' & Hin' & Ha' & Ho').
    assert (e' = e) as ->; [|done].
    rewrite <- Ha' in Hf. rewrite (find_event_of_elem _ _ Hnd Hin') in Hf. congruence. }
  split.
  { unfold addrs. rewrite Hev. by apply NoDup_addr_filter. }
  destruct (ev_owner e) as [m|] eqn:Ho.
  - split.
    + intros k mk Hk. rewrite Hmod in Hk. destruct (decide (m = k)) as [<-|Hne].
      * rewrite lookup_alter_eq in Hk. destruct (modules s !! m) as [md|] eqn:Hmd; [|done].
        injection Hk as <-. simpl. rewrite listed_del_eventobj by (by eapply Hl).
        apply NoDup_filter. by eapply Hl.
      * rewrite lookup_alter_ne in Hk by done. by eapply Hl.
    + intros q k. rewrite Hown, Hiff. unfold lists_task. rewrite Hmod.
      destruct (decide (m = k)) as [<-|Hne].
      * rewrite lookup_alter_eq. destruct (modules s !! m) as [md|] eqn:Hmd.
        -- simpl. split.
           ++ intros (Hqp & md0 & [= <-] & Hq). eexists. split; [reflexivity|]. simpl.
              rewrite listed_del_eventobj by (by eapply Hl).
              by apply list_elem_of_filter.
           ++ intros (md0 & [= <-] & Hq). simpl in Hq.
              rewrite listed_del_eventobj in Hq by (by eapply Hl).
              apply list_elem_of_filter in Hq as [Hqp Hq]. split; [done|]. by exists md.
        -- simpl. split; [by intros (_ & md0 & ? & _) | by intros (md0 & ? & _)].
      * rewrite lookup_alter_ne by done. split; [by intros [_ ?]|].
        intros Hq. split; [|done]. intros ->. apply Hne.
        apply Hiff in Hq. apply Huniq in Hq. congruence.
  - split; [intros k mk Hk; rewrite Hmod in Hk; by eapply Hl|].
    intros q k. rewrite Hown, Hiff. unfold lists_task. rewrite Hmod.
    split; [by intros [_ ?]|]. intros Hq. split; [|done]. intros ->.
    apply Hiff in Hq. apply Huniq in Hq. done.
Qed.

Section EventModFacts.
Variables EMOD_EVERY EMOD_HOWMANY EMOD_NAME EMOD_EVENT EMOD_DATA : Z.

Lemma apply_mods_fields mods e :
  let e' := apply_mods EMOD_EVERY EMOD_HOWMANY EMOD_NAME EMOD_EVENT EMOD_DATA mods e in
  ev_every_msec e' =
    (if flagged (ei_flags mods) EMOD_EVERY then ei_every_msec mods else ev_every_msec e)
  /\ ev_count e' =
    (if flagged (ei_flags mods) EMOD_HOWMANY then ei_count mods else ev_count e)
  /\ ev_name e' = (if flagged (ei_flags mods) EMOD_NAME then ei_name mods else ev_name e)
  /\ ev_event e' = (if flagged (ei_flags mods) EMOD_EVENT then ei_event mods else ev_event e)
  /\ ev_data e' = (if flagged (ei_flags mods) EMOD_DATA then ei_data mods else ev_data e)
  /\ ev_last_run e' = ev_last_run e
  /\ ev_owner e' = ev_owner e
  /\ ev_addr e' = ev_addr e.
Proof.
  unfold apply_mods.
  destruct (flagged _ EMOD_EVERY), (flagged _ EMOD_HOWMANY), (flagged _ EMOD_NAME),
    (flagged _ EMOD_EVENT), (flagged _ EMOD_DATA); by repeat split.
Qed.

Lemma find_event_update_other a b f l :
  a <> b -> (forall e, ev_addr (f e) = ev_addr e) ->
  find_event a (update_event b f l) = find_event a l.
Proof.
  intros Hab Hf. induction l as [|x l IH]; simpl; [done|].
  destruct (Pos.eqb_spec (ev_addr x) b) as [Hb|Hb]; simpl.
  - rewrite Hf. destruct (Pos.eqb_spec (ev_addr x) a); [congruence|done].
  - destruct (Pos.eqb_spec (ev_addr x) a); [done|auto].
Qed.

(** C10: on a live event and a present request EventMod returns 0; each
    field whose flag is set takes the requested value as it is (whatever
    it is: an interval below 100, zero or negative, any count), every other
    field of the event, every other event and the order of the list stay as
    they were; nothing is logged, and the owner's errorcode, when there is
    an owner, is MODERR_NOERROR. *)
Theorem C10_EventMod_stores_flagged_values_unvalidated
    (s : Sched) (e : Event) (mods : EventInfo) :
  NoDup (addrs s) ->
  e ∈ events s ->
  exists s' e',
    EventMod EMOD_EVERY EMOD_HOWMANY EMOD_NAME EMOD_EVENT EMOD_DATA
      (Some (ev_addr e)) (Some mods) s = Returns (0, s')
    /\ find_event (ev_addr e) (events s') = Some e'
    /\ ev_every_msec e' =
         (if flagged (ei_flags mods) EMOD_EVERY then ei_every_msec mods else ev_every_msec e)
    /\ ev_count e' =
         (if flagged (ei_flags mods) EMOD_HOWMANY then ei_count mods else ev_count e)
    /\ ev_name e' = (if flagged (ei_flags mods) EMOD_NAME then ei_name mods else ev_name e)
    /\ ev_event e' = (if flagged (ei_flags mods) EMOD_EVENT then ei_event mods else ev_event e)
    /\ ev_data e' = (if flagged (ei_flags mods) EMOD_DATA then ei_data mods else ev_data e)
    /\ ev_last_run e' = ev_last_run e
    /\ ev_owner e' = ev_owner e
    /\ addrs s' = addrs s
    /\ (forall a, a <> ev_addr e -> find_event a (events s') = find_event a (events s))
    /\ ircd_log s' = ircd_log s
    /\ match ev_owner e with
       | Some m => modules s' = alter (set_errorcode MODERR_NOERROR) m (modules s)
       | None => modules s' = modules s
       end.
Proof.
  intros Hnd Hin. unfold addrs in *.
  pose proof (find_event_of_elem _ _ Hnd Hin) as Hfind.
  pose proof (apply_mods_fields mods) as Hfields. simpl in Hfields.
  unfold EventMod. rewrite Hfind.
  apply list_elem_of_split in Hin as (l1 & l2 & Hs).
  rewrite Hs in Hnd. destruct (NoDup_addr_mid _ _ _ Hnd) as [H1 _].
  eexists _, _. split; [reflexivity|].
  assert (forall m c s0, events (report m c s0) = events s0) as Hrep
    by (by intros [m|] c s0).
  assert (forall m c s0, ircd_log (report m c s0) = ircd_log s0) as Hrepl
    by (by intros [m|] c s0).
  rewrite Hrep, Hrepl. simpl. rewrite Hs.
  rewrite (update_event_app _ _ l1 e l2 eq_refl H1).
  destruct (Hfields e) as (F1 & F2 & F3 & F4 & F5 & F6 & F7 & F8).
  split; [apply find_event_app; [exact F8 | exact H1]|].
  repeat (split; [done|]).
  split. { by rewrite !fmap_app, !fmap_cons, F8. }
  split. { intros a Ha. rewrite <- (update_event_app _ _ l1 e l2 eq_refl H1).
           apply find_event_update_other; [done|]. intros x. apply (Hfields x). }
  split; [done|]. by destruct (ev_owner e).
Qed.

(** EventMod on a NULL event or a NULL request.  For an event that is
    NULL or live, EventMod returns -1 exactly when the event or the
    request is NULL, and 0 otherwise.  When it returns -1 the list and the
    log are as they were; a NULL event changes nothing at all, and a NULL
    request for a live event only sets the errorcode of its owner, if it
    has one, to MODERR_INVALID. *)
Theorem EventMod_rejects_null_arguments
    (s : Sched) (event : option ptr) (mods : option EventInfo) :
  NoDup (addrs s) ->
  (forall a, event = Some a -> a ∈ addrs s) ->
  exists r s',
    EventMod EMOD_EVERY EMOD_HOWMANY EMOD_NAME EMOD_EVENT EMOD_DATA event mods s
      = Returns (r, s')
    /\ (r = -1 <-> event = None \/ mods = None)
    /\ (r <> -1 -> r = 0)
    /\ (r = -1 ->
          events s' = events s /\ ircd_log s' = ircd_log s
          /\ (event = None -> s' = s)
          /\ forall e, e ∈ events s -> event = Some (ev_addr e) ->
               match ev_owner e with
               | Some m => modules s' = alter (set_errorcode MODERR_INVALID) m (modules s)
               | None => s' = s
               end).
Proof.
  intros Hnd Hlive. unfold EventMod. destruct event as [a|].
  - destruct (find_event a (events s)) as [e|] eqn:Hf.
    2:{ apply find_event_None in Hf. destruct Hf. by apply Hlive. }
    destruct mods as [m|].
    + eexists _, _. split; [reflexivity|]. split; [split; [done | by intros [?|?]]|].
      split; [done|]. done.
    + eexists _, _. split; [reflexivity|]. split; [split; [by right | done]|].
      split; [done|]. intros _.
      split; [by destruct (ev_owner e)|]. split; [by destruct (ev_owner e)|].
      split; [done|]. intros e0 Hin [= ->].
      rewrite (find_event_of_elem _ _ Hnd Hin) in Hf. injection Hf as ->.
      by destruct (ev_owner e).
  - eexists _, _. split; [reflexivity|]. split; [split; [by left | done]|].
    split; [done|]. intros _. repeat split; try done.
Qed.

End EventModFacts.

(** *** SetupEvents *)

Lemma EventAdd_events p now module nm f data every_msec count s :
  0 <= every_msec -> 0 <= count ->
  events (EventAdd p now module (Some nm) (Some f) data every_msec count s).2 =
  mk_Event p (Some nm) count (Z.max 100 every_msec) (Some f) data now module :: events s.
Proof. intros He Hc. apply (EventAdd_accepts p now module nm f data every_msec count s He Hc). Qed.

Lemma EventAdd_no_owner_modules p now name event data every_msec count s :
  modules (EventAdd p now None name event data every_msec count s).2 = modules s.
Proof.
  unfold EventAdd. destruct name, event; try done.
  destruct (_ || _); [done|]. by destruct (every_msec <? 100).
Qed.

Lemma EventAdd_quiet p now module name event data every_msec count s :
  100 <= every_msec ->
  ircd_log (EventAdd p now module name event data every_msec count s).2 = ircd_log s.
Proof.
  intros He. unfold EventAdd. destruct name, event; try by destruct module.
  destruct (_ || _); [by destruct module|].
  destruct (Z.ltb_spec every_msec 100); [lia|]. by destruct module.
Qed.

Section SetupFacts.
Variable call : vFP -> Data -> Sched -> result Sched.
Variable minimum_msec_since_last_run : timeval -> timeval -> Z -> bool * timeval.
Variables save_tunefile garbage_collect loop_event unrealdns_removeoldrecords : vFP.
Variables check_pings check_deadsockets handshake_timeout try_connections : vFP.
Variable GARBAGE_COLLECT_EVERY : Z.

(** On an empty list, with distinct addresses from the allocator and a
    garbage-collection interval that does not come out negative,
    SetupEvents registers eight tasks: each of the eight names is found by
    EventFind at the address of its registration; every task has count 0,
    an interval of at least 100 ms, no owner, and the time of the call as
    the time of its last run; the modules are not touched, and nothing is
    logged unless the garbage-collection interval is below 100 ms.  The
    eight are permanent: with callbacks that return and leave the list
    alone, any number of DoEvents passes leaves all of them in the list. *)
Theorem SetupEvents_registers_eight_permanent_tasks
    (alloc : nat -> ptr) (now : timeval) (s0 : Sched) (nows : list timeval) (fuel : nat) :
  events s0 = [] ->
  NoDup (alloc <$> seq 0 8) ->
  0 <= wrap_int (GARBAGE_COLLECT_EVERY * 1000) ->
  (forall f d s, exists s', call f d s = Returns s' /\ events s' = events s) ->
  (8 < fuel)%nat ->
  let s := SetupEvents save_tunefile garbage_collect loop_event unrealdns_removeoldrecords
             check_pings check_deadsockets handshake_timeout try_connections
             GARBAGE_COLLECT_EVERY alloc now s0 in
  addrs s ≡ₚ alloc <$> seq 0 8
  /\ (forall k nm, setup_names !! k = Some nm -> EventFind nm s = Returns (Some (alloc k)))
  /\ Forall (fun e => ev_count e = 0 /\ 100 <= ev_every_msec e /\ ev_owner e = None
                      /\ ev_last_run e = now) (events s)
  /\ modules s = modules s0
  /\ (100 <= wrap_int (GARBAGE_COLLECT_EVERY * 1000) -> ircd_log s = ircd_log s0)
  /\ exists s' trs,
       run_ticks call minimum_msec_since_last_run fuel nows s = Returns (s', trs)
       /\ addrs s' = addrs s.
Proof.
  intros Hempty Hnd Hg Hcall Hfuel s.
  assert (events s =
    [mk_Event (alloc 7%nat) (Some "try_connections"%string) 0 (Z.max 100 2000)
       (Some try_connections) None now None;
     mk_Event (alloc 6%nat) (Some "handshake_timeout"%string) 0 (Z.max 100 1000)
       (Some handshake_timeout) None now None;
     mk_Event (alloc 5%nat) (Some "check_deadsockets"%string) 0 (Z.max 100 1000)
       (Some check_deadsockets) None now None;
     mk_Event (alloc 4%nat) (Some "check_pings"%string) 0 (Z.max 100 1000)
       (Some check_pings) None now None;
     mk_Event (alloc 3%nat) (Some "unrealdns_removeoldrecords"%string) 0 (Z.max 100 15000)
       (Some unrealdns_removeoldrecords) None now None;
     mk_Event (alloc 2%nat) (Some "loop"%string) 0 (Z.max 100 1000)
       (Some loop_event) None now None;
     mk_Event (alloc 1%nat) (Some "garbage"%string) 0
       (Z.max 100 (wrap_int (GARBAGE_COLLECT_EVERY * 1000)))
       (Some garbage_collect) None now None;
     mk_Event (alloc 0%nat) (Some "tunefile"%string) 0 (Z.max 100 (wrap_int (300 * 1000)))
       (Some save_tunefile) None now None]) as Hev.
  { subst s. unfold SetupEvents.
    rewrite !EventAdd_events by (first [exact Hg | done]). by rewrite Hempty. }
  split. { unfold addrs. rewrite Hev. exact (reverse_Permutation (alloc <$> seq 0 8)). }
  split.
  { intros k nm Hk. unfold EventFind. rewrite Hev.
    do 8 (destruct k as [|k]; [injection Hk as <-; reflexivity|]). done. }
  split.
  { rewrite Hev. repeat (constructor; [repeat split; first [reflexivity | simpl; lia]|]).
    constructor. }
  split. { subst s. unfold SetupEvents. by rewrite !EventAdd_no_owner_modules. }
  split.
  { intros Hq. subst s. unfold SetupEvents.
    rewrite !EventAdd_quiet by (first [exact Hq | done]). done. }
  apply run_ticks_all_uncounted.
  - split.
    + unfold addrs. rewrite Hev.
      exact (proj2 (NoDup_Permutation_proper _ _
                      (reverse_Permutation (alloc <$> seq 0 8))) Hnd).
    + rewrite Hev. repeat (constructor; [eexists; split; [reflexivity | apply Hcall]|]).
      constructor.
  - rewrite Hev. simpl. lia.
  - rewrite Hev. repeat (constructor; [by split|]). constructor.
Qed.

End SetupFacts.

Section OwnersFacts.
Variable call : vFP -> Data -> Sched -> result Sched.
Variable minimum_msec_since_last_run : timeval -> timeval -> Z -> bool * timeval.
Variables EMOD_EVERY EMOD_HOWMANY EMOD_NAME EMOD_EVENT EMOD_DATA : Z.

Lemma emit_Returns {S} steps (r : result (S * list Step)) s tr :
  emit steps r = Returns (s, tr) -> exists tr0, r = Returns (s, tr0).
Proof.
  destruct r as [[s0 tr0]| |]; simpl; [|done|done]. intros [= -> _]. by exists tr0.
Qed.

Lemma owners_ok_update s a f :
  (forall e, ev_addr (f e) = ev_addr e) -> (forall e, ev_owner (f e) = ev_owner e) ->
  owners_ok s -> owners_ok (set_events (update_event a f (events s)) s).
Proof.
  intros Ha Ho Hok. apply (owners_ok_ext s); [|done|exact Hok].
  by apply update_event_ownership.
Qed.

Lemma owners_ok_EventMod event mods s r s' :
  owners_ok s ->
  EventMod EMOD_EVERY EMOD_HOWMANY EMOD_NAME EMOD_EVENT EMOD_DATA event mods s
    = Returns (r, s') ->
  owners_ok s'.
Proof.
  intros Hok. unfold EventMod. destruct event as [a|]; [|by destruct mods; intros [= _ <-]].
  destruct (find_event a (events s)) as [e|]; [|by destruct mods].
  destruct mods as [m|]; intros [= _ <-].
  - apply (owners_ok_ext
             (set_events (update_event a
                (apply_mods EMOD_EVERY EMOD_HOWMANY EMOD_NAME EMOD_EVENT EMOD_DATA m)
                (events s)) s)); [|intros k; apply report_objects|].
    + by destruct (ev_owner e).
    + apply owners_ok_update; [| |done]; intros x;
        apply (apply_mods_fields EMOD_EVERY EMOD_HOWMANY EMOD_NAME EMOD_EVENT EMOD_DATA m x).
  - apply (owners_ok_ext s); [|intros k; apply report_objects|exact Hok].
    by destruct (ev_owner e).
Qed.

(** Whatever a pass does, it does through stores into an Event, EventDel
    and the callbacks. *)
Lemma DoEvents_loop_owners fuel : forall now eventptr s s' tr,
  (forall f d s0 s1, call f d s0 = Returns s1 -> owners_ok s0 -> owners_ok s1) ->
  owners_ok s ->
  DoEvents_loop call minimum_msec_since_last_run fuel now eventptr s = Returns (s', tr) ->
  owners_ok s'.
Proof.
  induction fuel as [|k IH]; intros now eventptr s s' tr Hcb Hok H; [done|].
  cbn [DoEvents_loop] in H. destruct eventptr as [p|]; [|by injection H as <- _].
  destruct (find_event p (events s)) as [e|] eqn:Hf; [|done].
  apply emit_Returns in H as [tr0 H].
  assert (forall s0 t, owners_ok s0 ->
            (let '(q, sd) := EventDel p s0 in
             emit [Deleted p] (DoEvents_loop call minimum_msec_since_last_run k now q sd))
            = Returns (s', t) -> owners_ok s') as Hfree.
  { intros s0 t Hok0 H0. pose proof (owners_ok_EventDel p s0 Hok0) as Hd.
    destruct (EventDel p s0) as [q sd]. apply emit_Returns in H0 as [t1 H0].
    by eapply IH. }
  destruct (ev_count e =? -1); [by eapply Hfree|].
  destruct (if ev_every_msec e =? 0 then (true, s)
            else let '(b, lr) :=
                   minimum_msec_since_last_run now (ev_last_run e) (ev_every_msec e) in
                 (b, set_events (update_event p (set_last_run lr) (events s)) s))
    as [due s1] eqn:Hdue.
  assert (owners_ok s1) as Hok1.
  { destruct (ev_every_msec e =? 0); [by injection Hdue as _ <-|].
    destruct (minimum_msec_since_last_run _ _ _) as [b lr]. injection Hdue as _ <-.
    by apply owners_ok_update. }
  destruct due; [|by eapply IH].
  destruct (ev_event e) as [f|]; [|done].
  apply emit_Returns in H as [tr1 H].
  destruct (call f (ev_data e) s1) as [s2| |] eqn:Hc; simpl in H; try done.
  pose proof (Hcb _ _ _ _ Hc Hok1) as Hok2.
  destruct (find_event p (events s2)) as [e2|]; [|done].
  destruct (0 <? ev_count e2); [|by eapply IH].
  assert (owners_ok (set_events (update_event p (set_count (wrap_int (ev_count e2 - 1)))
                                   (events s2)) s2)) as Hok3
    by (by apply owners_ok_update).
  destruct (wrap_int (ev_count e2 - 1) =? 0); [by eapply Hfree | by eapply IH].
Qed.

(** The task list and the object lists of the modules stay in step.
    Call the scheduler consistent when addresses are distinct, no module
    names a task twice, and a module has a MOBJ_EVENT entry for a task
    exactly when the task is in the list and the module is its owner.
    From a consistent scheduler, EventAdd (with a fresh address and an
    owner that is NULL or a loaded module), EventDel (on any pointer, which
    it only compares), EventMarkDel (on a live event, through which it
    stores), EventMod (on NULL or a live event) and a pass of DoEvents
    (with callbacks that return, leave the list alone and keep the
    scheduler consistent) all return and leave a consistent scheduler. *)
Theorem scheduler_calls_keep_tasks_and_owners_in_step (s : Sched) :
  owners_ok s ->
  (forall p now module name event data every_msec count,
     p ∉ addrs s ->
     (forall m, module = Some m -> is_Some (modules s !! m)) ->
     owners_ok (EventAdd p now module name event data every_msec count s).2)
  /\ (forall p, owners_ok (EventDel p s).2)
  /\ (forall p, p ∈ addrs s ->
        exists s', EventMarkDel p s = Returns (p, s') /\ owners_ok s')
  /\ (forall event mods,
        (forall a, event = Some a -> a ∈ addrs s) ->
        exists r s',
          EventMod EMOD_EVERY EMOD_HOWMANY EMOD_NAME EMOD_EVENT EMOD_DATA event mods s
            = Returns (r, s')
          /\ owners_ok s')
  /\ (forall fuel now,
        Forall (callback_ok call) (events s) ->
        (forall f d s0 s1, call f d s0 = Returns s1 -> owners_ok s0 -> owners_ok s1) ->
        (length (events s) < fuel)%nat ->
        exists s' tr,
          DoEvents call minimum_msec_since_last_run fuel now s = Returns (s', tr)
          /\ owners_ok s').
Proof.
  intros Hok. split; [intros; by apply owners_ok_EventAdd|].
  split; [intros; by apply owners_ok_EventDel|].
  split.
  { intros p Hp. eexists. split; [by apply EventMarkDel_live|].
    by apply owners_ok_update. }
  split.
  - intros event mods Hlive.
    assert (exists r s', EventMod EMOD_EVERY EMOD_HOWMANY EMOD_NAME EMOD_EVENT EMOD_DATA
                           event mods s = Returns (r, s')) as (r & s' & HM).
    { unfold EventMod. destruct event as [a|]; [|by eexists _, _].
      destruct (find_event a (events s)) as [e|] eqn:Hf.
      - destruct mods; by eexists _, _.
      - apply find_event_None in Hf. destruct Hf. by apply Hlive. }
    exists r, s'. split; [done|]. by eapply owners_ok_EventMod.
  - intros fuel now Hcbs Hcb Hfuel.
    destruct (DoEvents_spec call minimum_msec_since_last_run now s fuel) as (s' & HD & _);
      [split; [apply Hok | done] | done |].
    eexists _, _. split; [exact HD|]. unfold DoEvents in HD.
    by eapply DoEvents_loop_owners.
Qed.

End OwnersFacts.

(** *** Where a stored interval of 0 comes from *)

Lemma Forall_unlink (P : Event -> Prop) a l : Forall P l -> Forall P (unlink a l).
Proof.
  induction 1 as [|e l He Hl IH]; simpl; [constructor|].
  destruct (Pos.eqb (ev_addr e) a); [done | by constructor].
Qed.

Lemma Forall_update_event (P : Event -> Prop) a f l :
  (forall e, P e -> P (f e)) -> Forall P l -> Forall P (update_event a f l).
Proof.
  intros Hf. induction 1 as [|e l He Hl IH]; simpl; [constructor|].
  destruct (Pos.eqb (ev_addr e) a); constructor; auto.
Qed.

Lemma report_events module c s : events (report module c s) = events s.
Proof. by destruct module. Qed.

Lemma EventAdd_log p now module nm f data every_msec count s :
  0 <= every_msec -> 0 <= count ->
  ircd_log (EventAdd p now module (Some nm) (Some f) data every_msec count s).2
  = (if every_msec <? 100
     then ircd_log s ++ [BugLowEveryMsec (caller_name module s) every_msec]
     else ircd_log s).
Proof.
  intros He Hc. unfold EventAdd, caller_name.
  destruct (Z.ltb_spec every_msec 0); [lia|].
  destruct (Z.ltb_spec count 0); [lia|]. simpl.
  by destruct (every_msec <? 100), module.
Qed.

Lemma EventAdd_no_zero_interval p now module name event data every_msec count s :
  no_zero_interval s ->
  no_zero_interval (EventAdd p now module name event data every_msec count s).2.
Proof.
  intros Hnz. unfold no_zero_interval, EventAdd in *.
  destruct name as [nm|], event as [f|]; simpl; rewrite ?report_events; try done.
  destruct ((every_msec <? 0) || (count <? 0)); simpl; [by rewrite report_events|].
  destruct (Z.ltb_spec every_msec 100); destruct module; simpl;
    (constructor; [simpl; lia | done]).
Qed.

Lemma EventDel_no_zero_interval p s :
  no_zero_interval s -> no_zero_interval (EventDel p s).2.
Proof.
  intros Hnz. unfold no_zero_interval, EventDel in *.
  destruct (find_event p (events s)) as [e|]; [|done].
  destruct (ev_owner e); simpl; by apply Forall_unlink.
Qed.

Section ZeroIntervalFacts.
Variable call : vFP -> Data -> Sched -> result Sched.
Variable minimum_msec_since_last_run : timeval -> timeval -> Z -> bool * timeval.
Variables EMOD_EVERY EMOD_HOWMANY EMOD_NAME EMOD_EVENT EMOD_DATA : Z.

Lemma EventMod_no_zero_interval event mods s :
  (forall a, event = Some a -> a ∈ addrs s) ->
  (forall m, mods = Some m -> flagged (ei_flags m) EMOD_EVERY = true ->
             ei_every_msec m <> 0) ->
  no_zero_interval s ->
  exists r s',
    EventMod EMOD_EVERY EMOD_HOWMANY EMOD_NAME EMOD_EVENT EMOD_DATA event mods s
      = Returns (r, s')
    /\ no_zero_interval s'.
Proof.
  intros Hlive Hmods Hnz. unfold EventMod. destruct event as [a|].
  2:{ exists (-1), s. by destruct mods. }
  destruct (find_event a (events s)) as [e|] eqn:Hf.
  2:{ apply find_event_None in Hf. destruct Hf. by apply Hlive. }
  destruct mods as [m|]; eexists _, _; (split; [reflexivity|]);
    unfold no_zero_interval in *; rewrite report_events; [|done].
  simpl. apply Forall_update_event; [|done]. intros x Hx.
  destruct (apply_mods_fields EMOD_EVERY EMOD_HOWMANY EMOD_NAME EMOD_EVENT EMOD_DATA m x)
    as (-> & _).
  destruct (flagged (ei_flags m) EMOD_EVERY) eqn:Hfl; [by apply Hmods | done].
Qed.

(** C6 (as the code has it): a task whose stored [every_msec] is 0 and that
    is not marked for removal fires exactly once in every pass of DoEvents,
    whatever the clock reads.  But EventAdd never stores 0: when it
    succeeds it stores [max 100 every_msec], and for every interval below
    100, 0 included, it writes the diagnostic with the caller's name and
    the interval asked for to the log (and nothing for an interval of 100
    or more).  A stored 0 can only come from EventMod: on a list without
    one, EventAdd, EventDel, EventMarkDel, a pass of DoEvents, and an
    EventMod that does not itself ask for an interval of 0, all leave a
    list without one; an EventMod on a live task with EMOD_EVERY set and
    every_msec = 0 stores the 0. *)
Theorem C6_stored_zero_interval_fires_every_pass
    (s : Sched) (e : Event) (now : timeval) (fuel : nat) :
  sched_ok call s ->
  e ∈ events s ->
  ev_every_msec e = 0 ->
  ev_count e <> -1 ->
  (length (events s) < fuel)%nat ->
  (exists s' tr,
     DoEvents call minimum_msec_since_last_run fuel now s = Returns (s', tr)
     /\ fired_count (ev_addr e) tr = 1%nat)
  /\ (forall p now0 module name event data every_msec count s0 p1 s1,
        EventAdd p now0 module name event data every_msec count s0 = (Some p1, s1) ->
        (exists e1, head (events s1) = Some e1 /\ ev_addr e1 = p1
                    /\ ev_every_msec e1 = Z.max 100 every_msec
                    /\ ev_every_msec e1 <> 0)
        /\ ircd_log s1
           = (if every_msec <? 100
              then ircd_log s0 ++ [BugLowEveryMsec (caller_name module s0) every_msec]
              else ircd_log s0))
  /\ (forall s0, no_zero_interval s0 ->
        (forall p now0 module name event data every_msec count,
           no_zero_interval (EventAdd p now0 module name event data every_msec count s0).2)
        /\ (forall p, no_zero_interval (EventDel p s0).2)
        /\ (forall p, p ∈ addrs s0 ->
              exists s1, EventMarkDel p s0 = Returns (p, s1) /\ no_zero_interval s1)
        /\ (forall fuel0 now0,
              sched_ok call s0 -> (length (events s0) < fuel0)%nat ->
              exists s1 tr,
                DoEvents call minimum_msec_since_last_run fuel0 now0 s0 = Returns (s1, tr)
                /\ no_zero_interval s1)
        /\ (forall event mods,
              (forall a, event = Some a -> a ∈ addrs s0) ->
              (forall m, mods = Some m -> flagged (ei_flags m) EMOD_EVERY = true ->
                         ei_every_msec m <> 0) ->
              exists r s1,
                EventMod EMOD_EVERY EMOD_HOWMANY EMOD_NAME EMOD_EVENT EMOD_DATA event mods s0
                  = Returns (r, s1)
                /\ no_zero_interval s1))
  /\ (forall s0 e0 mods,
        NoDup (addrs s0) -> e0 ∈ events s0 ->
        flagged (ei_flags mods) EMOD_EVERY = true -> ei_every_msec mods = 0 ->
        exists s1 e1,
          EventMod EMOD_EVERY EMOD_HOWMANY EMOD_NAME EMOD_EVENT EMOD_DATA
            (Some (ev_addr e0)) (Some mods) s0 = Returns (0, s1)
          /\ find_event (ev_addr e0) (events s1) = Some e1
          /\ ev_every_msec e1 = 0).
Proof.
  intros Hok Hin Hz Hc Hfuel.
  split; [by apply zero_interval_fires|]. split.
  { intros p now0 module name event data every_msec count s0 p1 s1 HA.
    pose proof HA as HA'.
    apply EventAdd_success in HA' as (nm & f & -> & -> & He & Hcnt & -> & Hev).
    split.
    - rewrite Hev. eexists. split; [reflexivity|]. simpl. repeat split; lia.
    - pose proof (EventAdd_log p now0 module nm f data every_msec count s0 He Hcnt) as Hl.
      by rewrite HA in Hl. }
  split.
  { intros s0 Hnz.
    split; [intros; by apply EventAdd_no_zero_interval|].
    split; [intros; by apply EventDel_no_zero_interval|].
    split.
    { intros p Hp. eexists. split; [by apply EventMarkDel_live|].
      unfold no_zero_interval in *. simpl. by apply Forall_update_event. }
    split; [intros; by apply DoEvents_no_zero_interval|].
    intros; by apply EventMod_no_zero_interval. }
  intros s0 e0 mods Hnd Hin0 Hfl Hzero. unfold addrs in Hnd.
  pose proof (find_event_of_elem _ _ Hnd Hin0) as Hfind.
  unfold EventMod. rewrite Hfind. eexists _, _. split; [reflexivity|].
  rewrite report_events. simpl.
  apply list_elem_of_split in Hin0 as (l1 & l2 & Hs).
  rewrite Hs in Hnd. destruct (NoDup_addr_mid _ _ _ Hnd) as [H1 _].
  rewrite Hs, (update_event_app _ _ l1 e0 l2 eq_refl H1).
  destruct (apply_mods_fields EMOD_EVERY EMOD_HOWMANY EMOD_NAME EMOD_EVENT EMOD_DATA mods e0)
    as (F1 & _ & _ & _ & _ & _ & _ & F8).
  split; [apply find_event_app; [exact F8 | exact H1]|].
  by rewrite F1, Hfl.
Qed.

End ZeroIntervalFacts.

(** *** The scheduler on a concrete list *)

Lemma sample_call_ok e : ev_event e <> None -> callback_ok sample_call e.
Proof.
  intros H. destruct (ev_event e) as [f|] eqn:Hf; [|done].
  exists f. split; [done|]. intros s. by eexists.
Defined.

Lemma sample_sched_ok : sched_ok sample_call sample_sched.
Proof.
  split.
  - apply (bool_decide_unpack _). by vm_compute.
  - repeat (apply Forall_cons; split; [by apply sample_call_ok|]). apply Forall_nil_2.
Defined.

Lemma C1_witness :
  sched_ok sample_call sample_sched
  /\ events sample_sched = [ev_loop] ++ ev_garbage :: [ev_tunefile]
  /\ (length (events sample_sched) < 4)%nat
  /\ exists s1 s' tr1 tr2,
       EventMarkDel 2%positive sample_sched = Returns (2%positive, s1)
       /\ DoEvents sample_call elapsed_at_least 4 boot_time s1
           = Returns (s', tr1 ++ Visited 2%positive :: Deleted 2%positive :: tr2)
       /\ (Deleted 2%positive ∉ tr1) /\ (Deleted 2%positive ∉ tr2)
       /\ visited (tr1 ++ Visited 2%positive :: Deleted 2%positive :: tr2) = [3; 2; 1]%positive
       /\ (EventDel 2%positive s1).1 = Some 1%positive
       /\ (exists tr3, tr2 = Visited 1%positive :: tr3)
       /\ (2%positive ∉ addrs s').
Proof.
  split; [exact sample_sched_ok|]. split; [reflexivity|]. split; [vm_compute; lia|].
  exact (C1_marked_task_removed_once_and_successor_visited sample_call elapsed_at_least
           sample_sched [ev_loop] [ev_tunefile] ev_garbage boot_time 4
           sample_sched_ok eq_refl ltac:(vm_compute; lia)).
Defined.

(** Against C6 as stated: EventAdd with every_msec = 0, then a pass at the
    same instant: the new task has interval 100 and does not fire. *)
Lemma C6_counterexample :
  let r := EventAdd 1%positive boot_time None (Some "t"%string) (Some 7%positive) None 0 0
             (mk_Sched [] ∅ []) in
  r.1 = Some 1%positive
  /\ (ev_every_msec <$> events r.2) = [100]
  /\ exists s' tr,
       DoEvents sample_call elapsed_at_least 2 boot_time r.2 = Returns (s', tr)
       /\ fired_count 1%positive tr = 0%nat.
Proof.
  simpl. split; [reflexivity|]. split; [reflexivity|].
  eexists _, _. split; reflexivity.
Qed.

Lemma sample_sched_zero_ok : sched_ok sample_call sample_sched_zero.
Proof.
  split.
  - apply (bool_decide_unpack _). by vm_compute.
  - repeat (apply Forall_cons; split; [by apply sample_call_ok|]). apply Forall_nil_2.
Defined.

Lemma C6_witness :
  sched_ok sample_call sample_sched_zero
  /\ ev_loop_zero ∈ events sample_sched_zero
  /\ ev_every_msec ev_loop_zero = 0
  /\ ev_count ev_loop_zero <> -1
  /\ (length (events sample_sched_zero) < 4)%nat
  /\ (exists s' tr,
        DoEvents sample_call elapsed_at_least 4 boot_time sample_sched_zero = Returns (s', tr)
        /\ fired_count (ev_addr ev_loop_zero) tr = 1%nat)
  /\ (let r := EventAdd 1%positive boot_time None (Some "t"%string) (Some 7%positive) None 0 0
                 (mk_Sched [] ∅ []) in
      (exists e1, head (events r.2) = Some e1 /\ ev_every_msec e1 = 100)
      /\ ircd_log r.2 = [BugLowEveryMsec "???" 0])
  /\ (exists s1 e1,
        EventMod 1 2 4 8 16 (Some 3%positive)
          (Some (mk_EventInfo 1 0 0 None None None)) sample_sched = Returns (0, s1)
        /\ find_event 3%positive (events s1) = Some e1
        /\ ev_every_msec e1 = 0).
Proof.
  assert (ev_loop_zero ∈ events sample_sched_zero) as Hin by (vm_compute; left).
  assert (ev_loop ∈ events sample_sched) as Hin0 by (vm_compute; left).
  split; [exact sample_sched_zero_ok|]. split; [exact Hin|].
  split; [reflexivity|]. split; [done|]. split; [vm_compute; lia|].
  destruct (C6_stored_zero_interval_fires_every_pass sample_call elapsed_at_least
              1 2 4 8 16 sample_sched_zero ev_loop_zero boot_time 4
              sample_sched_zero_ok Hin eq_refl ltac:(done) ltac:(vm_compute; lia))
    as (Hfire & Hadd & _ & Hmod).
  split; [exact Hfire|]. split.
  - destruct (Hadd 1%positive boot_time None (Some "t"%string) (Some 7%positive) None 0 0
                (mk_Sched [] ∅ []) _ _ eq_refl) as [(e1 & Hh & _ & He1 & _) Hlog].
    split; [exists e1; split; [exact Hh | exact He1] | exact Hlog].
  - exact (Hmod sample_sched ev_loop (mk_EventInfo 1 0 0 None None None)
             (proj1 sample_sched_ok) Hin0 eq_refl eq_refl).
Defined.

Lemma C7_witness :
  sched_ok sample_call sample_sched
  /\ ev_garbage ∈ events sample_sched
  /\ ev_count ev_garbage = 2
  /\ 0 < 2 <= INT_MAX
  /\ (length (events sample_sched) < 4)%nat
  /\ exists s' trs,
       run_ticks sample_call elapsed_at_least 4
         [mk_timeval 1600 0; mk_timeval 1700 0; mk_timeval 2200 0] sample_sched
         = Returns (s', trs)
       /\ Z.of_nat (fired_count 2%positive (concat trs)) = 2
       /\ Forall (fun tr => (fired_count 2%positive tr <= 1)%nat) trs
       /\ (Deleted 2%positive ∈ concat trs)
       /\ (2%positive ∉ addrs s')
       /\ (forall name, EventFind name s' <> Returns (Some 2%positive)).
Proof.
  assert (ev_garbage ∈ events sample_sched) as Hin by (vm_compute; right; left).
  split; [exact sample_sched_ok|]. split; [exact Hin|]. split; [reflexivity|].
  split; [done|]. split; [vm_compute; lia|].
  destruct (C7_counted_task_removed_after_N_firings sample_call elapsed_at_least
              [mk_timeval 1600 0; mk_timeval 1700 0; mk_timeval 2200 0]
              sample_sched ev_garbage 2 4 sample_sched_ok Hin eq_refl ltac:(done)
              ltac:(vm_compute; lia)) as (s' & trs & HR & Hk & Hone & _ & _ & Hgone).
  assert (Z.min 2 (Z.of_nat (due_passes elapsed_at_least
                               [mk_timeval 1600 0; mk_timeval 1700 0; mk_timeval 2200 0]
                               ev_garbage)) = 2) as Hdue by reflexivity.
  rewrite Hdue in Hk. destruct (Hgone Hk) as (Hdel & Hp & Hfind & _).
  exists s', trs. split; [exact HR|]. split; [exact Hk|]. split; [exact Hone|].
  split; [exact Hdel|]. split; [exact Hp | exact Hfind].
Defined.

(** Against C8 as stated: a name that is present but empty; the task is
    created and linked into the list. *)
Lemma C8_counterexample :
  let s0 := mk_Sched [] ∅ [] in
  let r := EventAdd 1%positive boot_time None (Some ""%string) (Some 7%positive) None 1000 0 s0 in
  r.1 = Some 1%positive /\ events r.2 <> events s0.
Proof. simpl. split; [reflexivity | done]. Qed.

Lemma C10_witness :
  NoDup (addrs sample_sched)
  /\ ev_loop ∈ events sample_sched
  /\ exists s' e',
       EventMod 1 2 4 8 16 (Some 3%positive)
         (Some (mk_EventInfo 3 (-7) 0 None None None)) sample_sched = Returns (0, s')
       /\ find_event 3%positive (events s') = Some e'
       /\ ev_every_msec e' = 0 /\ ev_count e' = -7 /\ ev_name e' = Some "loop"%string
       /\ ircd_log s' = ircd_log sample_sched.
Proof.
  assert (ev_loop ∈ events sample_sched) as Hin by (vm_compute; left).
  split; [exact (proj1 sample_sched_ok)|]. split; [exact Hin|].
  destruct (C10_EventMod_stores_flagged_values_unvalidated 1 2 4 8 16
              sample_sched ev_loop (mk_EventInfo 3 (-7) 0 None None None)
              (proj1 sample_sched_ok) Hin)
    as (s' & e' & HM & Hf & H1 & H2 & H3 & _ & _ & _ & _ & _ & _ & Hlog & _).
  exists s', e'. repeat split; done.
Defined.

(** *** More of the scheduler on the concrete list *)

Lemma uncounted_task_is_never_removed_witness :
  sched_ok sample_call sample_sched
  /\ ev_tunefile ∈ events sample_sched
  /\ ev_count ev_tunefile <= 0 /\ ev_count ev_tunefile <> -1
  /\ (length (events sample_sched) < 4)%nat
  /\ exists s' trs,
       run_ticks sample_call elapsed_at_least 4 [late; later] sample_sched = Returns (s', trs)
       /\ Forall (fun tr => Deleted 1%positive ∉ tr) trs
       /\ exists e', find_event 1%positive (events s') = Some e' /\ same_task ev_tunefile e'.
Proof.
  assert (ev_tunefile ∈ events sample_sched) as Hin by (vm_compute; right; right; left).
  split; [exact sample_sched_ok|]. split; [exact Hin|]. split; [done|]. split; [done|].
  split; [vm_compute; lia|].
  exact (uncounted_task_is_never_removed sample_call elapsed_at_least [late; later]
           sample_sched ev_tunefile 4 sample_sched_ok Hin ltac:(done) ltac:(done)
           ltac:(vm_compute; lia)).
Defined.

Lemma DoEvents_pass_fires_each_task_at_most_once_witness :
  sched_ok sample_call sample_sched
  /\ (length (events sample_sched) < 4)%nat
  /\ exists s' tr,
       DoEvents sample_call elapsed_at_least 4 late sample_sched = Returns (s', tr)
       /\ visited tr = [3; 2; 1]%positive
       /\ (forall p, (fired_count p tr <= 1)%nat)
       /\ addrs s' `sublist_of` [3; 2; 1]%positive.
Proof.
  split; [exact sample_sched_ok|]. split; [vm_compute; lia|].
  destruct (DoEvents_pass_fires_each_task_at_most_once sample_call elapsed_at_least
              sample_sched late 4 sample_sched_ok ltac:(vm_compute; lia))
    as (s' & tr & HD & Hv & Hone & _ & Hsub & _).
  exists s', tr. split; [exact HD|]. split; [exact Hv|]. split; [exact Hone | exact Hsub].
Defined.

Lemma marked_task_is_removed_without_firing_witness :
  sched_ok sample_call sample_sched
  /\ ev_garbage ∈ events sample_sched
  /\ (length (events sample_sched) < 4)%nat
  /\ exists s1 s' tr,
       EventMarkDel 2%positive sample_sched = Returns (2%positive, s1)
       /\ DoEvents sample_call elapsed_at_least 4 late s1 = Returns (s', tr)
       /\ fired_count 2%positive tr = 0%nat
       /\ (2%positive ∉ addrs s').
Proof.
  assert (ev_garbage ∈ events sample_sched) as Hin by (vm_compute; right; left).
  split; [exact sample_sched_ok|]. split; [exact Hin|]. split; [vm_compute; lia|].
  destruct (marked_task_is_removed_without_firing sample_call elapsed_at_least
              sample_sched ev_garbage late 4 sample_sched_ok Hin ltac:(vm_compute; lia))
    as (s1 & s' & tr & _ & _ & Hm & HD & Hf & _ & Hp & _).
  exists s1, s', tr. split; [exact Hm|]. split; [exact HD|]. split; [exact Hf | exact Hp].
Defined.

Lemma quiet_callback_ok call e f :
  ev_event e = Some f -> (forall d s, call f d s = Returns s) -> callback_ok call e.
Proof. intros Hf Hc. exists f. split; [done|]. intros s. exists s. by rewrite Hc. Defined.

Lemma callback_that_deletes_its_own_task_is_undefined_witness :
  events sample_sched = [ev_loop] ++ ev_garbage :: [ev_tunefile]
  /\ NoDup (addrs sample_sched)
  /\ Forall (callback_ok self_deleting_call) [ev_loop]
  /\ ev_count ev_garbage <> -1
  /\ (ev_every_msec ev_garbage = 0
      \/ (elapsed_at_least late (ev_last_run ev_garbage) (ev_every_msec ev_garbage)).1 = true)
  /\ ev_event ev_garbage = Some 12%positive
  /\ (forall s0, self_deleting_call 12%positive (ev_data ev_garbage) s0
                 = Returns (EventDel (ev_addr ev_garbage) s0).2)
  /\ (length [ev_loop] < 4)%nat
  /\ DoEvents self_deleting_call elapsed_at_least 4 late sample_sched = Undefined.
Proof.
  assert (Forall (callback_ok self_deleting_call) [ev_loop]) as Hcb.
  { constructor; [|constructor]. by apply (quiet_callback_ok _ _ 13%positive). }
  assert (ev_every_msec ev_garbage = 0
          \/ (elapsed_at_least late (ev_last_run ev_garbage) (ev_every_msec ev_garbage)).1
             = true) as Hdue by (right; reflexivity).
  split; [reflexivity|]. split; [exact (proj1 sample_sched_ok)|]. split; [exact Hcb|].
  split; [done|]. split; [exact Hdue|]. split; [reflexivity|]. split; [reflexivity|].
  split; [simpl; lia|].
  exact (callback_that_deletes_its_own_task_is_undefined self_deleting_call elapsed_at_least
           sample_sched [ev_loop] [ev_tunefile] ev_garbage 12%positive late 4
           eq_refl (proj1 sample_sched_ok) Hcb ltac:(done) Hdue eq_refl
           (fun s0 => eq_refl) ltac:(simpl; lia)).
Defined.

Lemma callback_that_marks_its_own_task_is_removed_by_the_next_pass_witness :
  events sample_sched = [ev_loop] ++ ev_garbage :: [ev_tunefile]
  /\ NoDup (addrs sample_sched)
  /\ Forall (callback_ok self_marking_call) [ev_loop]
  /\ Forall (callback_ok self_marking_call) [ev_tunefile]
  /\ ev_count ev_garbage <> -1
  /\ (ev_every_msec ev_garbage = 0
      \/ (elapsed_at_least late (ev_last_run ev_garbage) (ev_every_msec ev_garbage)).1 = true)
  /\ ev_event ev_garbage = Some 12%positive
  /\ (forall s0, self_marking_call 12%positive (ev_data ev_garbage) s0
                 = rbind (EventMarkDel (ev_addr ev_garbage) s0) (fun r => Returns r.2))
  /\ (length (events sample_sched) < 4)%nat
  /\ exists s1 tr1 s2 tr2,
       DoEvents self_marking_call elapsed_at_least 4 late sample_sched = Returns (s1, tr1)
       /\ fired_count 2%positive tr1 = 1%nat
       /\ DoEvents self_marking_call elapsed_at_least 4 later s1 = Returns (s2, tr2)
       /\ fired_count 2%positive tr2 = 0%nat
       /\ (2%positive ∉ addrs s2).
Proof.
  assert (Forall (callback_ok self_marking_call) [ev_loop]) as Hcb1.
  { constructor; [|constructor]. by apply (quiet_callback_ok _ _ 13%positive). }
  assert (Forall (callback_ok self_marking_call) [ev_tunefile]) as Hcb2.
  { constructor; [|constructor]. by apply (quiet_callback_ok _ _ 11%positive). }
  assert (ev_every_msec ev_garbage = 0
          \/ (elapsed_at_least late (ev_last_run ev_garbage) (ev_every_msec ev_garbage)).1
             = true) as Hdue by (right; reflexivity).
  split; [reflexivity|]. split; [exact (proj1 sample_sched_ok)|]. split; [exact Hcb1|].
  split; [exact Hcb2|]. split; [done|]. split; [exact Hdue|]. split; [reflexivity|].
  split; [reflexivity|]. split; [vm_compute; lia|].
  destruct (callback_that_marks_its_own_task_is_removed_by_the_next_pass
              self_marking_call elapsed_at_least
              sample_sched [ev_loop] [ev_tunefile] ev_garbage 12%positive late later 4
              eq_refl (proj1 sample_sched_ok) Hcb1 Hcb2 ltac:(done) Hdue eq_refl
              (fun s0 => eq_refl) ltac:(vm_compute; lia))
    as (s1 & tr1 & s2 & tr2 & H1 & H2 & _ & H3 & H4 & _ & H5).
  exists s1, tr1, s2, tr2. split; [exact H1|]. split; [exact H2|]. split; [exact H3|].
  split; [exact H4 | exact H5].
Defined.

Lemma EventAdd_then_EventFind_finds_the_name_witness :
  0 <= 5000 /\ 0 <= 0
  /\ (9%positive ∉ addrs sample_sched)
  /\ Forall (fun e => ev_name e <> None) (events sample_sched)
  /\ exists q,
       EventFind "loop"
         (EventAdd 9%positive late None (Some "loop"%string) (Some 19%positive) None 5000 0
            sample_sched).2 = Returns (Some q).
Proof.
  assert (9%positive ∉ addrs sample_sched) as Hp.
  { apply (bool_decide_unpack _). by vm_compute. }
  assert (Forall (fun e => ev_name e <> None) (events sample_sched)) as Hn.
  { repeat (constructor; [done|]). constructor. }
  split; [lia|]. split; [lia|]. split; [exact Hp|]. split; [exact Hn|].
  destruct (EventAdd_then_EventFind_finds_the_name 9%positive late None "loop" 19%positive
              None 5000 0 sample_sched ltac:(lia) ltac:(lia) Hp Hn)
    as (_ & q & e & HF & _).
  exists q. exact HF.
Defined.

Lemma EventDel_removes_exactly_the_given_task_witness :
  NoDup (addrs sample_sched)
  /\ events (EventDel 2%positive sample_sched).2
     = filter (fun e => ev_addr e <> 2%positive) (events sample_sched)
  /\ (EventDel 2%positive sample_sched).1 = Some 1%positive.
Proof.
  split; [exact (proj1 sample_sched_ok)|].
  destruct (EventDel_removes_exactly_the_given_task sample_sched 2%positive
              (proj1 sample_sched_ok)) as (H1 & _ & _ & _ & H2).
  split; [exact H1|].
  exact (proj1 (H2 [ev_loop] ev_garbage [ev_tunefile] eq_refl eq_refl)).
Defined.

Lemma EventDel_undoes_EventAdd_witness :
  0 <= 40 /\ 0 <= 3
  /\ (let r := EventAdd 9%positive late (Some 50%positive) (Some "flush"%string)
                 (Some 19%positive) None 40 3 sched_with_module in
      let d := EventDel 9%positive r.2 in
      r.1 = Some 9%positive
      /\ d.1 = None
      /\ events d.2 = events sched_with_module
      /\ modules d.2 = modules sched_with_module
      /\ ircd_log d.2 = [BugLowEveryMsec "history" 40]).
Proof.
  split; [lia|]. split; [lia|].
  destruct (EventDel_undoes_EventAdd 9%positive late (Some 50%positive) "flush" 19%positive
              None 40 3 sched_with_module ltac:(lia) ltac:(lia))
    as (H1 & H2 & H3 & H4 & H5 & _).
  split; [exact H1|]. split; [exact H2|]. split; [exact H3|]. split; [|exact H5].
  etrans; [exact H4|]. apply map_eq. intros k.
  destruct (decide (50%positive = k)) as [<-|Hne]; [|by rewrite lookup_alter_ne].
  rewrite lookup_alter_eq. unfold sched_with_module. simpl.
  by rewrite lookup_singleton_eq.
Defined.

Lemma EventMod_rejects_null_arguments_witness :
  NoDup (addrs sample_sched)
  /\ (forall a, Some 3%positive = Some a -> a ∈ addrs sample_sched)
  /\ exists s',
       EventMod 1 2 4 8 16 (Some 3%positive) None sample_sched = Returns (-1, s')
       /\ events s' = events sample_sched.
Proof.
  assert (forall a, Some 3%positive = Some a -> a ∈ addrs sample_sched) as Hlive.
  { intros a [= <-]. vm_compute. left. }
  split; [exact (proj1 sample_sched_ok)|]. split; [exact Hlive|].
  destruct (EventMod_rejects_null_arguments 1 2 4 8 16 sample_sched (Some 3%positive) None
              (proj1 sample_sched_ok) Hlive)
    as (r & s' & HM & Hr & _ & Hfail).
  assert (r = -1) as -> by (apply Hr; by right).
  exists s'. split; [exact HM|]. exact (proj1 (Hfail eq_refl)).
Defined.

Lemma SetupEvents_registers_eight_permanent_tasks_witness :
  events (mk_Sched [] ∅ []) = []
  /\ NoDup (first_addresses <$> seq 0 8)
  /\ 0 <= wrap_int (600 * 1000)
  /\ (forall f d s, exists s', sample_call f d s = Returns s' /\ events s' = events s)
  /\ (8 < 9)%nat
  /\ (let s := SetupEvents 11%positive 12%positive 13%positive 14%positive 15%positive
                 16%positive 17%positive 18%positive 600 first_addresses boot_time
                 (mk_Sched [] ∅ []) in
      EventFind "check_pings" s = Returns (Some 5%positive)
      /\ exists s' trs,
           run_ticks sample_call elapsed_at_least 9 [late; later] s = Returns (s', trs)
           /\ addrs s' = addrs s).
Proof.
  assert (NoDup (first_addresses <$> seq 0 8)) as Hnd.
  { apply (bool_decide_unpack _). by vm_compute. }
  assert (forall f d s, exists s', sample_call f d s = Returns s' /\ events s' = events s)
    as Hcall by (intros f d s; by eexists).
  split; [reflexivity|]. split; [exact Hnd|]. split; [by vm_compute|].
  split; [exact Hcall|]. split; [lia|].
  destruct (SetupEvents_registers_eight_permanent_tasks sample_call elapsed_at_least
              11%positive 12%positive 13%positive 14%positive 15%positive 16%positive
              17%positive 18%positive 600 first_addresses boot_time (mk_Sched [] ∅ [])
              [late; later] 9 eq_refl Hnd ltac:(by vm_compute) Hcall ltac:(lia))
    as (_ & Hfind & _ & _ & _ & Hrun).
  split; [exact (Hfind 4%nat "check_pings"%string eq_refl) | exact Hrun].
Defined.

Lemma sched_with_module_owners_ok : owners_ok sched_with_module.
Proof.
  split; [constructor|]. split.
  - intros m md Hm. unfold sched_with_module in Hm. simpl in Hm.
    apply lookup_singleton_Some in Hm as [_ <-]. constructor.
  - intros p m. split.
    + intros (e & Hin & _). by apply elem_of_nil in Hin.
    + intros (md & Hm & Hp). unfold sched_with_module in Hm. simpl in Hm.
      apply lookup_singleton_Some in Hm as [_ <-]. by apply elem_of_nil in Hp.
Defined.

Lemma owned_sched_ok : owners_ok owned_sched.
Proof.
  apply owners_ok_EventAdd; [exact sched_with_module_owners_ok | |].
  - apply not_elem_of_nil.
  - intros m [= <-]. by eexists.
Defined.

Lemma scheduler_calls_keep_tasks_and_owners_in_step_witness :
  owners_ok owned_sched
  /\ owners_ok (EventDel 9%positive owned_sched).2
  /\ (9%positive ∈ addrs owned_sched)
  /\ (exists s', EventMarkDel 9%positive owned_sched = Returns (9%positive, s')
                  /\ owners_ok s')
  /\ exists r s',
       EventMod 1 2 4 8 16 (Some 9%positive) None owned_sched = Returns (r, s')
       /\ owners_ok s'.
Proof.
  destruct (scheduler_calls_keep_tasks_and_owners_in_step sample_call elapsed_at_least
              1 2 4 8 16 owned_sched owned_sched_ok) as (_ & Hdel & Hmark & Hmod & _).
  split; [exact owned_sched_ok|]. split; [exact (Hdel 9%positive)|].
  assert (9%positive ∈ addrs owned_sched) as Hlive by (vm_compute; left).
  split; [exact Hlive|]. split; [exact (Hmark 9%positive Hlive)|].
  apply Hmod. intros a [= <-]. exact Hlive.
Defined.

(** ** Part V: properties of the history backend *)

(** *** What the cached fields stand for *)

Lemma wrap_int_small z : INT_MIN <= z <= INT_MAX -> wrap_int z = z.
Proof. unfold wrap_int, INT_MIN, INT_MAX. intros H. rewrite Z.mod_small; lia. Qed.

Lemma min_time_app ls l :
  min_time (ls ++ [l]) =
  Some (match min_time ls with Some m => Z.min m (hl_t l) | None => hl_t l end).
Proof.
  induction ls as [|x ls IH]; [done|]. simpl. rewrite IH.
  destruct (min_time ls); f_equal; lia.
Qed.

Lemma min_time_lower ls m l : min_time ls = Some m -> l ∈ ls -> m <= hl_t l.
Proof.
  revert m. induction ls as [|x ls IH]; intros m; [done|]. simpl.
  intros [= <-] Hin. apply elem_of_cons in Hin as [->|Hin].
  - destruct (min_time ls); lia.
  - destruct (min_time ls) as [m'|] eqn:Hm;
      [|destruct ls; [by apply elem_of_nil in Hin | done]].
    specialize (IH m' eq_refl Hin). lia.
Qed.

Lemma min_time_nonzero ls m : nonzero_times ls -> min_time ls = Some m -> m <> 0.
Proof.
  revert m. induction ls as [|x ls IH]; intros m Hnz; [done|]. simpl.
  apply Forall_cons in Hnz as [Hx Hnz]. intros [= <-].
  destruct (min_time ls) as [m'|]; [|done].
  specialize (IH m' Hnz eq_refl). lia.
Qed.

(** Scanning lines without a zero timestamp computes the minimum. *)
Lemma scan_oldest_min ls : forall o,
  nonzero_times ls ->
  scan_oldest o ls =
  match min_time ls with
  | None => o
  | Some m => if o =? 0 then m else Z.min o m
  end.
Proof.
  induction ls as [|x ls IH]; intros o Hnz; [done|].
  apply Forall_cons in Hnz as [Hx Hnz]. simpl. rewrite (IH _ Hnz).
  unfold update_oldest.
  destruct (min_time ls) as [m|] eqn:Hm.
  - destruct (Z.eqb_spec o 0) as [->|Ho]; simpl.
    + destruct (Z.eqb_spec (hl_t x) 0); [done|done].
    + destruct (Z.ltb_spec (hl_t x) o).
      * destruct (Z.eqb_spec (hl_t x) 0); [done|lia].
      * destruct (Z.eqb_spec o 0); [done|lia].
  - destruct (Z.eqb_spec o 0) as [->|Ho]; simpl; [done|].
    destruct (Z.ltb_spec (hl_t x) o); lia.
Qed.

Lemma scan_oldest_sentinel ls :
  nonzero_times ls -> scan_oldest 0 ls = oldest_or_sentinel ls.
Proof.
  intros Hnz. rewrite scan_oldest_min by done. unfold oldest_or_sentinel.
  by destruct (min_time ls).
Qed.

(** *** The two loops of hbm_history_del *)

Lemma del_by_time_spec redline rest : forall num oldest,
  Z.of_nat (length rest) <= num <= INT_MAX ->
  del_by_time redline rest num oldest =
    (filter (fun l => redline <= hl_t l) rest,
     num - Z.of_nat (length (filter (fun l => hl_t l < redline) rest)),
     scan_oldest oldest (filter (fun l => redline <= hl_t l) rest)).
Proof.
  induction rest as [|l rest IH]; intros num oldest Hnum.
  - simpl. by rewrite Z.sub_0_r.
  - simpl in Hnum. simpl. destruct (Z.ltb_spec (hl_t l) redline) as [Hlt|Hge].
    + rewrite wrap_int_small by (unfold INT_MIN, INT_MAX in *; lia).
      rewrite IH by lia.
      rewrite (filter_cons_False (fun l => redline <= hl_t l)) by lia.
      rewrite (filter_cons_True (fun l => hl_t l < redline)) by lia.
      simpl. do 2 f_equal. lia.
    + rewrite IH by lia.
      rewrite (filter_cons_True (fun l => redline <= hl_t l)) by lia.
      rewrite (filter_cons_False (fun l => hl_t l < redline)) by lia.
      done.
Qed.

(** Once the count is within the limit the loop only scans. *)
Lemma del_by_count_within max_lines rest : forall num oldest,
  num <= max_lines ->
  del_by_count max_lines rest num oldest = (rest, num, scan_oldest oldest rest).
Proof.
  induction rest as [|l rest IH]; intros num oldest Hle; [done|].
  simpl. destruct (Z.ltb_spec max_lines num); [lia|]. by rewrite IH.
Qed.

Lemma del_by_count_spec max_lines rest : forall oldest,
  Z.of_nat (length rest) <= INT_MAX ->
  let d := Z.to_nat (Z.of_nat (length rest) - max_lines) in
  del_by_count max_lines rest (Z.of_nat (length rest)) oldest =
    (drop d rest, Z.of_nat (length (drop d rest)), scan_oldest oldest (drop d rest)).
Proof.
  induction rest as [|l rest IH]; intros oldest Hlen d.
  - subst d. simpl. by rewrite drop_nil.
  - subst d. cbn [length] in *. cbn [del_by_count].
    destruct (Z.ltb_spec max_lines (Z.of_nat (S (length rest)))) as [Hgt|Hle].
    + rewrite wrap_int_small by (unfold INT_MIN, INT_MAX in *; lia).
      replace (Z.of_nat (S (length rest)) - 1) with (Z.of_nat (length rest)) by lia.
      rewrite IH by lia.
      replace (Z.to_nat (Z.of_nat (S (length rest)) - max_lines))
        with (S (Z.to_nat (Z.of_nat (length rest) - max_lines))) by lia.
      done.
    + rewrite del_by_count_within by done.
      replace (Z.to_nat (Z.of_nat (S (length rest)) - max_lines)) with 0%nat by lia.
      done.
Qed.

Lemma filter_all_keep (P : HistoryLogLine -> Prop) `{!forall l, Decision (P l)} ls :
  Forall P ls -> filter P ls = ls.
Proof.
  induction 1 as [|l ls Hl _ IH]; [done|]. by rewrite filter_cons_True, IH.
Qed.

Lemma filter_all_keep' (P : HistoryLogObject -> Prop) `{!forall h, Decision (P h)} c :
  Forall P c -> filter P c = c.
Proof.
  induction 1 as [|h c Hh _ IH]; [done|]. by rewrite filter_cons_True, IH.
Qed.

Lemma filter_none_keep (P : HistoryLogLine -> Prop) `{!forall l, Decision (P l)} ls :
  Forall (fun l => ~ P l) ls -> filter P ls = [].
Proof.
  induction 1 as [|l ls Hl _ IH]; [done|]. by rewrite filter_cons_False, IH.
Qed.

Lemma nonzero_times_filter (P : HistoryLogLine -> Prop) `{!forall l, Decision (P l)} ls :
  nonzero_times ls -> nonzero_times (filter P ls).
Proof.
  unfold nonzero_times. rewrite !Forall_forall. intros Hall l Hl.
  apply list_elem_of_filter in Hl as [_ Hl]. auto.
Qed.

Lemma nonzero_times_drop n ls : nonzero_times ls -> nonzero_times (drop n ls).
Proof. apply Forall_drop. Qed.

(** An accurate cache tells whether any line is older than the red line. *)
Lemma cache_ok_fresh_enough h redline :
  cache_ok h -> redline <= hlo_oldest_t h -> hlo_lines h <> [] ->
  Forall (fun l => redline <= hl_t l) (hlo_lines h).
Proof.
  intros [_ Ho] Hle Hne. unfold oldest_or_sentinel in Ho.
  destruct (min_time (hlo_lines h)) as [m|] eqn:Hm; [|by destruct (hlo_lines h)].
  simpl in Ho. apply Forall_forall. intros l Hl.
  pose proof (min_time_lower _ _ _ Hm Hl). lia.
Qed.

(** The age pass of hbm_history_del on an object whose cache is accurate
    and whose lines have no zero timestamp. *)
Lemma history_del_age_pass tstime max_lines max_time h :
  cache_ok h -> nonzero_times (hlo_lines h) ->
  Z.of_nat (length (hlo_lines h)) <= INT_MAX ->
  hlo_num_lines h <= max_lines ->
  let redline := wrap_long (tstime - max_time) in
  let h' := history_del_object tstime max_lines max_time h in
  hlo_lines h' = filter (fun l => redline <= hl_t l) (hlo_lines h)
  /\ cache_ok h' /\ hlo_name h' = hlo_name h.
Proof.
  intros Hc Hnz Hlen Hmax redline h'. subst h'. unfold history_del_object.
  fold redline. destruct Hc as [Hn Ho].
  destruct (Z.ltb_spec (hlo_oldest_t h) redline) as [Hold|Hfresh].
  - rewrite del_by_time_spec by lia. simpl.
    pose proof (length_filter (fun l => hl_t l < redline) (hlo_lines h)) as Hf.
    destruct (Z.ltb_spec max_lines
                (hlo_num_lines h -
                 Z.of_nat (length (filter (fun l => hl_t l < redline) (hlo_lines h)))));
      [lia|].
    simpl. split; [done|]. split; [|done]. split; simpl.
    + rewrite Hn.
      assert (forall ls : list HistoryLogLine,
                 length ls = Nat.add (length (filter (fun l => hl_t l < redline) ls))
                                     (length (filter (fun l => redline <= hl_t l) ls))) as Hsplit.
      { induction ls as [|x ls IH]; [done|].
        destruct (Z.lt_ge_cases (hl_t x) redline).
        - rewrite filter_cons_True, (filter_cons_False (fun l => redline <= hl_t l)) by lia.
          simpl. lia.
        - rewrite filter_cons_False, (filter_cons_True (fun l => redline <= hl_t l)) by lia.
          simpl. lia. }
      specialize (Hsplit (hlo_lines h)). lia.
    + apply scan_oldest_sentinel. by apply nonzero_times_filter.
  - destruct (Z.ltb_spec max_lines (hlo_num_lines h)); [lia|].
    split; [|done].
    destruct (decide (hlo_lines h = [])) as [->|Hne]; [done|].
    symmetry. apply filter_all_keep.
    apply cache_ok_fresh_enough; [done|lia|done].
Qed.

(** Neither pass runs while the cached fields are within the limits. *)
Lemma history_del_object_skip tstime max_lines max_time h :
  wrap_long (tstime - max_time) <= hlo_oldest_t h -> hlo_num_lines h <= max_lines ->
  history_del_object tstime max_lines max_time h = h.
Proof.
  intros H1 H2. unfold history_del_object.
  destruct (Z.ltb_spec (hlo_oldest_t h) (wrap_long (tstime - max_time))); [lia|].
  destruct (Z.ltb_spec max_lines (hlo_num_lines h)); [lia|]. done.
Qed.

(** The count pass, when no line is older than the red line. *)
Lemma history_del_count_pass tstime max_time (K : nat) h :
  cache_ok h -> nonzero_times (hlo_lines h) ->
  Z.of_nat (length (hlo_lines h)) <= INT_MAX ->
  Forall (fun l => wrap_long (tstime - max_time) <= hl_t l) (hlo_lines h) ->
  let h' := history_del_object tstime (Z.of_nat K) max_time h in
  hlo_lines h' = drop (length (hlo_lines h) - K) (hlo_lines h)
  /\ length (hlo_lines h') = (length (hlo_lines h) `min` K)%nat
  /\ cache_ok h' /\ hlo_name h' = hlo_name h.
Proof.
  intros Hc Hnz Hlen Hall h'. subst h'. unfold history_del_object.
  set (redline := wrap_long (tstime - max_time)) in *.
  pose proof Hc as [Hn Ho].
  (* the age pass leaves the object as it is *)
  assert ((if hlo_oldest_t h <? redline
           then let '(kept, n, o) :=
                  del_by_time redline (hlo_lines h) (hlo_num_lines h) 0 in
                mk_HistoryLogObject kept n o (hlo_name h)
           else h) = h) as ->.
  { destruct (hlo_oldest_t h <? redline); [|done].
    rewrite del_by_time_spec by lia.
    rewrite (filter_all_keep (fun l => redline <= hl_t l)) by done.
    rewrite (filter_none_keep (fun l => hl_t l < redline)).
    2:{ eapply Forall_impl; [exact Hall|]. simpl. intros; lia. }
    simpl. rewrite Z.sub_0_r, scan_oldest_sentinel by done. rewrite <- Ho.
    by destruct h. }
  destruct (Z.ltb_spec (Z.of_nat K) (hlo_num_lines h)) as [Hgt|Hle].
  - rewrite Hn, del_by_count_spec by lia. simpl.
    replace (Z.to_nat (Z.of_nat (length (hlo_lines h)) - Z.of_nat K))
      with (length (hlo_lines h) - K)%nat by lia.
    split; [done|]. split; [rewrite length_drop; lia|]. split; [|done].
    split; simpl; [done|].
    apply scan_oldest_sentinel. by apply nonzero_times_drop.
  - replace (length (hlo_lines h) - K)%nat with 0%nat by lia. rewrite drop_0.
    split; [done|]. split; [lia|]. done.
Qed.

(** *** Names as C strings *)

Lemma tolower_code c :
  nat_of_ascii (tolower c) =
  if ((65 <=? nat_of_ascii c) && (nat_of_ascii c <=? 90))%nat
  then (nat_of_ascii c + 32)%nat else nat_of_ascii c.
Proof.
  unfold tolower.
  destruct ((65 <=? nat_of_ascii c) && (nat_of_ascii c <=? 90))%nat eqn:H; [|done].
  apply andb_true_iff in H as [H1 H2].
  apply Nat.leb_le in H1, H2. apply nat_ascii_embedding. lia.
Qed.

Lemma tolower_not_nul c : c <> zero -> nat_of_ascii (tolower c) <> 0%nat.
Proof.
  intros Hc. rewrite tolower_code.
  destruct ((65 <=? nat_of_ascii c) && (nat_of_ascii c <=? 90))%nat; [lia|].
  intros H0. apply Hc. rewrite <- (ascii_nat_embedding c), H0. reflexivity.
Qed.

Lemma tolower_code_inj c d :
  nat_of_ascii (tolower c) = nat_of_ascii (tolower d) -> tolower c = tolower d.
Proof.
  intros H. by rewrite <- (ascii_nat_embedding (tolower c)), H, ascii_nat_embedding.
Qed.

(** On C strings strcasecmp answers 0 exactly for equal lower-cased
    strings. *)
Lemma strcasecmp_0_iff a : forall b,
  nul_free a -> nul_free b -> (strcasecmp a b = 0 <-> lower a = lower b).
Proof.
  induction a as [|c a IH]; intros [|d b] Ha Hb; simpl.
  - done.
  - destruct Hb as [Hd _]. pose proof (tolower_not_nul d Hd). split; [lia|done].
  - destruct Ha as [Hc _]. pose proof (tolower_not_nul c Hc). split; [lia|done].
  - destruct Ha as [Hc Ha], Hb as [Hd Hb].
    destruct (Z.eqb_spec (Z.of_nat (nat_of_ascii (tolower c)))
                         (Z.of_nat (nat_of_ascii (tolower d)))) as [Heq|Hne].
    + apply Nat2Z.inj, tolower_code_inj in Heq. rewrite Heq, (IH b Ha Hb).
      split; [by intros -> | by intros [= ->]].
    + split; [lia|]. intros [= Heq _]. by rewrite Heq in Hne.
Qed.

Lemma strcasecmp_refl a : strcasecmp a a = 0.
Proof. induction a as [|c a IH]; simpl; [done|]. by rewrite Z.eqb_refl. Qed.

Lemma strcasecmp_sym a b :
  nul_free a -> nul_free b -> strcasecmp a b = 0 -> strcasecmp b a = 0.
Proof.
  intros Ha Hb. rewrite (strcasecmp_0_iff a b Ha Hb), (strcasecmp_0_iff b a Hb Ha).
  done.
Qed.

Lemma strcasecmp_trans a b c :
  nul_free a -> nul_free b -> nul_free c ->
  strcasecmp a b = 0 -> strcasecmp b c = 0 -> strcasecmp a c = 0.
Proof.
  intros Ha Hb Hc.
  rewrite (strcasecmp_0_iff a b Ha Hb), (strcasecmp_0_iff b c Hb Hc),
    (strcasecmp_0_iff a c Ha Hc).
  congruence.
Qed.

Lemma string_take_short n s : (String.length s <= n)%nat -> string_take n s = s.
Proof.
  revert n. induction s as [|c s IH]; intros [|n] H; simpl in *; try done; try lia.
  f_equal. apply IH. lia.
Qed.

(** *** The hash table *)

Section HistoryStoreFacts.
Variable OBJECTLEN : nat.
Variable siphash_nocase : string -> Z.
Variable server_time_to_unix_time : option string -> Z.
Variable gmtime : Z -> tm.
Variable me_name : string.

Local Abbreviation hashv := (hbm_hash siphash_nocase).
Local Abbreviation find_object := (hbm_find_object siphash_nocase).
Local Abbreviation find_or_add_object := (hbm_find_or_add_object OBJECTLEN siphash_nocase).
Local Abbreviation add_line := (hbm_history_add_line server_time_to_unix_time gmtime).
Local Abbreviation history_add :=
  (hbm_history_add OBJECTLEN siphash_nocase server_time_to_unix_time gmtime).
Local Abbreviation history_del := (hbm_history_del siphash_nocase).
Local Abbreviation history_destroy := (hbm_history_destroy siphash_nocase).
Local Abbreviation delete_object_hlo := (hbm_delete_object_hlo siphash_nocase).
Local Abbreviation history_request := (hbm_history_request siphash_nocase me_name).
Local Abbreviation valid_name := (valid_name OBJECTLEN).
Local Abbreviation new_object := (new_object OBJECTLEN).
Local Abbreviation chain_add := (chain_add OBJECTLEN server_time_to_unix_time gmtime).
Local Abbreviation line_time := (line_time server_time_to_unix_time gmtime).
Local Abbreviation add_lines :=
  (add_lines OBJECTLEN siphash_nocase server_time_to_unix_time gmtime).
Local Abbreviation chain_ok := (chain_ok siphash_nocase).
Local Abbreviation store_ok := (store_ok siphash_nocase).

Lemma hbm_hash_lt object : (hashv object < HISTORY_BACKEND_MEM_HASH_TABLE_SIZE)%nat.
Proof.
  unfold hbm_hash, HISTORY_BACKEND_MEM_HASH_TABLE_SIZE.
  pose proof (Z.mod_pos_bound (siphash_nocase object) (Z.of_nat 1019)). lia.
Qed.

Lemma bucket_alter_eq g hv tbl :
  (hv < length tbl)%nat -> bucket (alter g hv tbl) hv = g (bucket tbl hv).
Proof.
  intros Hlt. unfold bucket.
  destruct (lookup_lt_is_Some_2 tbl hv Hlt) as [c Hc].
  by rewrite list_lookup_alter_eq, Hc.
Qed.

Lemma bucket_alter_ne g hv hv' tbl :
  hv <> hv' -> bucket (alter g hv tbl) hv' = bucket tbl hv'.
Proof. intros Hne. unfold bucket. by rewrite list_lookup_alter_ne. Qed.

Lemma chain_find_Some object c i :
  chain_find object c = Some i ->
  exists h, c !! i = Some h /\ strcasecmp object (hlo_name h) = 0.
Proof.
  revert i. induction c as [|x c IH]; intros i; simpl; [done|].
  destruct (Z.eqb_spec (strcasecmp object (hlo_name x)) 0) as [Heq|Hne].
  - intros [= <-]. by exists x.
  - destruct (chain_find object c) as [j|]; [|done]. intros [= <-].
    destruct (IH j eq_refl) as (h & Hh & Hn). by exists h.
Qed.

Lemma hbm_find_object_deref tbl object hp :
  find_object tbl object = Some hp ->
  hp.1 = hashv object /\
  exists h, deref tbl hp = Some h /\ strcasecmp object (hlo_name h) = 0.
Proof.
  unfold hbm_find_object, deref.
  destruct (chain_find object _) as [i|] eqn:Hi; [|done]. intros [= <-]. simpl.
  split; [done|]. by apply chain_find_Some.
Qed.

(** *** Replay *)

Lemma send_lines_batched batchid ls : forall client,
  can_receive_history client = true -> BadPtr batchid = false ->
  foldl (fun c l => hbm_send_line c l batchid) client ls =
  mk_Client (cl_caps client) (cl_sendq client ++ (batched_line batchid <$> ls)).
Proof.
  induction ls as [|l ls IH]; intros client Hcan Hbad; simpl.
  - rewrite app_nil_r. by destruct client.
  - unfold hbm_send_line at 2. rewrite Hcan, Hbad. rewrite IH; [|done|done].
    simpl. by rewrite <- app_assoc.
Qed.

(** C5 (as the code has it): for a target with a log object and a
    recipient with the server-time and the batch capability,
    hbm_history_request queues one BATCH + line, then every stored line,
    oldest first, each with the batch tag put before its own tags, then one
    BATCH - line.  The filter argument is not consulted: the payload lines
    are all the stored lines. *)
Theorem C5_replay_batches_every_stored_line
    (tbl : HistoryTable) (client : Client) (target : string) (filter : HistoryFilter)
    (fresh_id : string) (hp : nat * nat) :
  hbm_find_object siphash_nocase tbl target = Some hp ->
  HasCapability client "server-time" = true ->
  HasCapability client "batch" = true ->
  fresh_id <> ""%string ->
  exists h,
    deref tbl hp = Some h
    /\ hbm_history_request siphash_nocase me_name fresh_id tbl client target filter =
       (1, mk_Client (cl_caps client)
             (cl_sendq client
              ++ [mk_Message []
                    (":" +:+ me_name +:+ " BATCH +" +:+ fresh_id +:+ " chathistory " +:+ target)]
              ++ (batched_line fresh_id <$> hlo_lines h)
              ++ [mk_Message [] (":" +:+ me_name +:+ " BATCH -" +:+ fresh_id)])).
Proof.
  intros Hfind Hst Hbatch Hid.
  destruct (hbm_find_object_deref tbl target hp Hfind) as (_ & h & Hh & _).
  exists h. split; [done|].
  unfold hbm_history_request. rewrite Hfind. unfold can_receive_history at 1.
  rewrite Hst, Hbatch, Hh. simpl.
  assert (BadPtr fresh_id = false) as Hbad.
  { unfold BadPtr. by apply String.eqb_neq. }
  rewrite send_lines_batched; [|done|done]. rewrite Hbad. simpl.
  unfold sendto_one. simpl. by rewrite <- !app_assoc.
Qed.

(** *** What the calls do to the chain of their bucket *)

Lemma table_bucket tbl o :
  table_ok tbl -> exists c, tbl !! hashv o = Some c /\ bucket tbl (hashv o) = c.
Proof.
  intros Hok. pose proof (hbm_hash_lt o) as Hlt. rewrite <- Hok in Hlt.
  destruct (lookup_lt_is_Some_2 tbl _ Hlt) as [c Hc]. exists c. split; [done|].
  unfold bucket. by rewrite Hc.
Qed.

Lemma history_add_chain now tbl o m l :
  table_ok tbl ->
  (history_add now tbl o m l).2 = alter (chain_add now o m l) (hashv o) tbl.
Proof.
  intros Hok. destruct (table_bucket tbl o Hok) as (c & Hc & Hb).
  unfold hbm_history_add, hbm_find_or_add_object, store. rewrite Hb.
  destruct (chain_find o c) as [i|] eqn:Hi; simpl.
  - apply list_alter_ext; [|done]. intros x Hx. assert (x = c) as -> by congruence.
    unfold chain_add. by rewrite Hi.
  - rewrite list_alter_alter_eq. apply list_alter_ext; [|done].
    intros x Hx. assert (x = c) as -> by congruence.
    unfold chain_add. by rewrite Hi.
Qed.

Lemma history_del_chain tstime tbl o max_lines max_time :
  table_ok tbl ->
  (history_del tstime tbl o max_lines max_time).2 =
  alter (chain_del tstime o max_lines max_time) (hashv o) tbl.
Proof.
  intros Hok. destruct (table_bucket tbl o Hok) as (c & Hc & Hb).
  unfold hbm_history_del, hbm_find_object, store. rewrite Hb.
  destruct (chain_find o c) as [i|] eqn:Hi; simpl.
  - apply list_alter_ext; [|done]. intros x Hx. assert (x = c) as -> by congruence.
    unfold chain_del. by rewrite Hi.
  - symmetry. rewrite <- (list_alter_id id tbl (hashv o)) at 2 by done.
    apply list_alter_ext; [|done]. intros x Hx. assert (x = c) as -> by congruence.
    unfold chain_del. by rewrite Hi.
Qed.

(** *** Forgetting a target *)

Lemma alter_first_eq o f c i :
  chain_find o c = Some i -> alter f i c = alter_first o f c.
Proof.
  revert i. induction c as [|h c IH]; intros i; simpl; [done|].
  destruct (strcasecmp o (hlo_name h) =? 0); [by intros [= <-]|].
  destruct (chain_find o c) as [j|]; [|done]. intros [= <-]. simpl.
  f_equal. by apply IH.
Qed.

Lemma delete_first_eq o c i :
  chain_find o c = Some i -> delete i c = delete_first o c.
Proof.
  revert i. induction c as [|h c IH]; intros i; simpl; [done|].
  destruct (strcasecmp o (hlo_name h) =? 0); [by intros [= <-]|].
  destruct (chain_find o c) as [j|]; [|done]. intros [= <-]. simpl.
  f_equal. by apply IH.
Qed.

Lemma chain_find_None o c :
  chain_find o c = None <-> Forall (fun h => strcasecmp o (hlo_name h) <> 0) c.
Proof.
  induction c as [|h c IH]; simpl; [split; [constructor|done]|].
  destruct (Z.eqb_spec (strcasecmp o (hlo_name h)) 0) as [Heq|Hne].
  - split; [done|]. intros H. by apply Forall_cons in H as [? _].
  - rewrite Forall_cons, <- IH. destruct (chain_find o c); simpl; split; try done.
    by intros [_ ?].
Qed.

Lemma chain_find_filter_None o (P : HistoryLogObject -> Prop)
    `{!forall h, Decision (P h)} c :
  chain_find o c = None -> chain_find o (filter P c) = None.
Proof.
  rewrite !chain_find_None, !Forall_forall. intros Hc h Hh.
  apply list_elem_of_filter in Hh as [_ Hh]. auto.
Qed.

Lemma chain_find_delete_None o c i :
  chain_find o c = None -> chain_find o (delete i c) = None.
Proof.
  rewrite !chain_find_None, !Forall_forall. intros Hc h Hh.
  apply Hc. by eapply list_elem_of_delete_inv.
Qed.

Lemma chain_unique_filter (P : HistoryLogObject -> Prop)
    `{!forall h, Decision (P h)} c :
  chain_unique c -> chain_unique (filter P c).
Proof.
  induction c as [|h c IH]; [done|]. intros [Hh Hc].
  destruct (decide (P h)).
  - rewrite filter_cons_True by done. split; [by apply chain_find_filter_None | auto].
  - rewrite filter_cons_False by done. auto.
Qed.

Lemma chain_unique_delete c i : chain_unique c -> chain_unique (delete i c).
Proof.
  revert i. induction c as [|h c IH]; intros i; [done|]. intros [Hh Hc].
  destruct i as [|i]; simpl; [done|].
  split; [by apply chain_find_delete_None | auto].
Qed.

(** chain_find, and so chain_unique, only look at the names. *)
Lemma chain_find_names o c c' :
  hlo_name <$> c = hlo_name <$> c' -> chain_find o c = chain_find o c'.
Proof.
  revert c'. induction c as [|h c IH]; intros [|h' c'] Hn; try done.
  simpl in *. injection Hn as Hh Hn. rewrite Hh, (IH c' Hn). done.
Qed.

Lemma chain_ok_names hv c c' :
  hlo_name <$> c = hlo_name <$> c' -> chain_ok hv c -> chain_ok hv c'.
Proof.
  revert c'. induction c as [|h c IH]; intros [|h' c'] Hn; try done.
  simpl in Hn. injection Hn as Hh Hn. intros [[Hu Hc] Hall].
  apply Forall_cons in Hall as [Hx Hall].
  destruct (IH c' Hn (conj Hc Hall)) as [Hc' Hall'].
  split.
  - split; [|done]. by rewrite <- Hh, <- (chain_find_names _ c c' Hn).
  - constructor; [by rewrite <- Hh | done].
Qed.

Lemma names_alter f i (c : list HistoryLogObject) :
  (forall h, hlo_name (f h) = hlo_name h) ->
  hlo_name <$> alter f i c = hlo_name <$> c.
Proof.
  intros Hf. revert i. induction c as [|h c IH]; intros [|i]; csimpl; try done.
  - by rewrite Hf.
  - by rewrite IH.
Qed.

Lemma add_line_name now h m l : hlo_name (add_line now h m l) = hlo_name h.
Proof. unfold hbm_history_add_line. by destruct (hbm_duplicate_mtags _ _ _ _). Qed.

Lemma history_del_object_name tstime max_lines max_time h :
  hlo_name (history_del_object tstime max_lines max_time h) = hlo_name h.
Proof.
  unfold history_del_object.
  destruct (hlo_oldest_t h <? _).
  - destruct (del_by_time _ _ _ _) as [[k n] o]. simpl.
    destruct (max_lines <? n); [|done].
    by destruct (del_by_count _ _ _ _) as [[k' n'] o'].
  - destruct (max_lines <? hlo_num_lines h); [|done].
    by destruct (del_by_count _ _ _ _) as [[k' n'] o'].
Qed.

(** *** Adding lines and the cached fields *)

Lemma add_line_lines now h m l :
  exists tags,
    hlo_lines (add_line now h m l) =
    hlo_lines h ++ [mk_HistoryLogLine (line_time now m) tags l].
Proof.
  unfold hbm_history_add_line, line_time.
  destruct (hbm_duplicate_mtags _ _ _ _) as [tags t]. by exists tags.
Qed.

(** hbm_history_add_line keeps the cached fields accurate as long as no
    timestamp is 0. *)
Lemma add_line_cache_ok now h m l :
  cache_ok h -> nonzero_times (hlo_lines h) ->
  Z.of_nat (length (hlo_lines h)) < INT_MAX ->
  line_time now m <> 0 ->
  cache_ok (add_line now h m l)
  /\ nonzero_times (hlo_lines (add_line now h m l))
  /\ length (hlo_lines (add_line now h m l)) = S (length (hlo_lines h)).
Proof.
  intros [Hn Ho] Hnz Hlen Ht. unfold hbm_history_add_line, line_time in *.
  destruct (hbm_duplicate_mtags _ _ _ _) as [tags t]. simpl in *.
  split; [|split].
  - split; simpl.
    + rewrite wrap_int_small by (unfold INT_MIN, INT_MAX in *; lia).
      rewrite length_app. simpl. lia.
    + unfold oldest_or_sentinel in *. rewrite min_time_app. simpl.
      destruct (min_time (hlo_lines h)) as [mn|] eqn:Hm; simpl in Ho; rewrite Ho.
      * pose proof (min_time_nonzero _ _ Hnz Hm).
        destruct (Z.ltb_spec t mn); destruct (Z.eqb_spec mn 0); simpl; lia.
      * by rewrite orb_true_r.
  - apply Forall_app. split; [done|]. by constructor.
  - rewrite length_app. simpl. lia.
Qed.

Lemma new_object_name now o m l :
  valid_name o -> hlo_name (add_line now (new_object o) m l) = o.
Proof.
  intros [Hlen _]. rewrite add_line_name. unfold new_object, strlcpy. simpl.
  rewrite Nat.add_sub. by apply string_take_short.
Qed.

Lemma add_to_head now tbl o m l h c :
  table_ok tbl -> bucket tbl (hashv o) = h :: c -> hlo_name h = o ->
  bucket (history_add now tbl o m l).2 (hashv o) = add_line now h m l :: c.
Proof.
  intros Hok Hb Hname. rewrite history_add_chain by done.
  rewrite bucket_alter_eq by (rewrite Hok; apply hbm_hash_lt).
  rewrite Hb. unfold chain_add. simpl. by rewrite Hname, strcasecmp_refl.
Qed.

Lemma add_to_fresh now tbl o m l :
  table_ok tbl -> find_object tbl o = None ->
  bucket (history_add now tbl o m l).2 (hashv o) =
  add_line now (new_object o) m l :: bucket tbl (hashv o).
Proof.
  intros Hok Hnone. rewrite history_add_chain by done.
  rewrite bucket_alter_eq by (rewrite Hok; apply hbm_hash_lt).
  unfold chain_add. unfold hbm_find_object in Hnone.
  by destruct (chain_find o (bucket tbl (hashv o))).
Qed.

Lemma history_add_table_ok now tbl o m l :
  table_ok tbl -> table_ok (history_add now tbl o m l).2.
Proof.
  intros Hok. rewrite history_add_chain by done. unfold table_ok.
  by rewrite length_alter.
Qed.

Lemma add_lines_existing target calls : forall tbl h c,
  table_ok tbl -> bucket tbl (hashv target) = h :: c -> hlo_name h = target ->
  cache_ok h -> nonzero_times (hlo_lines h) ->
  Z.of_nat (length (hlo_lines h) + length calls) <= INT_MAX ->
  Forall (fun a => line_time (ac_now a) (ac_mtags a) <> 0) calls ->
  exists h',
    bucket (add_lines target calls tbl) (hashv target) = h' :: c
    /\ hlo_name h' = target /\ cache_ok h'
    /\ hl_t <$> hlo_lines h' =
       (hl_t <$> hlo_lines h) ++ ((fun a => line_time (ac_now a) (ac_mtags a)) <$> calls).
Proof.
  induction calls as [|a calls IH]; intros tbl h c Hok Hb Hname Hc Hnz Hlen Ht.
  - exists h. simpl. by rewrite app_nil_r.
  - apply Forall_cons in Ht as [Ha Ht]. simpl in Hlen.
    destruct (add_line_cache_ok (ac_now a) h (ac_mtags a) (ac_line a) Hc Hnz)
      as (Hc1 & Hnz1 & Hlen1); [lia|done|].
    destruct (add_line_lines (ac_now a) h (ac_mtags a) (ac_line a)) as [tags Hl1].
    destruct (IH (history_add (ac_now a) tbl target (ac_mtags a) (ac_line a)).2
                 (add_line (ac_now a) h (ac_mtags a) (ac_line a)) c)
      as (h' & Hb' & Hname' & Hc' & Hts); try done.
    + by apply history_add_table_ok.
    + by apply add_to_head.
    + by rewrite add_line_name.
    + rewrite Hlen1. lia.
    + exists h'. split; [done|]. split; [done|]. split; [done|].
      rewrite Hts, Hl1, fmap_app, <- app_assoc. done.
Qed.

Lemma deref_store tbl hp f h :
  deref tbl hp = Some h -> deref (store tbl hp f) hp = Some (f h).
Proof.
  unfold deref, store, bucket. intros Hd.
  destruct (tbl !! hp.1) as [c|] eqn:Hc; [|done]. simpl in Hd.
  rewrite list_lookup_alter_eq, Hc. simpl. by rewrite list_lookup_alter_eq, Hd.
Qed.

(** After any run of hbm_history_add calls on one target that starts
    without an object for it, the object holds one line per call, in call
    order, its cached count is the number of lines, and its cached oldest
    time is their least timestamp, provided no line has the timestamp
    0, the value that also stands for "no line". *)
Theorem add_lines_cached_fields_accurate
    (target : string) (calls : list AddCall) (tbl0 : HistoryTable) :
  valid_name target -> table_ok tbl0 ->
  hbm_find_object siphash_nocase tbl0 target = None ->
  calls <> [] -> Z.of_nat (length calls) <= INT_MAX ->
  Forall (fun a => line_time (ac_now a) (ac_mtags a) <> 0) calls ->
  exists hp h,
    hbm_find_object siphash_nocase (add_lines target calls tbl0) target = Some hp
    /\ deref (add_lines target calls tbl0) hp = Some h
    /\ hl_t <$> hlo_lines h = (fun a => line_time (ac_now a) (ac_mtags a)) <$> calls
    /\ hlo_num_lines h = Z.of_nat (length (hlo_lines h))
    /\ length (hlo_lines h) = length calls
    /\ hlo_oldest_t h = oldest_or_sentinel (hlo_lines h).
Proof.
  intros Hv Hok Hnone Hne Hlen Ht. destruct calls as [|a calls]; [done|].
  apply Forall_cons in Ht as [Ha Ht]. simpl in Hlen.
  assert (cache_ok (new_object target)) as Hc0 by (by split).
  destruct (add_line_cache_ok (ac_now a) (new_object target) (ac_mtags a) (ac_line a) Hc0)
    as (Hc1 & Hnz1 & Hlen1); [constructor|simpl; unfold INT_MAX; lia|done|].
  destruct (add_line_lines (ac_now a) (new_object target) (ac_mtags a) (ac_line a))
    as [tags Hl1].
  pose proof (add_to_fresh (ac_now a) tbl0 target (ac_mtags a) (ac_line a) Hok Hnone) as Hb.
  destruct (add_lines_existing target calls _ _ _
              (history_add_table_ok (ac_now a) tbl0 target (ac_mtags a) (ac_line a) Hok)
              Hb (new_object_name _ _ _ _ Hv) Hc1 Hnz1)
    as (h' & Hb' & Hname' & Hc' & Hts); [rewrite Hlen1; simpl; lia|done|].
  exists (hashv target, 0%nat), h'. simpl add_lines.
  split. { unfold hbm_find_object. rewrite Hb'. simpl. by rewrite Hname', strcasecmp_refl. }
  split. { unfold deref. simpl. by rewrite Hb'. }
  split. { rewrite Hts, Hl1. done. }
  destruct Hc' as [Hn Ho]. split; [done|]. split; [|done].
  apply (f_equal length) in Hts. rewrite Hl1 in Hts.
  rewrite length_app, !length_fmap in Hts. simpl in *. lia.
Qed.

(** hbm_history_del on a target whose object has accurate cached fields
    and no zero timestamp, with a line limit of K and an age limit that no
    line exceeds: the last [min C K] lines stay, and the cached fields are
    accurate again. *)
Theorem history_del_keeps_the_K_most_recent
    (tbl : HistoryTable) (target : string) (hp : nat * nat) (h : HistoryLogObject)
    (tstime max_time : Z) (K : nat) :
  hbm_find_object siphash_nocase tbl target = Some hp ->
  deref tbl hp = Some h ->
  cache_ok h -> nonzero_times (hlo_lines h) ->
  Z.of_nat (length (hlo_lines h)) <= INT_MAX ->
  Forall (fun l => wrap_long (tstime - max_time) <= hl_t l) (hlo_lines h) ->
  let r := hbm_history_del siphash_nocase tstime tbl target (Z.of_nat K) max_time in
  r.1 = 1
  /\ exists h',
       deref r.2 hp = Some h'
       /\ hlo_lines h' = drop (length (hlo_lines h) - K) (hlo_lines h)
       /\ length (hlo_lines h') = (length (hlo_lines h) `min` K)%nat
       /\ cache_ok h'.
Proof.
  intros Hfind Hd Hc Hnz Hlen Hall r. subst r. unfold hbm_history_del. rewrite Hfind.
  split; [done|]. simpl. eexists. split; [by apply deref_store|].
  destruct (history_del_count_pass tstime max_time K h Hc Hnz Hlen Hall)
    as (H1 & H2 & H3 & _).
  done.
Qed.

(** hbm_history_del on such a target with an age limit and a line limit
    that is not exceeded: exactly the lines older than the red line go, and
    the cached fields are accurate again; while the cached oldest time is
    not below the red line nothing is touched. *)
Theorem history_del_removes_exactly_the_stale_lines
    (tbl : HistoryTable) (target : string) (hp : nat * nat) (h : HistoryLogObject)
    (tstime max_lines max_time : Z) :
  hbm_find_object siphash_nocase tbl target = Some hp ->
  deref tbl hp = Some h ->
  cache_ok h -> nonzero_times (hlo_lines h) ->
  Z.of_nat (length (hlo_lines h)) <= INT_MAX ->
  hlo_num_lines h <= max_lines ->
  let redline := wrap_long (tstime - max_time) in
  let r := hbm_history_del siphash_nocase tstime tbl target max_lines max_time in
  r.1 = 1
  /\ exists h',
       deref r.2 hp = Some h'
       /\ hlo_lines h' = filter (fun l => redline <= hl_t l) (hlo_lines h)
       /\ cache_ok h'
       /\ (redline <= hlo_oldest_t h -> h' = h).
Proof.
  intros Hfind Hd Hc Hnz Hlen Hmax redline r. subst r. unfold hbm_history_del.
  rewrite Hfind. split; [done|]. simpl. eexists. split; [by apply deref_store|].
  destruct (history_del_age_pass tstime max_lines max_time h Hc Hnz Hlen Hmax)
    as (H1 & H2 & _).
  split; [done|]. split; [done|]. intros Hfresh. by apply history_del_object_skip.
Qed.

Section ForgetTarget.
(** The keyed hash is case-insensitive, as its name says. *)
Hypothesis hash_nocase : forall a b,
  nul_free a -> nul_free b -> strcasecmp a b = 0 -> siphash_nocase a = siphash_nocase b.
Variable target : string.
Hypothesis target_valid : valid_name target.

Lemma chain_ok_names_ok hv c : chain_ok hv c -> names_ok c.
Proof. intros [_ H]. eapply Forall_impl; [exact H|]. by intros h [_ ?]. Qed.

Lemma forget_cons_keep h c :
  strcasecmp target (hlo_name h) <> 0 -> forget target (h :: c) = h :: forget target c.
Proof. intros H. unfold forget. by rewrite filter_cons_True. Qed.

Lemma forget_cons_drop h c :
  strcasecmp target (hlo_name h) = 0 -> forget target (h :: c) = forget target c.
Proof. intros H. unfold forget. rewrite filter_cons_False; [done|]. by intros ?. Qed.

(** An object that answers to [o] answers to [target] exactly when [o]
    itself does. *)
Lemma same_target o h :
  nul_free o -> nul_free (hlo_name h) -> strcasecmp o (hlo_name h) = 0 ->
  (strcasecmp target (hlo_name h) = 0 <-> strcasecmp o target = 0).
Proof.
  intros Ho Hh Hoh. destruct target_valid as [_ Ht]. split; intros H.
  - apply (strcasecmp_trans o (hlo_name h) target); try done.
    by apply strcasecmp_sym.
  - apply (strcasecmp_trans target o (hlo_name h)); try done.
    by apply strcasecmp_sym.
Qed.

Lemma forget_alter_first_other o f c :
  nul_free o -> strcasecmp o target <> 0 ->
  (forall h, hlo_name (f h) = hlo_name h) -> names_ok c ->
  forget target (alter_first o f c) = alter_first o f (forget target c).
Proof.
  intros Ho Hot Hf. induction 1 as [|h c Hh Hc IH]; [done|]. simpl.
  destruct (Z.eqb_spec (strcasecmp o (hlo_name h)) 0) as [Hoh|Hoh].
  - assert (strcasecmp target (hlo_name h) <> 0) as Hk.
    { intros Hth. by apply (same_target o h Ho Hh Hoh) in Hth. }
    rewrite !forget_cons_keep by (by rewrite ?Hf). simpl.
    destruct (Z.eqb_spec (strcasecmp o (hlo_name h)) 0); done.
  - destruct (decide (strcasecmp target (hlo_name h) = 0)) as [Hth|Hth].
    + by rewrite !forget_cons_drop.
    + rewrite !forget_cons_keep by done. simpl.
      destruct (Z.eqb_spec (strcasecmp o (hlo_name h)) 0); [done|]. by rewrite IH.
Qed.

Lemma forget_alter_first_target o f c :
  nul_free o -> strcasecmp o target = 0 ->
  (forall h, hlo_name (f h) = hlo_name h) -> names_ok c ->
  forget target (alter_first o f c) = forget target c.
Proof.
  intros Ho Hot Hf. induction 1 as [|h c Hh Hc IH]; [done|]. simpl.
  destruct (Z.eqb_spec (strcasecmp o (hlo_name h)) 0) as [Hoh|Hoh].
  - assert (strcasecmp target (hlo_name h) = 0) as Hk
      by (by apply (same_target o h Ho Hh Hoh)).
    rewrite !forget_cons_drop by (by rewrite ?Hf). done.
  - destruct (decide (strcasecmp target (hlo_name h) = 0)) as [Hth|Hth].
    + by rewrite !forget_cons_drop.
    + rewrite !forget_cons_keep by done. by rewrite IH.
Qed.

Lemma forget_delete_first_other o c :
  nul_free o -> strcasecmp o target <> 0 -> names_ok c ->
  forget target (delete_first o c) = delete_first o (forget target c).
Proof.
  intros Ho Hot. induction 1 as [|h c Hh Hc IH]; [done|]. simpl.
  destruct (Z.eqb_spec (strcasecmp o (hlo_name h)) 0) as [Hoh|Hoh].
  - assert (strcasecmp target (hlo_name h) <> 0) as Hk.
    { intros Hth. by apply (same_target o h Ho Hh Hoh) in Hth. }
    rewrite !forget_cons_keep by done. simpl.
    destruct (Z.eqb_spec (strcasecmp o (hlo_name h)) 0); done.
  - destruct (decide (strcasecmp target (hlo_name h) = 0)) as [Hth|Hth].
    + by rewrite !forget_cons_drop.
    + rewrite !forget_cons_keep by done. simpl.
      destruct (Z.eqb_spec (strcasecmp o (hlo_name h)) 0); [done|]. by rewrite IH.
Qed.

Lemma forget_delete_first_target o c :
  nul_free o -> strcasecmp o target = 0 -> names_ok c ->
  forget target (delete_first o c) = forget target c.
Proof.
  intros Ho Hot. induction 1 as [|h c Hh Hc IH]; [done|]. simpl.
  destruct (Z.eqb_spec (strcasecmp o (hlo_name h)) 0) as [Hoh|Hoh].
  - assert (strcasecmp target (hlo_name h) = 0) as Hk
      by (by apply (same_target o h Ho Hh Hoh)).
    by rewrite forget_cons_drop.
  - destruct (decide (strcasecmp target (hlo_name h) = 0)) as [Hth|Hth].
    + by rewrite !forget_cons_drop.
    + rewrite !forget_cons_keep by done. by rewrite IH.
Qed.

Lemma chain_find_forget_Some o c i :
  nul_free o -> strcasecmp o target <> 0 -> names_ok c ->
  chain_find o c = Some i -> is_Some (chain_find o (forget target c)).
Proof.
  intros Ho Hot Hn. revert i. induction Hn as [|h c Hh Hc IH]; intros i; [done|]. simpl.
  destruct (Z.eqb_spec (strcasecmp o (hlo_name h)) 0) as [Hoh|Hoh].
  - intros _.
    assert (strcasecmp target (hlo_name h) <> 0) as Hk.
    { intros Hth. by apply (same_target o h Ho Hh Hoh) in Hth. }
    rewrite forget_cons_keep by done. simpl.
    destruct (Z.eqb_spec (strcasecmp o (hlo_name h)) 0); [by eexists | done].
  - destruct (chain_find o c) as [j|] eqn:Hj; [|done]. intros _.
    destruct (IH j eq_refl) as [j' Hj'].
    destruct (decide (strcasecmp target (hlo_name h) = 0)) as [Hth|Hth].
    + rewrite forget_cons_drop by done. by eexists.
    + rewrite forget_cons_keep by done. simpl.
      destruct (Z.eqb_spec (strcasecmp o (hlo_name h)) 0); [done|].
      rewrite Hj'. by eexists.
Qed.

Lemma chain_find_forget_None o c :
  chain_find o c = None -> chain_find o (forget target c) = None.
Proof. apply chain_find_filter_None. Qed.

Lemma names_ok_forget c : names_ok c -> names_ok (forget target c).
Proof.
  unfold names_ok, forget. rewrite !Forall_forall. intros H h Hh.
  apply list_elem_of_filter in Hh as [_ Hh]. auto.
Qed.

(** A call for another name does the same to the chain with and without
    the objects of [target]; a call for [target] only touches those. *)
Lemma chain_add_other now o m l c :
  valid_name o -> strcasecmp o target <> 0 -> names_ok c ->
  forget target (chain_add now o m l c) = chain_add now o m l (forget target c).
Proof.
  intros Hv Hot Hn. pose proof Hv as [_ Ho]. unfold chain_add.
  destruct (chain_find o c) as [i|] eqn:Hi.
  - destruct (chain_find_forget_Some o c i Ho Hot Hn Hi) as [j Hj]. rewrite Hj.
    rewrite (alter_first_eq _ _ _ _ Hi), (alter_first_eq _ _ _ _ Hj).
    apply forget_alter_first_other; try done. intros h. apply add_line_name.
  - rewrite (chain_find_forget_None o c Hi).
    apply forget_cons_keep. rewrite new_object_name by done.
    destruct target_valid as [_ Ht]. intros H. apply Hot. by apply strcasecmp_sym.
Qed.

Lemma chain_add_target now o m l c :
  valid_name o -> strcasecmp o target = 0 -> names_ok c ->
  forget target (chain_add now o m l c) = forget target c.
Proof.
  intros Hv Hot Hn. pose proof Hv as [_ Ho]. unfold chain_add.
  destruct (chain_find o c) as [i|] eqn:Hi.
  - rewrite (alter_first_eq _ _ _ _ Hi).
    apply forget_alter_first_target; try done. intros h. apply add_line_name.
  - apply forget_cons_drop. rewrite new_object_name by done.
    destruct target_valid as [_ Ht]. by apply strcasecmp_sym.
Qed.

Lemma chain_del_other tstime o max_lines max_time c :
  nul_free o -> strcasecmp o target <> 0 -> names_ok c ->
  forget target (chain_del tstime o max_lines max_time c) =
  chain_del tstime o max_lines max_time (forget target c).
Proof.
  intros Ho Hot Hn. unfold chain_del.
  destruct (chain_find o c) as [i|] eqn:Hi.
  - destruct (chain_find_forget_Some o c i Ho Hot Hn Hi) as [j Hj]. rewrite Hj.
    rewrite (alter_first_eq _ _ _ _ Hi), (alter_first_eq _ _ _ _ Hj).
    apply forget_alter_first_other; try done.
    intros h. apply history_del_object_name.
  - by rewrite (chain_find_forget_None o c Hi).
Qed.

Lemma chain_del_target tstime o max_lines max_time c :
  nul_free o -> strcasecmp o target = 0 -> names_ok c ->
  forget target (chain_del tstime o max_lines max_time c) = forget target c.
Proof.
  intros Ho Hot Hn. unfold chain_del.
  destruct (chain_find o c) as [i|] eqn:Hi; [|done].
  rewrite (alter_first_eq _ _ _ _ Hi).
  apply forget_alter_first_target; try done. intros h. apply history_del_object_name.
Qed.

Lemma chain_destroy_other o c :
  nul_free o -> strcasecmp o target <> 0 -> names_ok c ->
  forget target (chain_destroy o c) = chain_destroy o (forget target c).
Proof.
  intros Ho Hot Hn. unfold chain_destroy.
  destruct (chain_find o c) as [i|] eqn:Hi.
  - destruct (chain_find_forget_Some o c i Ho Hot Hn Hi) as [j Hj]. rewrite Hj.
    rewrite (delete_first_eq _ _ _ Hi), (delete_first_eq _ _ _ Hj).
    by apply forget_delete_first_other.
  - by rewrite (chain_find_forget_None o c Hi).
Qed.

Lemma chain_destroy_target o c :
  nul_free o -> strcasecmp o target = 0 -> names_ok c ->
  forget target (chain_destroy o c) = forget target c.
Proof.
  intros Ho Hot Hn. unfold chain_destroy.
  destruct (chain_find o c) as [i|] eqn:Hi; [|done].
  rewrite (delete_first_eq _ _ _ Hi). by apply forget_delete_first_target.
Qed.

(** The calls keep the chains well formed. *)
Lemma chain_ok_add now o m l c :
  valid_name o -> chain_ok (hashv o) c -> chain_ok (hashv o) (chain_add now o m l c).
Proof.
  intros Hv Hc. unfold chain_add. destruct (chain_find o c) as [i|] eqn:Hi.
  - eapply chain_ok_names; [|exact Hc]. symmetry. apply names_alter.
    intros h. apply add_line_name.
  - destruct Hc as [Hu Hall]. split.
    + split; [|done]. by rewrite new_object_name.
    + constructor; [|done]. rewrite new_object_name by done. split; [done|apply Hv].
Qed.

Lemma chain_ok_del hv tstime o max_lines max_time c :
  chain_ok hv c -> chain_ok hv (chain_del tstime o max_lines max_time c).
Proof.
  intros Hc. unfold chain_del. destruct (chain_find o c) as [i|]; [|done].
  eapply chain_ok_names; [|exact Hc]. symmetry. apply names_alter.
  intros h. apply history_del_object_name.
Qed.

Lemma chain_ok_destroy hv o c : chain_ok hv c -> chain_ok hv (chain_destroy o c).
Proof.
  intros Hc. unfold chain_destroy. destruct (chain_find o c) as [i|]; [|done].
  destruct Hc as [Hu Hall]. split; [by apply chain_unique_delete|].
  rewrite Forall_forall in *. intros h Hh. apply Hall.
  by eapply list_elem_of_delete_inv.
Qed.

Lemma chain_ok_forget hv c : chain_ok hv c -> chain_ok hv (forget target c).
Proof.
  intros [Hu Hall]. split; [by apply chain_unique_filter|].
  rewrite Forall_forall in *. intros h Hh.
  apply list_elem_of_filter in Hh as [_ Hh]. auto.
Qed.

(** In a well-formed chain destroying [target] removes all that answers
    to it. *)
Lemma delete_first_forget c :
  chain_unique c -> names_ok c -> delete_first target c = forget target c.
Proof.
  destruct target_valid as [_ Ht].
  induction c as [|h c IH]; [done|]. intros [Hu Hc] Hn.
  apply Forall_cons in Hn as [Hh Hn]. simpl.
  destruct (Z.eqb_spec (strcasecmp target (hlo_name h)) 0) as [Hth|Hth].
  - rewrite forget_cons_drop by done. symmetry. apply filter_all_keep'.
    apply chain_find_None in Hu. rewrite Forall_forall in *.
    intros h' Hh' Hth'. apply (Hu h' Hh').
    apply (strcasecmp_trans (hlo_name h) target (hlo_name h')); try done; auto.
    by apply strcasecmp_sym.
  - rewrite forget_cons_keep by done. f_equal. auto.
Qed.

Lemma chain_destroy_forget hv c :
  chain_ok hv c -> chain_destroy target c = forget target c.
Proof.
  intros Hc. pose proof (chain_ok_names_ok hv c Hc) as Hn. destruct Hc as [Hu _].
  unfold chain_destroy. destruct (chain_find target c) as [i|] eqn:Hi.
  - rewrite (delete_first_eq _ _ _ Hi). by apply delete_first_forget.
  - symmetry. apply filter_all_keep'. by apply chain_find_None.
Qed.

(** Objects that answer to [target] only live in its bucket. *)
Lemma forget_other_bucket hv c :
  chain_ok hv c -> hv <> hashv target -> forget target c = c.
Proof.
  destruct target_valid as [_ Ht]. intros [_ Hall] Hhv.
  apply filter_all_keep'. rewrite Forall_forall in *. intros h Hh Hth.
  destruct (Hall h Hh) as [Hhash Hnf]. apply Hhv. rewrite <- Hhash.
  unfold hbm_hash. by rewrite (hash_nocase target (hlo_name h) Ht Hnf Hth).
Qed.

(** *** From chains to the table *)

Lemma fmap_alter_at {A B} (F : A -> B) (g : A -> A) (g' : B -> B) i (l : list A) :
  (forall x, l !! i = Some x -> F (g x) = g' (F x)) ->
  F <$> alter g i l = alter g' i (F <$> l).
Proof.
  revert i. induction l as [|x l IH]; intros [|i] H; csimpl; try done.
  - by rewrite (H x eq_refl).
  - f_equal. apply IH. intros y Hy. by apply H.
Qed.

Lemma store_ok_alter g hv tbl :
  store_ok tbl ->
  (forall c, tbl !! hv = Some c -> chain_ok hv (g c)) ->
  store_ok (alter g hv tbl).
Proof.
  intros [Hlen Hch] Hg. split; [unfold table_ok; by rewrite length_alter|].
  intros hv' c' Hc'. destruct (decide (hv = hv')) as [<-|Hne].
  - rewrite list_lookup_alter_eq in Hc'.
    destruct (tbl !! hv) as [c|] eqn:Hc; [|done]. injection Hc' as <-. by apply Hg.
  - rewrite list_lookup_alter_ne in Hc' by done. by apply Hch.
Qed.

Lemma store_ok_without tbl : store_ok tbl -> store_ok (without target tbl).
Proof.
  intros [Hlen Hch]. split; [unfold table_ok, without; by rewrite length_fmap|].
  intros hv c Hc. unfold without in Hc. rewrite list_lookup_fmap in Hc.
  destruct (tbl !! hv) as [c0|] eqn:Hc0; [|done]. injection Hc as <-.
  apply chain_ok_forget. by apply Hch.
Qed.

Lemma store_ok_init : store_ok history_hash_table_init.
Proof.
  split; [unfold table_ok, history_hash_table_init; by rewrite length_replicate|].
  intros hv c Hc. apply lookup_replicate in Hc as [-> _]. by split.
Qed.

Lemma history_destroy_chain tbl o :
  store_ok tbl ->
  exists r, history_destroy tbl o = Returns (r, alter (chain_destroy o) (hashv o) tbl).
Proof.
  intros [Hok Hch]. destruct (table_bucket tbl o Hok) as (c & Hc & Hb).
  unfold hbm_history_destroy, hbm_find_object. rewrite Hb.
  destruct (chain_find o c) as [i|] eqn:Hi; simpl.
  - destruct (chain_find_Some o c i Hi) as (h & Hh & _).
    unfold hbm_delete_object_hlo, deref. simpl. rewrite Hb, Hh.
    destruct (Hch _ _ Hc) as [_ Hall]. rewrite Forall_forall in Hall.
    destruct (Hall h) as [Hhash _]; [by eapply list_elem_of_lookup_2|].
    rewrite Hhash, Nat.eqb_refl, andb_false_r. simpl. exists 1. do 2 f_equal.
    apply list_alter_ext; [|done]. intros x Hx. assert (x = c) as -> by congruence.
    unfold chain_destroy. by rewrite Hi.
  - exists 0. do 2 f_equal. symmetry.
    rewrite <- (list_alter_id id tbl (hashv o)) at 2 by done.
    apply list_alter_ext; [|done]. intros x Hx. assert (x = c) as -> by congruence.
    unfold chain_destroy. by rewrite Hi.
Qed.

Lemma without_alter_target g tbl hv :
  (forall c, tbl !! hv = Some c -> forget target (g c) = forget target c) ->
  without target (alter g hv tbl) = without target tbl.
Proof.
  intros Hg. unfold without. rewrite (fmap_alter_at _ g id); [|done].
  by apply list_alter_id.
Qed.

Lemma without_alter_other g tbl hv :
  (forall c, tbl !! hv = Some c -> forget target (g c) = g (forget target c)) ->
  without target (alter g hv tbl) = alter g hv (without target tbl).
Proof. intros Hg. unfold without. by apply fmap_alter_at. Qed.

Local Abbreviation run_one := (run_op OBJECTLEN siphash_nocase server_time_to_unix_time gmtime).
Local Abbreviation run_all := (run_ops OBJECTLEN siphash_nocase server_time_to_unix_time gmtime).

(** One call, on the table and on the table without [target]. *)
Lemma run_op_forget tbl op :
  store_ok tbl -> valid_name (op_object op) ->
  exists tbl1,
    run_one tbl op = Returns tbl1 /\ store_ok tbl1
    /\ (strcasecmp (op_object op) target = 0 -> without target tbl1 = without target tbl)
    /\ (strcasecmp (op_object op) target <> 0 ->
          run_one (without target tbl) op = Returns (without target tbl1)).
Proof.
  intros Hok Hv. pose proof Hv as [_ Ho]. pose proof Hok as [Hlen Hch].
  pose proof (store_ok_without tbl Hok) as Hokw. pose proof Hokw as [Hlenw _].
  destruct op as [now o m l | tstime o max_lines max_time | o]; simpl in *.
  - rewrite history_add_chain by done. eexists. split; [reflexivity|].
    split; [apply store_ok_alter; [done|]; intros c Hc; apply chain_ok_add; auto|].
    split; intros Hot.
    + apply without_alter_target. intros c Hc. apply chain_add_target; try done.
      eapply chain_ok_names_ok. eauto.
    + rewrite history_add_chain by done. f_equal. symmetry.
      apply without_alter_other. intros c Hc. apply chain_add_other; try done.
      eapply chain_ok_names_ok. eauto.
  - rewrite history_del_chain by done. eexists. split; [reflexivity|].
    split; [apply store_ok_alter; [done|]; intros c Hc; apply chain_ok_del; eauto|].
    split; intros Hot.
    + apply without_alter_target. intros c Hc. apply chain_del_target; try done.
      eapply chain_ok_names_ok. eauto.
    + rewrite history_del_chain by done. f_equal. symmetry.
      apply without_alter_other. intros c Hc. apply chain_del_other; try done.
      eapply chain_ok_names_ok. eauto.
  - destruct (history_destroy_chain tbl o Hok) as [r Hr]. rewrite Hr. simpl.
    eexists. split; [reflexivity|].
    split; [apply store_ok_alter; [done|]; intros c Hc; apply chain_ok_destroy; eauto|].
    split; intros Hot.
    + apply without_alter_target. intros c Hc. apply chain_destroy_target; try done.
      eapply chain_ok_names_ok. eauto.
    + destruct (history_destroy_chain (without target tbl) o Hokw) as [r' Hr'].
      rewrite Hr'. simpl. f_equal. symmetry.
      apply without_alter_other. intros c Hc. apply chain_destroy_other; try done.
      eapply chain_ok_names_ok. eauto.
Qed.

Lemma run_ops_forget ops : forall tbl,
  store_ok tbl -> Forall (fun op => valid_name (op_object op)) ops ->
  exists tbl1,
    run_all ops tbl = Returns tbl1 /\ store_ok tbl1
    /\ run_all (filter (fun op => strcasecmp (op_object op) target <> 0) ops)
         (without target tbl) = Returns (without target tbl1).
Proof.
  induction ops as [|op ops IH]; intros tbl Hok Hv.
  - exists tbl. split; [done|]. split; [done|]. by rewrite filter_nil.
  - apply Forall_cons in Hv as [Hop Hv].
    destruct (run_op_forget tbl op Hok Hop) as (tbl1 & Hr & Hok1 & Ht & Hn).
    destruct (IH tbl1 Hok1 Hv) as (tbl2 & Hr2 & Hok2 & Hf).
    exists tbl2. simpl run_ops. rewrite Hr. simpl. split; [done|]. split; [done|].
    destruct (decide (strcasecmp (op_object op) target = 0)) as [Heq|Hne].
    + rewrite filter_cons_False by (by intros ?). by rewrite <- (Ht Heq).
    + rewrite filter_cons_True by done. simpl run_ops. rewrite (Hn Hne). done.
Qed.

Lemma without_destroy tbl :
  store_ok tbl -> alter (chain_destroy target) (hashv target) tbl = without target tbl.
Proof.
  intros [Hlen Hch]. apply list_eq. intros hv. unfold without.
  rewrite list_lookup_fmap. destruct (decide (hashv target = hv)) as [<-|Hne].
  - rewrite list_lookup_alter_eq. destruct (tbl !! hashv target) as [c|] eqn:Hc; [|done].
    simpl. f_equal. eapply chain_destroy_forget. eauto.
  - rewrite list_lookup_alter_ne by done. destruct (tbl !! hv) as [c|] eqn:Hc; [|done].
    simpl. f_equal. symmetry. eapply forget_other_bucket; eauto.
Qed.

Lemma without_init : without target history_hash_table_init = history_hash_table_init.
Proof. unfold without, history_hash_table_init. by rewrite fmap_replicate. Qed.

Lemma find_object_without tbl :
  table_ok tbl -> find_object (without target tbl) target = None.
Proof.
  intros Hok. unfold hbm_find_object, bucket, without. rewrite list_lookup_fmap.
  destruct (table_bucket tbl target Hok) as (c & Hc & _). rewrite Hc. simpl.
  assert (chain_find target (forget target c) = None) as ->; [|done].
  apply chain_find_None. unfold forget. apply Forall_forall. intros h Hh.
  by apply list_elem_of_filter in Hh as [? _].
Qed.

(** C9: whatever was done to the store before, on any targets,
    hbm_history_destroy on [target] returns, and leaves exactly the table
    that the same calls without those for [target] build from the empty
    table: no object answers to [target] in it.  So hbm_history_add on
    [target] after the destroy is hbm_history_add on a store that has never
    seen [target], and the object it creates holds the new line only, with
    the cached fields of a first line. *)
Theorem C9_destroy_then_add_as_on_a_store_that_never_saw_the_target
    (ops : list HistoryOp) (now : timeval) (mtags : list MessageTag) (line : string) :
  Forall (fun op => valid_name (op_object op)) ops ->
  exists tbl tbl0 r tbl',
    run_ops OBJECTLEN siphash_nocase server_time_to_unix_time gmtime
      ops history_hash_table_init = Returns tbl
    /\ run_ops OBJECTLEN siphash_nocase server_time_to_unix_time gmtime
         (filter (fun op => strcasecmp (op_object op) target <> 0) ops)
         history_hash_table_init = Returns tbl0
    /\ hbm_history_destroy siphash_nocase tbl target = Returns (r, tbl0)
    /\ rbind (hbm_history_destroy siphash_nocase tbl target)
         (fun d => Returns (hbm_history_add OBJECTLEN siphash_nocase
                              server_time_to_unix_time gmtime now d.2 target mtags line))
       = Returns (hbm_history_add OBJECTLEN siphash_nocase
                    server_time_to_unix_time gmtime now tbl0 target mtags line)
    /\ hbm_find_object siphash_nocase tbl0 target = None
    /\ hbm_history_add OBJECTLEN siphash_nocase server_time_to_unix_time gmtime
         now tbl0 target mtags line = (0, tbl')
    /\ exists hp,
         hbm_find_object siphash_nocase tbl' target = Some hp
         /\ deref tbl' hp =
            Some (hbm_history_add_line server_time_to_unix_time gmtime now
                    (mk_HistoryLogObject [] 0 0 target) mtags line).
Proof.
  intros Hv.
  destruct (run_ops_forget ops history_hash_table_init store_ok_init Hv)
    as (tbl & Hrun & Hok & Hrun0).
  rewrite without_init in Hrun0.
  destruct (history_destroy_chain tbl target Hok) as [r Hr].
  rewrite (without_destroy tbl Hok) in Hr.
  pose proof (store_ok_without tbl Hok) as [Hlen0 _].
  pose proof (find_object_without tbl (proj1 Hok)) as Hnone.
  exists tbl, (without target tbl), r,
    (history_add now (without target tbl) target mtags line).2.
  split; [done|]. split; [done|]. split; [done|].
  split; [by rewrite Hr|]. split; [done|].
  split; [unfold hbm_history_add; by destruct (hbm_find_or_add_object _ _ _ _)|].
  rewrite history_add_chain by done.
  destruct (table_bucket (without target tbl) target Hlen0) as (c & Hc & Hb).
  assert (chain_find target c = None) as Hfc.
  { unfold hbm_find_object in Hnone. rewrite Hb in Hnone.
    by destruct (chain_find target c). }
  assert (new_object target = mk_HistoryLogObject [] 0 0 target) as Hnew.
  { unfold new_object, strlcpy. rewrite Nat.add_sub.
    rewrite string_take_short; [done | apply target_valid]. }
  exists (hashv target, 0%nat).
  assert (bucket (alter (chain_add now target mtags line) (hashv target)
                    (without target tbl)) (hashv target)
          = add_line now (mk_HistoryLogObject [] 0 0 target) mtags line :: c) as Hbk.
  { rewrite bucket_alter_eq, Hb.
    - unfold chain_add. by rewrite Hfc, Hnew.
    - rewrite Hlen0. apply hbm_hash_lt. }
  split.
  - unfold hbm_find_object. rewrite Hbk. simpl.
    by rewrite add_line_name, strcasecmp_refl.
  - unfold deref. simpl. by rewrite Hbk.
Qed.

End ForgetTarget.

(** *** Lookups by name *)

Local Abbreviation stored := (stored_object siphash_nocase).
Local Abbreviation names_fit := (names_fit OBJECTLEN).
Local Abbreviation op_chain := (op_chain OBJECTLEN server_time_to_unix_time gmtime).
Local Abbreviation run_one := (run_op OBJECTLEN siphash_nocase server_time_to_unix_time gmtime).
Local Abbreviation run_all := (run_ops OBJECTLEN siphash_nocase server_time_to_unix_time gmtime).

Lemma chain_lookup_find o c : chain_lookup o c = i ← chain_find o c; c !! i.
Proof.
  induction c as [|h c IH]; [done|]. simpl.
  destruct (strcasecmp o (hlo_name h) =? 0); [done|]. rewrite IH.
  by destruct (chain_find o c).
Qed.

Lemma stored_chain tbl o : stored tbl o = chain_lookup o (bucket tbl (hashv o)).
Proof.
  unfold stored_object, hbm_find_object, deref. rewrite chain_lookup_find.
  by destruct (chain_find o _).
Qed.

Lemma chain_lookup_None o c : chain_lookup o c = None <-> chain_find o c = None.
Proof.
  induction c as [|h c IH]; [done|]. simpl.
  destruct (strcasecmp o (hlo_name h) =? 0); [done|]. rewrite IH.
  by destruct (chain_find o c).
Qed.

Lemma chain_lookup_Some o c h :
  chain_lookup o c = Some h -> h ∈ c /\ strcasecmp o (hlo_name h) = 0.
Proof.
  induction c as [|x c IH]; [done|]. simpl.
  destruct (Z.eqb_spec (strcasecmp o (hlo_name x)) 0).
  - intros [= <-]. split; [left | done].
  - intros H. destruct (IH H). split; [by right | done].
Qed.

(** Two spellings of one name match the same objects; two different names
    never match the same object. *)
Lemma strcasecmp_same o o' x :
  nul_free o -> nul_free o' -> nul_free x -> strcasecmp o' o = 0 ->
  (strcasecmp o' x =? 0) = (strcasecmp o x =? 0).
Proof.
  intros Ho Ho' Hx H.
  destruct (Z.eqb_spec (strcasecmp o' x) 0) as [H1|H1],
           (Z.eqb_spec (strcasecmp o x) 0) as [H2|H2]; try done.
  - destruct H2. apply (strcasecmp_trans o o' x); try done. by apply strcasecmp_sym.
  - destruct H1. by apply (strcasecmp_trans o' o x).
Qed.

Lemma strcasecmp_other o1 o2 x :
  nul_free o1 -> nul_free o2 -> nul_free x ->
  strcasecmp o1 o2 <> 0 -> strcasecmp o1 x = 0 -> strcasecmp o2 x <> 0.
Proof.
  intros H1 H2 Hx Hne H1x H2x. apply Hne.
  apply (strcasecmp_trans o1 x o2); try done. by apply strcasecmp_sym.
Qed.

Lemma chain_find_same o o' c :
  nul_free o -> nul_free o' -> names_ok c -> strcasecmp o' o = 0 ->
  chain_find o' c = chain_find o c.
Proof.
  intros Ho Ho' Hn H. induction Hn as [|h c Hh _ IH]; [done|]. simpl.
  by rewrite (strcasecmp_same o o' _ Ho Ho' Hh H), IH.
Qed.

Lemma chain_lookup_alter_first_same o f c :
  (forall h, hlo_name (f h) = hlo_name h) ->
  chain_lookup o (alter_first o f c) = f <$> chain_lookup o c.
Proof.
  intros Hf. induction c as [|h c IH]; [done|]. simpl.
  destruct (Z.eqb_spec (strcasecmp o (hlo_name h)) 0) as [Heq|Hne]; simpl.
  - rewrite Hf. by destruct (Z.eqb_spec (strcasecmp o (hlo_name h)) 0).
  - by destruct (Z.eqb_spec (strcasecmp o (hlo_name h)) 0).
Qed.

Lemma chain_lookup_alter_first_other o1 o2 f c :
  nul_free o1 -> nul_free o2 -> names_ok c -> strcasecmp o1 o2 <> 0 ->
  (forall h, hlo_name (f h) = hlo_name h) ->
  chain_lookup o2 (alter_first o1 f c) = chain_lookup o2 c.
Proof.
  intros H1 H2 Hn Hne Hf. induction Hn as [|h c Hh _ IH]; [done|]. simpl.
  destruct (Z.eqb_spec (strcasecmp o1 (hlo_name h)) 0) as [Heq|Hneq]; simpl.
  - rewrite Hf. pose proof (strcasecmp_other o1 o2 _ H1 H2 Hh Hne Heq).
    by destruct (Z.eqb_spec (strcasecmp o2 (hlo_name h)) 0).
  - by rewrite IH.
Qed.

Lemma chain_lookup_delete_first_other o1 o2 c :
  nul_free o1 -> nul_free o2 -> names_ok c -> strcasecmp o1 o2 <> 0 ->
  chain_lookup o2 (delete_first o1 c) = chain_lookup o2 c.
Proof.
  intros H1 H2 Hn Hne. induction Hn as [|h c Hh _ IH]; [done|]. simpl.
  destruct (Z.eqb_spec (strcasecmp o1 (hlo_name h)) 0) as [Heq|Hneq]; simpl.
  - pose proof (strcasecmp_other o1 o2 _ H1 H2 Hh Hne Heq).
    by destruct (Z.eqb_spec (strcasecmp o2 (hlo_name h)) 0).
  - by rewrite IH.
Qed.

(** A call for [o1] does not change what a lookup of another name finds
    in the chain. *)
Lemma chain_lookup_op_other op o2 c :
  valid_name (op_object op) -> nul_free o2 -> names_ok c ->
  strcasecmp (op_object op) o2 <> 0 ->
  chain_lookup o2 (op_chain op c) = chain_lookup o2 c.
Proof.
  intros Hv H2 Hn Hne. pose proof Hv as [_ H1].
  destruct op as [now o m l | tstime o max_lines max_time | o]; simpl in *.
  - unfold chain_add. destruct (chain_find o c) as [i|] eqn:Hi.
    + rewrite (alter_first_eq _ _ _ _ Hi).
      apply chain_lookup_alter_first_other; try done. intros h. apply add_line_name.
    + simpl. rewrite new_object_name by done.
      destruct (Z.eqb_spec (strcasecmp o2 o) 0) as [Heq|_]; [|done].
      destruct Hne. by apply strcasecmp_sym.
  - unfold chain_del. destruct (chain_find o c) as [i|] eqn:Hi; [|done].
    rewrite (alter_first_eq _ _ _ _ Hi).
    apply chain_lookup_alter_first_other; try done. intros h. apply history_del_object_name.
  - unfold chain_destroy. destruct (chain_find o c) as [i|] eqn:Hi; [|done].
    rewrite (delete_first_eq _ _ _ Hi). by apply chain_lookup_delete_first_other.
Qed.

(** Every call is a change of the chain of its bucket, and keeps the
    chains well formed. *)
Lemma run_op_chain tbl op :
  store_ok tbl ->
  exists tbl',
    run_one tbl op = Returns tbl'
    /\ tbl' = alter (op_chain op) (hashv (op_object op)) tbl.
Proof.
  intros Hok. pose proof Hok as [Hlen _].
  destruct op as [now o m l | tstime o max_lines max_time | o]; simpl.
  - eexists. split; [reflexivity|]. by apply history_add_chain.
  - eexists. split; [reflexivity|]. by apply history_del_chain.
  - destruct (history_destroy_chain tbl o Hok) as [r Hr]. rewrite Hr. simpl.
    by eexists.
Qed.

Lemma chain_ok_op op c :
  valid_name (op_object op) ->
  chain_ok (hashv (op_object op)) c -> chain_ok (hashv (op_object op)) (op_chain op c).
Proof.
  intros Hv Hc. destruct op as [now o m l | tstime o max_lines max_time | o]; simpl in *.
  - by apply chain_ok_add.
  - by apply chain_ok_del.
  - by apply chain_ok_destroy.
Qed.

Lemma run_op_store_ok tbl op :
  store_ok tbl -> valid_name (op_object op) ->
  exists tbl', run_one tbl op = Returns tbl' /\ store_ok tbl'.
Proof.
  intros Hok Hv. destruct (run_op_chain tbl op Hok) as (tbl' & Hr & ->).
  eexists. split; [done|]. apply store_ok_alter; [done|].
  intros c Hc. apply chain_ok_op; [done|]. by apply Hok.
Qed.


Lemma history_add_store_ok now tbl o m l :
  store_ok tbl -> valid_name o -> store_ok (history_add now tbl o m l).2.
Proof.
  intros Hok Hv.
  destruct (run_op_store_ok tbl (OpAdd now o m l) Hok Hv) as (t & Hr & Ht).
  simpl in Hr. by injection Hr as <-.
Qed.

(** *** The cached fields, whatever the timestamps *)

Lemma length_filter_split (redline : Z) (ls : list HistoryLogLine) :
  length ls = Nat.add (length (filter (fun l => hl_t l < redline) ls))
                      (length (filter (fun l => redline <= hl_t l) ls)).
Proof.
  induction ls as [|x ls IH]; [done|].
  destruct (Z.lt_ge_cases (hl_t x) redline).
  - rewrite filter_cons_True, (filter_cons_False (fun l => redline <= hl_t l)) by lia.
    simpl. lia.
  - rewrite filter_cons_False, (filter_cons_True (fun l => redline <= hl_t l)) by lia.
    simpl. lia.
Qed.

Lemma drop_count {A} (K : Z) (ls : list A) :
  drop (Z.to_nat (Z.of_nat (length ls) - K)) ls = drop (length ls - Z.to_nat K) ls.
Proof.
  destruct (Z.le_gt_cases 0 K).
  - f_equal. lia.
  - rewrite !drop_ge by lia. done.
Qed.

(** hbm_history_del on an object whose line count is exact, in closed
    form: the age sweep, if the cached oldest time lets it run, then the
    cut to the last [max_lines] lines. *)
Lemma history_del_object_closed_form tstime max_lines max_time h :
  hlo_num_lines h = Z.of_nat (length (hlo_lines h)) ->
  Z.of_nat (length (hlo_lines h)) <= INT_MAX ->
  let redline := wrap_long (tstime - max_time) in
  let ls1 := if hlo_oldest_t h <? redline
             then filter (fun l => redline <= hl_t l) (hlo_lines h) else hlo_lines h in
  let ls2 := drop (length ls1 - Z.to_nat max_lines) ls1 in
  history_del_object tstime max_lines max_time h =
  mk_HistoryLogObject ls2 (Z.of_nat (length ls2))
    (if (hlo_oldest_t h <? redline) || (max_lines <? Z.of_nat (length ls1))
     then scan_oldest 0 ls2 else hlo_oldest_t h)
    (hlo_name h).
Proof.
  intros Hn Hlen redline ls1 ls2. subst ls2 ls1. unfold history_del_object. fold redline.
  destruct (Z.ltb_spec (hlo_oldest_t h) redline) as [Hold|Hfresh].
  - rewrite del_by_time_spec by lia. simpl.
    pose proof (length_filter_split redline (hlo_lines h)) as Hsplit.
    pose proof (length_filter (fun l => redline <= hl_t l) (hlo_lines h)) as Hle.
    set (fresh := filter (fun l => redline <= hl_t l) (hlo_lines h)) in *.
    replace (hlo_num_lines h -
             Z.of_nat (length (filter (fun l => hl_t l < redline) (hlo_lines h))))
      with (Z.of_nat (length fresh)) by lia.
    destruct (Z.ltb_spec max_lines (Z.of_nat (length fresh))) as [Hgt|Hwithin].
    + rewrite del_by_count_spec by lia. simpl. by rewrite drop_count.
    + replace (length fresh - Z.to_nat max_lines)%nat with 0%nat by lia.
      by rewrite drop_0.
  - simpl. rewrite Hn.
    destruct (Z.ltb_spec max_lines (Z.of_nat (length (hlo_lines h)))) as [Hgt|Hwithin].
    + rewrite del_by_count_spec by lia. simpl. by rewrite drop_count.
    + replace (length (hlo_lines h) - Z.to_nat max_lines)%nat with 0%nat by lia.
      rewrite drop_0, <- Hn. by destruct h.
Qed.

Lemma history_del_object_consistent tstime max_lines max_time h :
  cache_consistent h -> Z.of_nat (length (hlo_lines h)) <= INT_MAX ->
  cache_consistent (history_del_object tstime max_lines max_time h)
  /\ (length (hlo_lines (history_del_object tstime max_lines max_time h))
      <= length (hlo_lines h))%nat.
Proof.
  intros [Hn Ho] Hlen. rewrite history_del_object_closed_form by done. simpl.
  set (redline := wrap_long (tstime - max_time)).
  pose proof (length_filter (fun l => redline <= hl_t l) (hlo_lines h)) as Hle.
  split; [split; [done|]|]; simpl.
  - destruct (Z.ltb_spec (hlo_oldest_t h) redline); simpl; [done|].
    destruct (Z.ltb_spec max_lines (Z.of_nat (length (hlo_lines h)))); [done|].
    replace (length (hlo_lines h) - Z.to_nat max_lines)%nat with 0%nat by lia.
    by rewrite drop_0.
  - rewrite length_drop. destruct (hlo_oldest_t h <? redline); lia.
Qed.

Lemma scan_oldest_app o ls l : scan_oldest o (ls ++ [l]) = update_oldest (scan_oldest o ls) l.
Proof. unfold scan_oldest. by rewrite foldl_app. Qed.

Lemma add_line_consistent now h m l :
  cache_consistent h -> Z.of_nat (length (hlo_lines h)) < INT_MAX ->
  cache_consistent (add_line now h m l)
  /\ length (hlo_lines (add_line now h m l)) = S (length (hlo_lines h)).
Proof.
  intros [Hn Ho] Hlen. unfold hbm_history_add_line.
  destruct (hbm_duplicate_mtags _ _ _ _) as [tags t]. simpl.
  rewrite length_app. simpl. split; [split; simpl|lia].
  - rewrite wrap_int_small by (unfold INT_MIN, INT_MAX in *; lia).
    rewrite length_app. simpl. lia.
  - rewrite scan_oldest_app, <- Ho. unfold update_oldest. simpl. by rewrite orb_comm.
Qed.

Lemma Forall_alter_impl {A} (Q Q' : A -> Prop) (g : A -> A) i (l : list A) :
  (forall x, Q x -> Q' x) -> (forall x, Q x -> Q' (g x)) ->
  Forall Q l -> Forall Q' (alter g i l).
Proof.
  intros H1 H2 Hl. revert i. induction Hl as [|x l Hx Hl IH]; intros [|i]; simpl.
  - constructor.
  - constructor.
  - constructor; [by apply H2 | by eapply Forall_impl].
  - constructor; [by apply H1 | apply IH].
Qed.

(** What holds of every object before a call holds, suitably weakened,
    of every object after it. *)
Lemma Forall_op_chain (Q Q' : HistoryLogObject -> Prop) op c :
  (forall h, Q h -> Q' h) ->
  (forall now m l h, Q h -> Q' (add_line now h m l)) ->
  (forall tstime K A h, Q h -> Q' (history_del_object tstime K A h)) ->
  (forall now o m l, op = OpAdd now o m l -> Q' (add_line now (new_object o) m l)) ->
  Forall Q c -> Forall Q' (op_chain op c).
Proof.
  intros Himp Hadd Hdel Hnew Hc.
  pose proof (Forall_impl Q Q' c Hc Himp) as Hc'.
  destruct op as [now o m l | tstime o max_lines max_time | o]; simpl.
  - unfold chain_add. destruct (chain_find o c) as [i|].
    + apply (Forall_alter_impl Q Q'); auto.
    + constructor; [by eapply Hnew | done].
  - unfold chain_del. destruct (chain_find o c) as [i|]; [|done].
    apply (Forall_alter_impl Q Q'); auto.
  - unfold chain_destroy. destruct (chain_find o c) as [i|]; [|done].
    by apply Forall_delete.
Qed.

Lemma Forall_run_op (Q Q' : HistoryLogObject -> Prop) tbl op :
  store_ok tbl -> valid_name (op_object op) ->
  (forall h, Q h -> Q' h) ->
  (forall now m l h, Q h -> Q' (add_line now h m l)) ->
  (forall tstime K A h, Q h -> Q' (history_del_object tstime K A h)) ->
  (forall now o m l, op = OpAdd now o m l -> Q' (add_line now (new_object o) m l)) ->
  Forall (Forall Q) tbl ->
  exists tbl', run_one tbl op = Returns tbl' /\ store_ok tbl' /\ Forall (Forall Q') tbl'.
Proof.
  intros Hok Hv Himp Hadd Hdel Hnew Hall.
  destruct (run_op_store_ok tbl op Hok Hv) as (tbl' & Hr & Hok').
  exists tbl'. split; [done|]. split; [done|].
  destruct (run_op_chain tbl op Hok) as (tbl'' & Hr' & Heq).
  rewrite Hr in Hr'. injection Hr' as <-. rewrite Heq.
  apply (Forall_alter_impl (Forall Q) (Forall Q')); [| |done].
  - intros c Hc. by apply (Forall_impl Q Q').
  - intros c Hc. by apply (Forall_op_chain Q Q').
Qed.

(** Names that fit keep the hash table well formed.  After any run of
    hbm_history_add, hbm_history_del and hbm_history_destroy calls from the
    empty table, with names of at most OBJECTLEN bytes: every call has
    returned; the table has its 1019 buckets; every object sits in the
    bucket its own name hashes to; no two objects of a bucket answer to the
    same name; and every stored name is at most OBJECTLEN bytes long. *)
Theorem runs_keep_the_table_well_formed (ops : list HistoryOp) :
  Forall (fun op => valid_name (op_object op)) ops ->
  exists tbl,
    run_ops OBJECTLEN siphash_nocase server_time_to_unix_time gmtime
      ops history_hash_table_init = Returns tbl
    /\ length tbl = HISTORY_BACKEND_MEM_HASH_TABLE_SIZE
    /\ (forall hv c, tbl !! hv = Some c ->
          chain_unique c
          /\ Forall (fun h => hbm_hash siphash_nocase (hlo_name h) = hv) c)
    /\ Forall (Forall (fun h => (String.length (hlo_name h) <= OBJECTLEN)%nat
                               /\ nul_free (hlo_name h))) tbl.
Proof.
  intros Hv.
  assert (forall ops tbl,
            Forall (fun op => valid_name (op_object op)) ops ->
            store_ok tbl -> names_fit tbl ->
            exists tbl', run_all ops tbl = Returns tbl' /\ store_ok tbl' /\ names_fit tbl')
    as Hrun.
  { clear ops Hv. induction ops as [|op ops IH]; intros tbl Hv Hok Hfit.
    - by exists tbl.
    - apply Forall_cons in Hv as [Hop Hv].
      destruct (Forall_run_op
                  (fun h => (String.length (hlo_name h) <= OBJECTLEN)%nat
                            /\ nul_free (hlo_name h))
                  (fun h => (String.length (hlo_name h) <= OBJECTLEN)%nat
                            /\ nul_free (hlo_name h)) tbl op Hok Hop)
        as (tbl1 & Hr & Hok1 & Hfit1); try done.
      + intros now m l h. by rewrite add_line_name.
      + intros tstime K A h. by rewrite history_del_object_name.
      + intros now o m l ->. by rewrite new_object_name.
      + destruct (IH tbl1 Hv Hok1 Hfit1) as (tbl2 & Hr2 & Hok2 & Hfit2).
        exists tbl2. simpl run_ops. rewrite Hr. done. }
  destruct (Hrun ops history_hash_table_init Hv store_ok_init) as (tbl & Hr & Hok & Hfit).
  { apply Forall_replicate. constructor. }
  exists tbl. split; [done|]. destruct Hok as [Hlen Hch]. split; [done|]. split; [|done].
  intros hv c Hc. destruct (Hch hv c Hc) as [Hu Hall]. split; [done|].
  eapply Forall_impl; [exact Hall|]. by intros h [? _].
Qed.

(** The cached fields are a function of the stored lines.  After any
    run of calls from the empty table (names that fit, and no more than
    INT_MAX calls, so that the [int] line count cannot wrap), every object
    has a cached line count equal to the number of its lines, and a cached
    oldest time equal to what the scan of hbm_history_del computes from its
    lines; this holds with or without zero timestamps. *)
Theorem runs_keep_the_cached_fields_consistent (ops : list HistoryOp) :
  Forall (fun op => valid_name (op_object op)) ops ->
  Z.of_nat (length ops) <= INT_MAX ->
  exists tbl,
    run_ops OBJECTLEN siphash_nocase server_time_to_unix_time gmtime
      ops history_hash_table_init = Returns tbl
    /\ Forall (Forall (fun h =>
         hlo_num_lines h = Z.of_nat (length (hlo_lines h))
         /\ hlo_oldest_t h = scan_oldest 0 (hlo_lines h)
         /\ (length (hlo_lines h) <= length ops)%nat)) tbl.
Proof.
  intros Hv Hlen.
  assert (forall ops tbl (n : nat),
            Forall (fun op => valid_name (op_object op)) ops ->
            Z.of_nat (n + length ops) <= INT_MAX ->
            store_ok tbl ->
            Forall (Forall (fun h => cache_consistent h
                                     /\ (length (hlo_lines h) <= n)%nat)) tbl ->
            exists tbl',
              run_all ops tbl = Returns tbl'
              /\ Forall (Forall (fun h => cache_consistent h
                                          /\ (length (hlo_lines h) <= n + length ops)%nat))
                   tbl') as Hrun.
  { clear ops Hv Hlen. induction ops as [|op ops IH]; intros tbl n Hv Hlen Hok Hall.
    - exists tbl. split; [done|]. simpl. by rewrite Nat.add_0_r.
    - apply Forall_cons in Hv as [Hop Hv]. simpl in Hlen.
      destruct (Forall_run_op
                  (fun h => cache_consistent h /\ (length (hlo_lines h) <= n)%nat)
                  (fun h => cache_consistent h /\ (length (hlo_lines h) <= S n)%nat)
                  tbl op Hok Hop)
        as (tbl1 & Hr & Hok1 & Hall1); try done.
      + intros h [Hc Hl]. split; [done|lia].
      + intros now m l h [Hc Hl].
        destruct (add_line_consistent now h m l Hc) as [Hc' Hl']; [lia|].
        split; [done|lia].
      + intros tstime K A h [Hc Hl].
        destruct (history_del_object_consistent tstime K A h Hc) as [Hc' Hl']; [lia|].
        split; [done|lia].
      + intros now o m l _.
        destruct (add_line_consistent now (new_object o) m l) as [Hc' Hl'];
          [by split | simpl; unfold INT_MAX; lia |].
        split; [done|]. rewrite Hl'. simpl. lia.
      + destruct (IH tbl1 (S n) Hv) as (tbl2 & Hr2 & Hall2); [lia|done|done|].
        exists tbl2. simpl run_ops. rewrite Hr. simpl. split; [done|].
        eapply Forall_impl; [exact Hall2|]. intros c Hc.
        eapply Forall_impl; [exact Hc|]. simpl. intros h [? ?]. split; [done|lia]. }
  destruct (Hrun ops history_hash_table_init 0%nat Hv) as (tbl & Hr & Hall);
    [simpl; lia | apply store_ok_init | apply Forall_replicate; constructor |].
  exists tbl. split; [done|].
  eapply Forall_impl; [exact Hall|]. intros c Hc.
  eapply Forall_impl; [exact Hc|]. simpl. by intros h [[? ?] ?].
Qed.

(** The lines within both limits are among the last [K] of the lines that
    pass the age test. *)
Lemma kept_within_both_limits {A} (P : A -> Prop) `{!forall x, Decision (P x)}
    (K : nat) (l : list A) :
  filter P (drop (length l - K) l) `sublist_of` drop (length (filter P l) - K) (filter P l).
Proof.
  set (d := (length l - K)%nat).
  assert (filter P l = filter P (take d l) ++ filter P (drop d l)) as ->
    by (by rewrite <- filter_app, take_drop).
  pose proof (length_filter P (drop d l)) as Hle. rewrite length_drop in Hle.
  rewrite drop_app_le by (rewrite length_app; lia).
  by apply sublist_inserts_l.
Qed.

(** The line limit always holds after hbm_history_del.  On an object whose
    cached line count is exact (which every run keeps), whatever the
    timestamps and the cached oldest time: the lines left are the last
    [max_lines] of the lines that survive the age sweep (of all lines,
    when the cached oldest time keeps the sweep from running); so never
    more than [max_lines] lines stay, none is added or reordered, every
    line that is among the last [max_lines] and not older than the red
    line stays, and the cached line count is exact again. *)
Theorem history_del_enforces_the_line_limit
    (tbl : HistoryTable) (target : string) (hp : nat * nat) (h : HistoryLogObject)
    (tstime max_lines max_time : Z) :
  hbm_find_object siphash_nocase tbl target = Some hp ->
  deref tbl hp = Some h ->
  hlo_num_lines h = Z.of_nat (length (hlo_lines h)) ->
  Z.of_nat (length (hlo_lines h)) <= INT_MAX ->
  let redline := wrap_long (tstime - max_time) in
  let swept := if hlo_oldest_t h <? redline
               then filter (fun l => redline <= hl_t l) (hlo_lines h) else hlo_lines h in
  let r := hbm_history_del siphash_nocase tstime tbl target max_lines max_time in
  r.1 = 1
  /\ exists h',
       deref r.2 hp = Some h'
       /\ hlo_lines h' = drop (length swept - Z.to_nat max_lines) swept
       /\ Z.of_nat (length (hlo_lines h')) <= Z.max 0 max_lines
       /\ hlo_lines h' `sublist_of` hlo_lines h
       /\ filter (fun l => redline <= hl_t l)
            (drop (length (hlo_lines h) - Z.to_nat max_lines) (hlo_lines h))
          `sublist_of` hlo_lines h'
       /\ hlo_num_lines h' = Z.of_nat (length (hlo_lines h'))
       /\ hlo_name h' = hlo_name h.
Proof.
  intros Hfind Hd Hn Hlen redline swept r. subst r. unfold hbm_history_del.
  rewrite Hfind. split; [done|]. simpl. eexists. split; [by apply deref_store|].
  rewrite history_del_object_closed_form by done. simpl. fold redline. fold swept.
  split; [done|]. split; [rewrite length_drop; lia|].
  assert (swept `sublist_of` hlo_lines h) as Hsw.
  { subst swept. destruct (hlo_oldest_t h <? redline); [apply sublist_filter | done]. }
  split; [etrans; [apply sublist_drop | exact Hsw]|]. split; [|done].
  subst swept. destruct (hlo_oldest_t h <? redline).
  - apply kept_within_both_limits.
  - apply sublist_filter.
Qed.

(** *** Names, spellings and other targets *)

Lemma bucket_alter g hv tbl :
  table_ok tbl -> bucket (alter g (hashv hv) tbl) (hashv hv) = g (bucket tbl (hashv hv)).
Proof. intros Hok. apply bucket_alter_eq. rewrite Hok. apply hbm_hash_lt. Qed.

Lemma store_ok_bucket_names tbl hv : store_ok tbl -> names_ok (bucket tbl hv).
Proof.
  intros [_ Hch]. unfold bucket. destruct (tbl !! hv) as [c|] eqn:Hc; [|constructor].
  eapply chain_ok_names_ok. eauto.
Qed.

(** A call for one target leaves every other target as it is.  On a
    well-formed table, hbm_history_add, hbm_history_del or
    hbm_history_destroy for a name returns, and what a lookup of any name
    that differs from it (other than by case) finds afterwards is exactly
    the object it found before, with the same lines and cached fields. *)
Theorem calls_for_one_target_leave_the_others_as_they_are
    (tbl : HistoryTable) (op : HistoryOp) (other : string) :
  store_ok tbl ->
  valid_name (op_object op) ->
  nul_free other ->
  strcasecmp (op_object op) other <> 0 ->
  exists tbl',
    run_op OBJECTLEN siphash_nocase server_time_to_unix_time gmtime tbl op = Returns tbl'
    /\ stored_object siphash_nocase tbl' other = stored_object siphash_nocase tbl other.
Proof.
  intros Hok Hv Ho Hne. destruct (run_op_chain tbl op Hok) as (tbl' & Hr & ->).
  eexists. split; [exact Hr|]. rewrite !stored_chain.
  destruct (decide (hashv (op_object op) = hashv other)) as [Heq|Hneq].
  - rewrite <- Heq, bucket_alter by apply Hok.
    apply chain_lookup_op_other; try done. by apply store_ok_bucket_names.
  - by rewrite bucket_alter_ne.
Qed.

Section Spellings.
(** The keyed hash is case-insensitive, as its name says. *)
Hypothesis hash_nocase : forall a b,
  nul_free a -> nul_free b -> strcasecmp a b = 0 -> siphash_nocase a = siphash_nocase b.

Lemma hashv_same o o' :
  nul_free o -> nul_free o' -> strcasecmp o' o = 0 -> hashv o' = hashv o.
Proof. intros Ho Ho' H. unfold hbm_hash. by rewrite (hash_nocase o' o Ho' Ho H). Qed.

Lemma find_object_same_spelling tbl o o' :
  store_ok tbl -> nul_free o -> nul_free o' -> strcasecmp o' o = 0 ->
  hbm_find_object siphash_nocase tbl o' = hbm_find_object siphash_nocase tbl o.
Proof.
  intros Hok Ho Ho' H. unfold hbm_find_object. rewrite (hashv_same o o' Ho Ho' H).
  by rewrite (chain_find_same o o' _ Ho Ho' (store_ok_bucket_names tbl _ Hok) H).
Qed.

Lemma stored_same_spelling tbl o o' :
  store_ok tbl -> nul_free o -> nul_free o' -> strcasecmp o' o = 0 ->
  stored tbl o' = stored tbl o.
Proof.
  intros Hok Ho Ho' H. unfold stored_object.
  by rewrite (find_object_same_spelling tbl o o' Hok Ho Ho' H).
Qed.

(** Lookups ignore the case of the name.  On a well-formed table two
    names that strcasecmp takes for equal reach the same object:
    hbm_find_object returns the same pointer for both. *)
Theorem lookup_ignores_the_case_of_the_name (tbl : HistoryTable) (o o' : string) :
  store_ok tbl ->
  nul_free o -> nul_free o' ->
  strcasecmp o' o = 0 ->
  hbm_find_object siphash_nocase tbl o' = hbm_find_object siphash_nocase tbl o
  /\ stored_object siphash_nocase tbl o' = stored_object siphash_nocase tbl o.
Proof.
  intros Hok Ho Ho' H.
  split; [by apply find_object_same_spelling | by apply stored_same_spelling].
Qed.

Lemma chain_lookup_add now o m l c :
  valid_name o ->
  chain_lookup o (chain_add now o m l c) =
  Some (add_line now (default (new_object o) (chain_lookup o c)) m l).
Proof.
  intros Hv. unfold chain_add. destruct (chain_find o c) as [i|] eqn:Hi.
  - rewrite (alter_first_eq _ _ _ _ Hi).
    rewrite chain_lookup_alter_first_same by (intros h; apply add_line_name).
    rewrite chain_lookup_find, Hi. simpl.
    destruct (chain_find_Some o c i Hi) as (h & -> & _). done.
  - apply chain_lookup_None in Hi. rewrite Hi. simpl.
    by rewrite new_object_name, strcasecmp_refl.
Qed.

(** Insert then look up.  After hbm_history_add for a name, a lookup
    of that name in any spelling finds an object whose lines are the lines
    that were stored for it before (none, if there was no object) followed
    by the new line, with the text given, the tags and the time
    hbm_duplicate_mtags made for it. *)
Theorem added_line_is_found_last_under_any_spelling
    (now : timeval) (tbl : HistoryTable) (o o' : string) (m : list MessageTag) (l : string) :
  store_ok tbl ->
  valid_name o -> nul_free o' ->
  strcasecmp o' o = 0 ->
  let tbl' := (hbm_history_add OBJECTLEN siphash_nocase server_time_to_unix_time gmtime
                 now tbl o m l).2 in
  let before := match stored_object siphash_nocase tbl o' with
                | Some h => hlo_lines h
                | None => []
                end in
  let made := hbm_duplicate_mtags server_time_to_unix_time gmtime now m in
  exists h',
    stored_object siphash_nocase tbl' o' = Some h'
    /\ hlo_lines h' = before ++ [mk_HistoryLogLine made.2 made.1 l].
Proof.
  intros Hok Hv Ho' H tbl' before made. pose proof Hv as [_ Ho].
  assert (store_ok tbl') as Hok'.
  { destruct (run_op_store_ok tbl (OpAdd now o m l) Hok Hv) as (t & Hr & Ht).
    simpl in Hr. by injection Hr as <-. }
  rewrite (stored_same_spelling tbl' o o' Hok' Ho Ho' H).
  subst before. rewrite (stored_same_spelling tbl o o' Hok Ho Ho' H).
  subst tbl'. rewrite history_add_chain by apply Hok.
  rewrite !stored_chain, bucket_alter by apply Hok.
  rewrite chain_lookup_add by done. eexists. split; [reflexivity|].
  subst made. unfold hbm_history_add_line.
  destruct (hbm_duplicate_mtags _ _ _ _) as [tags t]. simpl.
  by destruct (chain_lookup o (bucket tbl (hashv o))).
Qed.

Lemma chain_find_forget_spelling o o' c :
  nul_free o -> nul_free o' -> names_ok c -> strcasecmp o' o = 0 ->
  chain_find o' (forget o c) = None.
Proof.
  intros Ho Ho' Hn H. apply chain_find_None. unfold forget. apply Forall_forall.
  intros h Hh. apply list_elem_of_filter in Hh as [Hne Hin].
  unfold names_ok in Hn. rewrite Forall_forall in Hn. intros H'. apply Hne.
  apply (strcasecmp_trans o o' (hlo_name h)); auto. by apply strcasecmp_sym.
Qed.

(** Destroying an object, for every spelling.  On a well-formed table
    hbm_history_destroy returns 1 when the name had an object and 0 when
    it had none, in which case the table is unchanged; afterwards no lookup
    of the name, in any spelling, finds an object, and the table is still
    well formed. *)
Theorem destroy_removes_the_object_for_every_spelling
    (tbl : HistoryTable) (o o' : string) :
  store_ok tbl ->
  valid_name o -> nul_free o' ->
  strcasecmp o' o = 0 ->
  exists r tbl',
    hbm_history_destroy siphash_nocase tbl o = Returns (r, tbl')
    /\ (r = 1 <-> hbm_find_object siphash_nocase tbl o <> None)
    /\ (r = 0 <-> hbm_find_object siphash_nocase tbl o = None)
    /\ (r = 0 -> tbl' = tbl)
    /\ hbm_find_object siphash_nocase tbl' o' = None
    /\ store_ok tbl'.
Proof.
  intros Hok Hv Ho' H. pose proof Hv as [_ Ho].
  destruct (history_destroy_chain tbl o Hok) as [r Hr].
  exists r, (alter (chain_destroy o) (hashv o) tbl). split; [exact Hr|].
  assert ((r = 1 /\ hbm_find_object siphash_nocase tbl o <> None)
          \/ (r = 0 /\ hbm_find_object siphash_nocase tbl o = None
              /\ alter (chain_destroy o) (hashv o) tbl = tbl)) as Hcases.
  { unfold hbm_history_destroy in Hr.
    destruct (hbm_find_object siphash_nocase tbl o) as [hp|].
    - left. split; [|done].
      destruct (hbm_delete_object_hlo siphash_nocase tbl hp); simpl in Hr; congruence.
    - right. injection Hr as <- Ht. done. }
  split; [destruct Hcases as [[-> ?]|(-> & ? & ?)]; split; try done; by intros [= ]|].
  split; [destruct Hcases as [[-> ?]|(-> & ? & ?)]; split; try done; by intros [= ]|].
  split; [destruct Hcases as [[-> ?]|(-> & ? & ?)]; [by intros [= ] | done]|].
  split.
  - rewrite (without_destroy hash_nocase o Hv tbl Hok).
    unfold hbm_find_object, bucket, without. rewrite list_lookup_fmap.
    rewrite (hashv_same o o' Ho Ho' H).
    destruct (table_bucket tbl o (proj1 Hok)) as (c & Hc & _). rewrite Hc. simpl.
    rewrite chain_find_forget_spelling; try done.
    eapply chain_ok_names_ok. apply Hok. exact Hc.
  - apply store_ok_alter; [done|]. intros c Hc. apply chain_ok_destroy. by apply Hok.
Qed.

End Spellings.

(** *** Names longer than the name buffer *)

Lemma length_lower s : String.length (lower s) = String.length s.
Proof. induction s as [|c s IH]; simpl; [done | by rewrite IH]. Qed.

Lemma strcasecmp_length a b :
  nul_free a -> nul_free b -> strcasecmp a b = 0 -> String.length a = String.length b.
Proof.
  intros Ha Hb H. apply (strcasecmp_0_iff a b Ha Hb) in H.
  by rewrite <- (length_lower a), H, length_lower.
Qed.

Lemma string_take_length n s : (String.length (string_take n s) <= n)%nat.
Proof.
  revert s. induction n as [|n IH]; intros [|c s]; simpl; try lia.
  specialize (IH s). lia.
Qed.

Lemma string_take_nul_free n s : nul_free s -> nul_free (string_take n s).
Proof.
  revert s. induction n as [|n IH]; intros [|c s]; simpl; try done.
  intros [Hc Hs]. split; [done | by apply IH].
Qed.

Lemma chain_find_overlong o c :
  nul_free o -> (OBJECTLEN < String.length o)%nat ->
  Forall (fun h => (String.length (hlo_name h) <= OBJECTLEN)%nat /\ nul_free (hlo_name h)) c ->
  chain_find o c = None.
Proof.
  intros Ho Hlong Hc. apply chain_find_None.
  eapply Forall_impl; [exact Hc|]. simpl. intros h [Hlen Hn] Heq.
  apply strcasecmp_length in Heq; [lia | done | done].
Qed.

Lemma names_fit_bucket tbl hv :
  names_fit tbl ->
  Forall (fun h => (String.length (hlo_name h) <= OBJECTLEN)%nat /\ nul_free (hlo_name h))
    (bucket tbl hv).
Proof.
  intros Hfit. unfold bucket. destruct (tbl !! hv) as [c|] eqn:Hc; [|constructor].
  unfold names_fit in Hfit. rewrite Forall_forall in Hfit. apply Hfit.
  by eapply list_elem_of_lookup_2.
Qed.

(** A name longer than OBJECTLEN bytes is written but never read.
    hbm_find_or_add_object stores only the first OBJECTLEN bytes of the
    name, and the lookups compare the whole name with what is stored.  So
    in a table whose names fit, hbm_find_object finds nothing for such a
    name, before and after hbm_history_add for it; every such
    hbm_history_add puts one more object into the chain of its bucket; and
    hbm_history_request for the name returns 0 and sends nothing.  The
    names in the table still fit afterwards. *)
Theorem overlong_name_is_stored_but_never_found
    (now : timeval) (tbl : HistoryTable) (o : string) (m : list MessageTag) (l : string)
    (fresh_id : string) (client : Client) (filter : HistoryFilter) :
  table_ok tbl -> names_fit tbl ->
  nul_free o ->
  (OBJECTLEN < String.length o)%nat ->
  let tbl' := (hbm_history_add OBJECTLEN siphash_nocase server_time_to_unix_time gmtime
                 now tbl o m l).2 in
  hbm_find_object siphash_nocase tbl o = None
  /\ hbm_find_object siphash_nocase tbl' o = None
  /\ length (bucket tbl' (hbm_hash siphash_nocase o))
     = S (length (bucket tbl (hbm_hash siphash_nocase o)))
  /\ hbm_history_request siphash_nocase me_name fresh_id tbl' client o filter = (0, client)
  /\ table_ok tbl' /\ names_fit tbl'.
Proof.
  intros Hok Hfit Ho Hlong tbl'.
  assert (forall t, names_fit t -> hbm_find_object siphash_nocase t o = None) as Hnone.
  { intros t Ht. unfold hbm_find_object.
    by rewrite (chain_find_overlong o _ Ho Hlong (names_fit_bucket t _ Ht)). }
  assert (table_ok tbl') as Hok' by (by apply history_add_table_ok).
  assert (names_fit tbl') as Hfit'.
  { subst tbl'. rewrite history_add_chain by done.
    apply (Forall_alter_impl _ _ _ _ _ (fun c H => H)); [|done].
    intros c Hc. unfold chain_add. rewrite (chain_find_overlong o c Ho Hlong Hc).
    constructor; [|done]. rewrite add_line_name. unfold new_object, strlcpy. simpl.
    rewrite Nat.add_sub. split; [apply string_take_length | by apply string_take_nul_free]. }
  split; [by apply Hnone|]. split; [by apply Hnone|]. split.
  { subst tbl'. rewrite history_add_chain, bucket_alter by done.
    unfold chain_add.
    by rewrite (chain_find_overlong o _ Ho Hlong (names_fit_bucket tbl _ Hfit)). }
  split; [|done]. unfold hbm_history_request. by rewrite (Hnone tbl' Hfit').
Qed.

(** *** hbm_history_del and the objects *)

Lemma bucket_store_names tbl hp f hv :
  (forall h, hlo_name (f h) = hlo_name h) ->
  hlo_name <$> bucket (store tbl hp f) hv = hlo_name <$> bucket tbl hv.
Proof.
  intros Hf. unfold store, bucket. destruct (decide (hp.1 = hv)) as [<-|Hne].
  - rewrite list_lookup_alter_eq. destruct (tbl !! hp.1) as [c|]; [|done]. simpl.
    by apply names_alter.
  - by rewrite list_lookup_alter_ne.
Qed.

(** No object is removed or moved by hbm_history_del.  It returns 1
    when the name has an object and 0 when it has none, leaving the table
    unchanged; in both cases hbm_find_object answers every name afterwards
    as it did before, so an object emptied by hbm_history_del stays in the
    table until hbm_history_destroy. *)
Theorem history_del_keeps_every_object
    (tstime : Z) (tbl : HistoryTable) (o : string) (max_lines max_time : Z) (o' : string) :
  let r := hbm_history_del siphash_nocase tstime tbl o max_lines max_time in
  (r.1 = 1 <-> hbm_find_object siphash_nocase tbl o <> None)
  /\ (r.1 = 0 <-> hbm_find_object siphash_nocase tbl o = None)
  /\ (r.1 = 0 -> r.2 = tbl)
  /\ hbm_find_object siphash_nocase r.2 o' = hbm_find_object siphash_nocase tbl o'
  /\ hlo_name <$> stored_object siphash_nocase r.2 o'
     = hlo_name <$> stored_object siphash_nocase tbl o'.
Proof.
  intros r. subst r. unfold hbm_history_del.
  destruct (hbm_find_object siphash_nocase tbl o) as [hp|] eqn:Hf; simpl.
  2:{ repeat split; done. }
  pose proof (bucket_store_names tbl hp (history_del_object tstime max_lines max_time))
    as Hnames.
  split; [done|]. split; [done|]. split; [done|].
  assert (hbm_find_object siphash_nocase
            (store tbl hp (history_del_object tstime max_lines max_time)) o'
          = hbm_find_object siphash_nocase tbl o') as Hsame.
  { unfold hbm_find_object. erewrite chain_find_names; [reflexivity|].
    apply Hnames. intros h. apply history_del_object_name. }
  split; [done|]. rewrite !stored_chain.
  set (c' := bucket (store tbl hp _) (hashv o')).
  set (c := bucket tbl (hashv o')).
  assert (hlo_name <$> c' = hlo_name <$> c) as Hn.
  { apply Hnames. intros h. apply history_del_object_name. }
  clearbody c c'. clear -Hn. revert c' Hn.
  induction c as [|h c IH]; intros [|h' c'] Hn; try done.
  simpl in *. injection Hn as Hh Hn. rewrite Hh.
  destruct (strcasecmp o' (hlo_name h) =? 0); [simpl; by rewrite Hh | by apply IH].
Qed.

(** *** hbm_history_del a second time *)

Lemma scan_oldest_pair ls : forall w s,
  w <= s -> (w = 0 -> s = 0) ->
  scan_oldest w ls <= scan_oldest s ls /\ (scan_oldest w ls = 0 -> scan_oldest s ls = 0).
Proof.
  unfold scan_oldest. induction ls as [|l ls IH]; intros w s Hle Hz; [done|]. simpl.
  apply IH; unfold update_oldest;
    destruct (Z.eqb_spec w 0), (Z.eqb_spec s 0), (Z.ltb_spec (hl_t l) w),
      (Z.ltb_spec (hl_t l) s); simpl; lia.
Qed.

(** Scanning fewer lines never gives an older time, unless no line is
    left. *)
Lemma scan_oldest_drop d ls :
  drop d ls <> [] -> scan_oldest 0 ls <= scan_oldest 0 (drop d ls).
Proof.
  intros Hne. rewrite <- (take_drop d ls) at 1. unfold scan_oldest. rewrite foldl_app.
  destruct (drop d ls) as [|l rest]; [done|]. simpl.
  set (w := foldl update_oldest 0 (take d ls)). clearbody w.
  refine (proj1 (scan_oldest_pair rest _ _ _ _)); unfold update_oldest;
    destruct (Z.eqb_spec w 0), (Z.ltb_spec (hl_t l) w); simpl; lia.
Qed.

Lemma history_del_object_idem tstime max_lines max_time h :
  cache_consistent h -> Z.of_nat (length (hlo_lines h)) <= INT_MAX ->
  history_del_object tstime max_lines max_time
    (history_del_object tstime max_lines max_time h)
  = history_del_object tstime max_lines max_time h.
Proof.
  intros Hc Hlen. pose proof Hc as [Hn Ho].
  pose proof (history_del_object_closed_form tstime max_lines max_time h Hn Hlen) as E1.
  destruct (history_del_object_consistent tstime max_lines max_time h Hc Hlen)
    as [[Hn1 Ho1] Hlen1].
  set (h1 := history_del_object tstime max_lines max_time h) in *.
  set (redline := wrap_long (tstime - max_time)) in *.
  assert (hlo_lines h1 =
          drop (length (if hlo_oldest_t h <? redline
                        then filter (fun l => redline <= hl_t l) (hlo_lines h)
                        else hlo_lines h) - Z.to_nat max_lines)
            (if hlo_oldest_t h <? redline
             then filter (fun l => redline <= hl_t l) (hlo_lines h)
             else hlo_lines h)) as Hl1 by (by rewrite E1).
  assert (length (hlo_lines h1) <= Z.to_nat max_lines)%nat as Hshort.
  { rewrite Hl1, length_drop. lia. }
  assert (hlo_oldest_t h1 < redline ->
          filter (fun l => redline <= hl_t l) (hlo_lines h1) = hlo_lines h1) as Hfresh.
  { intros Hold. destruct (Z.ltb_spec (hlo_oldest_t h) redline) as [Hran|Hnot].
    - apply filter_all_keep. rewrite Hl1. apply Forall_drop. apply Forall_forall.
      intros l Hin. by apply list_elem_of_filter in Hin as [? _].
    - destruct (decide (hlo_lines h1 = [])) as [->|Hne]; [done|].
      rewrite Hl1 in Hne. pose proof (scan_oldest_drop _ _ Hne) as Hmono.
      rewrite <- Hl1, <- Ho1, <- Ho in Hmono. lia. }
  rewrite (history_del_object_closed_form tstime max_lines max_time h1 Hn1) by lia.
  fold redline. simpl.
  assert ((if hlo_oldest_t h1 <? redline
           then filter (fun l => redline <= hl_t l) (hlo_lines h1)
           else hlo_lines h1) = hlo_lines h1) as ->.
  { destruct (Z.ltb_spec (hlo_oldest_t h1) redline); [by apply Hfresh | done]. }
  replace (length (hlo_lines h1) - Z.to_nat max_lines)%nat with 0%nat by lia.
  rewrite drop_0, <- Hn1, <- Ho1.
  destruct ((hlo_oldest_t h1 <? redline) || (max_lines <? hlo_num_lines h1));
    by destruct h1.
Qed.

Lemma store_store tbl hp f g :
  store (store tbl hp f) hp g = store tbl hp (g ∘ f).
Proof.
  unfold store. rewrite list_alter_alter_eq. apply list_alter_ext; [|done].
  intros c _. simpl. by rewrite list_alter_alter_eq.
Qed.

Lemma store_ext tbl hp f g h :
  deref tbl hp = Some h -> f h = g h -> store tbl hp f = store tbl hp g.
Proof.
  unfold deref, store, bucket. intros Hd Hfg.
  apply list_alter_ext; [|done]. intros c Hc. rewrite Hc in Hd. simpl in Hd.
  apply list_alter_ext; [|done]. intros x Hx. congruence.
Qed.

(** A second hbm_history_del changes nothing.  On an object whose
    cached fields are what the code computes from its lines (which every
    run keeps), a second hbm_history_del with the same limits at the same
    time returns 1 and leaves the table exactly as the first one left
    it. *)
Theorem history_del_twice_is_history_del_once
    (tbl : HistoryTable) (target : string) (hp : nat * nat) (h : HistoryLogObject)
    (tstime max_lines max_time : Z) :
  hbm_find_object siphash_nocase tbl target = Some hp ->
  deref tbl hp = Some h ->
  hlo_num_lines h = Z.of_nat (length (hlo_lines h)) ->
  hlo_oldest_t h = scan_oldest 0 (hlo_lines h) ->
  Z.of_nat (length (hlo_lines h)) <= INT_MAX ->
  let once := (hbm_history_del siphash_nocase tstime tbl target max_lines max_time).2 in
  hbm_history_del siphash_nocase tstime once target max_lines max_time = (1, once).
Proof.
  intros Hfind Hd Hn Ho Hlen once.
  assert (once = store tbl hp (history_del_object tstime max_lines max_time)) as Honce.
  { subst once. unfold hbm_history_del. by rewrite Hfind. }
  assert (hbm_find_object siphash_nocase once target = Some hp) as Hfind1.
  { rewrite Honce, <- Hfind. unfold hbm_find_object. erewrite chain_find_names; [reflexivity|].
    apply bucket_store_names. intros x. apply history_del_object_name. }
  unfold hbm_history_del at 1. rewrite Hfind1. f_equal.
  rewrite Honce, store_store. apply (store_ext _ _ _ _ h Hd). simpl.
  by apply history_del_object_idem.
Qed.

(** *** Replay without a batch, and no replay *)

Lemma send_lines_bare ls : forall client,
  can_receive_history client = true ->
  foldl (fun c l => hbm_send_line c l "") client ls =
  mk_Client (cl_caps client) (cl_sendq client ++ (bare_line <$> ls)).
Proof.
  induction ls as [|l ls IH]; intros client Hcan; simpl.
  - rewrite app_nil_r. by destruct client.
  - unfold hbm_send_line at 2. rewrite Hcan. simpl. rewrite IH; [|done].
    simpl. by rewrite <- app_assoc.
Qed.

(** Replay to a recipient without the batch capability.  For a target
    with a log object and a recipient with server-time but without batch,
    hbm_history_request returns 1 and queues exactly the stored lines,
    oldest first, each with its own tags and nothing added: no BATCH
    lines and no batch tag. *)
Theorem replay_without_batch_sends_the_bare_lines
    (tbl : HistoryTable) (client : Client) (target : string) (filter : HistoryFilter)
    (fresh_id : string) (hp : nat * nat) :
  hbm_find_object siphash_nocase tbl target = Some hp ->
  HasCapability client "server-time" = true ->
  HasCapability client "batch" = false ->
  exists h,
    deref tbl hp = Some h
    /\ hbm_history_request siphash_nocase me_name fresh_id tbl client target filter =
       (1, mk_Client (cl_caps client) (cl_sendq client ++ (bare_line <$> hlo_lines h))).
Proof.
  intros Hfind Hst Hbatch.
  destruct (hbm_find_object_deref tbl target hp Hfind) as (_ & h & Hh & _).
  exists h. split; [done|].
  unfold hbm_history_request. rewrite Hfind. unfold can_receive_history at 1.
  rewrite Hst, Hbatch, Hh. simpl. by rewrite send_lines_bare.
Qed.

(** When nothing is replayed.  hbm_history_request returns 0 exactly
    when the target has no log object or the recipient lacks the
    server-time capability, and then it sends nothing; otherwise it
    returns 1.  It never changes the recipient's capabilities and never
    takes back what was queued: the old queue is a prefix of the new
    one. *)
Theorem replay_needs_the_object_and_server_time
    (fresh_id : string) (tbl : HistoryTable) (client : Client) (o : string)
    (filter : HistoryFilter) :
  let r := hbm_history_request siphash_nocase me_name fresh_id tbl client o filter in
  (r.1 = 0 <-> hbm_find_object siphash_nocase tbl o = None
               \/ HasCapability client "server-time" = false)
  /\ (r.1 <> 0 -> r.1 = 1)
  /\ (r.1 = 0 -> r.2 = client)
  /\ cl_caps r.2 = cl_caps client
  /\ cl_sendq client `prefix_of` cl_sendq r.2.
Proof.
  intros r. subst r. unfold hbm_history_request.
  destruct (hbm_find_object siphash_nocase tbl o) as [hp|]; simpl.
  2:{ split; [split; [by left | done]|]. repeat split; done. }
  unfold can_receive_history.
  destruct (HasCapability client "server-time") eqn:Hst; simpl.
  2:{ split; [split; [by right | done]|]. repeat split; done. }
  set (h := default (mk_HistoryLogObject [] 0 0 "") (deref tbl hp)).
  assert (forall batch c ls,
            cl_caps (foldl (fun c l => hbm_send_line c l batch) c ls) = cl_caps c
            /\ cl_sendq c `prefix_of`
                 cl_sendq (foldl (fun c l => hbm_send_line c l batch) c ls)) as Hsend.
  { intros batch c ls. revert c. induction ls as [|l ls IH]; intros c; simpl; [done|].
    destruct (IH (hbm_send_line c l batch)) as [Hc Hq]. rewrite Hc.
    unfold hbm_send_line in *.
    destruct (can_receive_history c); [|done].
    destruct (BadPtr batch); simpl in *;
      (split; [done|]; etrans; [|exact Hq]; by apply prefix_app_r). }
  destruct (HasCapability client "batch"); simpl.
  - destruct (Hsend fresh_id
                (sendto_one client []
                   (":" +:+ me_name +:+ " BATCH +" +:+ fresh_id +:+ " chathistory " +:+ o))
                (hlo_lines h)) as [Hc Hq].
    split; [split; [done | by intros [?|?]]|]. split; [done|]. split; [done|].
    destruct (negb (BadPtr fresh_id)); simpl; rewrite ?Hc; (split; [done|]).
    + etrans; [|apply prefix_app_r; exact Hq]. by apply prefix_app_r.
    + etrans; [|exact Hq]. by apply prefix_app_r.
  - destruct (Hsend ""%string client (hlo_lines h)) as [Hc Hq].
    split; [split; [done | by intros [?|?]]|]. done.
Qed.

(** *** The tags of a stored line *)

Lemma foldl_append_copy (m acc : list MessageTag) :
  foldl (fun acc x => AppendListItem x acc) acc m = acc ++ m.
Proof.
  revert acc. induction m as [|x m IH]; intros acc; simpl; [by rewrite app_nil_r|].
  rewrite IH. unfold AppendListItem. by rewrite <- app_assoc.
Qed.

(** The tags of a stored line.  hbm_history_add_line appends one line
    with the text given; its tags are the caller's tags, in their order,
    with one tag more when the caller gave no "time" tag; in either case
    the line has a "time" tag, and its time is server_time_to_unix_time of
    the value of the first one.  When the caller gave a "time" tag the tags
    are stored as given.  The name of the object is not touched. *)
Theorem added_line_keeps_the_tags_and_gets_a_time
    (now : timeval) (h : HistoryLogObject) (m : list MessageTag) (l : string) :
  let made := hbm_duplicate_mtags server_time_to_unix_time gmtime now m in
  let h' := hbm_history_add_line server_time_to_unix_time gmtime now h m l in
  hlo_lines h' = hlo_lines h ++ [mk_HistoryLogLine made.2 made.1 l]
  /\ m `sublist_of` made.1
  /\ (exists n, find_mtag made.1 "time" = Some n
                /\ made.2 = server_time_to_unix_time (mt_value n))
  /\ (find_mtag m "time" <> None -> made.1 = m)
  /\ (find_mtag m "time" = None -> length made.1 = S (length m))
  /\ hlo_name h' = hlo_name h.
Proof.
  intros made h'. subst h' made. unfold hbm_history_add_line, hbm_duplicate_mtags.
  rewrite foldl_append_copy. simpl.
  destruct (find_mtag m "time") as [n|] eqn:Hn; simpl.
  - split; [done|]. split; [done|]. split; [by exists n|]. done.
  - split; [done|]. split; [by apply sublist_cons|]. split; [by eexists|]. done.
Qed.

End HistoryStoreFacts.

(** *** The backend on concrete inputs *)

Lemma sample_hash_nocase a b :
  nul_free a -> nul_free b -> strcasecmp a b = 0 -> sample_hash a = sample_hash b.
Proof.
  intros Ha Hb H. apply (strcasecmp_0_iff a b Ha Hb) in H.
  unfold sample_hash. by rewrite H.
Defined.

Lemma chat_valid : valid_name sample_OBJECTLEN "#chat".
Proof. split; [vm_compute; lia | by repeat split]. Defined.

(** C2, at an input where the code departs from it: a line stamped with
    the epoch, then one stamped 100 s later.  The object holds both lines
    and a cached count of 2, but its cached oldest time is 100 while the
    oldest line present is at 0. *)
Lemma C2_zero_timestamp_leaves_oldest_time_wrong :
  let tbl := sample_add_lines "#chat"
               [stamped "1970-01-01T00:00:00.000Z" "first";
                stamped "1970-01-01T00:01:40.000Z" "second"] in
  exists h,
    sample_object tbl "#chat" = Some h
    /\ line_times h = [0; 100]
    /\ hlo_num_lines h = 2
    /\ hlo_oldest_t h = 100
    /\ oldest_or_sentinel (hlo_lines h) = 0.
Proof. eexists. split; [vm_compute; reflexivity|]. by vm_compute. Qed.

(** The scenario of the specification: lines at 100, 200 and 300 and a
    limit of two lines. *)
Lemma history_del_scenario_100_200_300 :
  let tbl := sample_add_lines "#chat"
               [stamped "1970-01-01T00:01:40.000Z" "a";
                stamped "1970-01-01T00:03:20.000Z" "b";
                stamped "1970-01-01T00:05:00.000Z" "c"] in
  let tbl' := sample_del 300 tbl "#chat" 2 LONG_MAX in
  exists h,
    sample_object tbl' "#chat" = Some h
    /\ line_times h = [200; 300]
    /\ hlo_num_lines h = 2
    /\ hlo_oldest_t h = 200.
Proof. eexists. split; [vm_compute; reflexivity|]. by vm_compute. Qed.

(** C3, at an input where the code departs from it: lines at 5, 0 and 7
    and a limit of two lines.  The two most recent lines, at 0 and 7, stay
    and the cached count is 2, but the cached oldest time is 7 while the
    oldest surviving line is at 0. *)
Lemma C3_zero_timestamp_survivor_leaves_oldest_time_wrong :
  let tbl := sample_add_lines "#chat"
               [stamped "1970-01-01T00:00:05.000Z" "a";
                stamped "1970-01-01T00:00:00.000Z" "b";
                stamped "1970-01-01T00:00:07.000Z" "c"] in
  let tbl' := sample_del 10 tbl "#chat" 2 1000 in
  exists h,
    sample_object tbl' "#chat" = Some h
    /\ line_times h = [0; 7]
    /\ hlo_num_lines h = 2
    /\ hlo_oldest_t h = 7
    /\ oldest_or_sentinel (hlo_lines h) = 0.
Proof. eexists. split; [vm_compute; reflexivity|]. by vm_compute. Qed.

(** C4, at an input where the code departs from it: lines at 0 and 100,
    the clock at 150, an age limit of 100 s and no line limit.  The red
    line is 50; the cached oldest time is 100, not below it, so the sweep
    does not run and the line at 0, older than the red line, stays. *)
Lemma C4_stale_line_survives_when_cache_is_wrong :
  let tbl := sample_add_lines "#chat"
               [stamped "1970-01-01T00:00:00.000Z" "first";
                stamped "1970-01-01T00:01:40.000Z" "second"] in
  let tbl' := sample_del 150 tbl "#chat" INT_MAX 100 in
  exists h h',
    sample_object tbl "#chat" = Some h
    /\ hlo_oldest_t h = 100
    /\ sample_object tbl' "#chat" = Some h'
    /\ line_times h' = [0; 100]
    /\ filter (fun t => 150 - 100 <= t) (line_times h) = [100].
Proof.
  eexists _, _. split; [vm_compute; reflexivity|]. split; [by vm_compute|].
  split; [vm_compute; reflexivity|]. by vm_compute.
Qed.

Lemma C5_witness :
  hbm_find_object sample_hash sample_table "#chat" = Some (hbm_hash sample_hash "#chat", 0%nat)
  /\ HasCapability sample_client "server-time" = true
  /\ HasCapability sample_client "batch" = true
  /\ "abc"%string <> ""%string
  /\ exists h,
       deref sample_table (hbm_hash sample_hash "#chat", 0%nat) = Some h
       /\ hbm_history_request sample_hash "irc.example.org" "abc" sample_table sample_client
            "#chat" (fun _ _ => false) =
          (1, mk_Client (cl_caps sample_client)
                (cl_sendq sample_client
                 ++ [mk_Message [] (":" +:+ "irc.example.org" +:+ " BATCH +" +:+ "abc"
                                    +:+ " chathistory " +:+ "#chat")]
                 ++ (batched_line "abc" <$> hlo_lines h)
                 ++ [mk_Message [] (":" +:+ "irc.example.org" +:+ " BATCH -" +:+ "abc")])).
Proof.
  assert (hbm_find_object sample_hash sample_table "#chat"
          = Some (hbm_hash sample_hash "#chat", 0%nat)) as Hfind by (by vm_compute).
  split; [exact Hfind|]. split; [reflexivity|]. split; [reflexivity|]. split; [done|].
  exact (C5_replay_batches_every_stored_line sample_hash "irc.example.org" sample_table
           sample_client "#chat" (fun _ _ => false) "abc" _ Hfind eq_refl eq_refl
           ltac:(done)).
Defined.

(** Against C5 as stated: one stored line and a filter that matches
    nothing; the line is sent all the same, between the two batch lines. *)
Lemma C5_counterexample :
  let tbl := sample_add_lines "#chat" [stamped "1970-01-01T00:01:40.000Z" "hello"] in
  let nothing : HistoryFilter := fun _ _ => false in
  exists h,
    sample_object tbl "#chat" = Some h
    /\ length (List.filter (fun l => nothing (hl_t l) (hl_line l)) (hlo_lines h)) = 0%nat
    /\ msg_text <$> cl_sendq (hbm_history_request sample_hash "irc.example.org" "abc"
                                tbl sample_client "#chat" nothing).2
       = [":irc.example.org BATCH +abc chathistory #chat"; "hello";
          ":irc.example.org BATCH -abc"]%string.
Proof. eexists. split; [vm_compute; reflexivity|]. by vm_compute. Qed.

Lemma sample_ops_valid :
  Forall (fun op => valid_name sample_OBJECTLEN (op_object op)) sample_ops.
Proof.
  repeat (apply Forall_cons; split; [split; [vm_compute; lia | by repeat split]|]).
  apply Forall_nil_2.
Defined.

Lemma C9_witness :
  (forall a b, nul_free a -> nul_free b -> strcasecmp a b = 0 ->
               sample_hash a = sample_hash b)
  /\ valid_name sample_OBJECTLEN "#chat"
  /\ Forall (fun op => valid_name sample_OBJECTLEN (op_object op)) sample_ops
  /\ exists tbl tbl0 r,
       run_ops sample_OBJECTLEN sample_hash iso8601_to_unix_time utc_gmtime
         sample_ops history_hash_table_init = Returns tbl
       /\ run_ops sample_OBJECTLEN sample_hash iso8601_to_unix_time utc_gmtime
            (filter (fun op => strcasecmp (op_object op) "#chat" <> 0) sample_ops)
            history_hash_table_init = Returns tbl0
       /\ hbm_history_destroy sample_hash tbl "#chat" = Returns (r, tbl0)
       /\ hbm_find_object sample_hash tbl0 "#chat" = None.
Proof.
  split; [exact sample_hash_nocase|]. split; [exact chat_valid|].
  split; [exact sample_ops_valid|].
  destruct (C9_destroy_then_add_as_on_a_store_that_never_saw_the_target
              sample_OBJECTLEN sample_hash iso8601_to_unix_time utc_gmtime
              sample_hash_nocase "#chat" chat_valid sample_ops at_100 [] "new"
              sample_ops_valid)
    as (tbl & tbl0 & r & tbl' & H1 & H2 & H3 & _ & H4 & _).
  exists tbl, tbl0, r. split; [exact H1|]. split; [exact H2|]. split; [exact H3 | exact H4].
Defined.

Lemma two_calls_nonzero :
  Forall (fun a => line_time iso8601_to_unix_time utc_gmtime (ac_now a) (ac_mtags a) <> 0)
    two_calls.
Proof.
  repeat (apply Forall_cons; split; [by vm_compute|]). apply Forall_nil_2.
Defined.

Lemma init_table_ok : table_ok history_hash_table_init.
Proof. reflexivity. Defined.

Lemma chat_not_in_init : hbm_find_object sample_hash history_hash_table_init "#chat" = None.
Proof. by vm_compute. Defined.

Lemma two_calls_fit : Z.of_nat (length two_calls) <= INT_MAX.
Proof. by vm_compute. Defined.

Lemma add_lines_cached_fields_accurate_witness :
  valid_name sample_OBJECTLEN "#chat"
  /\ table_ok history_hash_table_init
  /\ hbm_find_object sample_hash history_hash_table_init "#chat" = None
  /\ two_calls <> []
  /\ Z.of_nat (length two_calls) <= INT_MAX
  /\ Forall (fun a => line_time iso8601_to_unix_time utc_gmtime (ac_now a) (ac_mtags a) <> 0)
       two_calls
  /\ exists hp h,
       hbm_find_object sample_hash (sample_add_lines "#chat" two_calls) "#chat" = Some hp
       /\ deref (sample_add_lines "#chat" two_calls) hp = Some h
       /\ hl_t <$> hlo_lines h = [100; 200]
       /\ hlo_num_lines h = 2
       /\ hlo_oldest_t h = 100.
Proof.
  assert (two_calls <> []) as Hne by done.
  split; [exact chat_valid|]. split; [exact init_table_ok|].
  split; [exact chat_not_in_init|]. split; [exact Hne|].
  split; [exact two_calls_fit|]. split; [exact two_calls_nonzero|].
  destruct (add_lines_cached_fields_accurate sample_OBJECTLEN sample_hash
              iso8601_to_unix_time utc_gmtime "#chat" two_calls history_hash_table_init
              chat_valid init_table_ok chat_not_in_init Hne two_calls_fit
              two_calls_nonzero)
    as (hp & h & H1 & H2 & H3 & H4 & H5 & H6).
  assert (hl_t <$> hlo_lines h = [100; 200]) as Ht
    by (rewrite H3; vm_compute; reflexivity).
  exists hp, h. split; [exact H1|]. split; [exact H2|]. split; [exact Ht|].
  split; [rewrite H4, H5; vm_compute; reflexivity|].
  rewrite H6. unfold oldest_or_sentinel.
  clear H1 H2 H3 H4 H5 H6.
  destruct (hlo_lines h) as [|l1 [|l2 [|l3 ls]]]; try discriminate Ht.
  injection Ht as Ha Hb. simpl. lia.
Defined.

Lemma three_lines_object_ok :
  hbm_find_object sample_hash three_lines_table "#chat" = Some chat_ptr
  /\ deref three_lines_table chat_ptr = Some three_lines_object
  /\ cache_ok three_lines_object
  /\ nonzero_times (hlo_lines three_lines_object)
  /\ Z.of_nat (length (hlo_lines three_lines_object)) <= INT_MAX.
Proof.
  split; [by vm_compute|]. split; [by vm_compute|]. split; [by split|].
  split; [|by vm_compute].
  repeat (apply Forall_cons; split; [done|]). apply Forall_nil_2.
Defined.

Lemma history_del_keeps_the_K_most_recent_witness :
  hbm_find_object sample_hash three_lines_table "#chat" = Some chat_ptr
  /\ deref three_lines_table chat_ptr = Some three_lines_object
  /\ cache_ok three_lines_object
  /\ nonzero_times (hlo_lines three_lines_object)
  /\ Z.of_nat (length (hlo_lines three_lines_object)) <= INT_MAX
  /\ Forall (fun l => wrap_long (300 - LONG_MAX) <= hl_t l) (hlo_lines three_lines_object)
  /\ exists h',
       deref (hbm_history_del sample_hash 300 three_lines_table "#chat" (Z.of_nat 2)
                LONG_MAX).2 chat_ptr = Some h'
       /\ hlo_lines h' = drop (length (hlo_lines three_lines_object) - 2)
                           (hlo_lines three_lines_object)
       /\ cache_ok h'.
Proof.
  destruct three_lines_object_ok as (H1 & H2 & H3 & H4 & H5).
  assert (Forall (fun l => wrap_long (300 - LONG_MAX) <= hl_t l)
            (hlo_lines three_lines_object)) as H6.
  { repeat (apply Forall_cons; split; [by vm_compute|]). apply Forall_nil_2. }
  repeat (split; [assumption|]).
  destruct (history_del_keeps_the_K_most_recent sample_hash three_lines_table "#chat"
              chat_ptr three_lines_object 300 LONG_MAX 2 H1 H2 H3 H4 H5 H6)
    as (_ & h' & Hd & Hl & _ & Hc).
  exists h'. split; [exact Hd|]. split; [exact Hl | exact Hc].
Defined.

Lemma history_del_removes_exactly_the_stale_lines_witness :
  hbm_find_object sample_hash three_lines_table "#chat" = Some chat_ptr
  /\ deref three_lines_table chat_ptr = Some three_lines_object
  /\ cache_ok three_lines_object
  /\ nonzero_times (hlo_lines three_lines_object)
  /\ Z.of_nat (length (hlo_lines three_lines_object)) <= INT_MAX
  /\ hlo_num_lines three_lines_object <= INT_MAX
  /\ exists h',
       deref (hbm_history_del sample_hash 400 three_lines_table "#chat" INT_MAX 250).2
         chat_ptr = Some h'
       /\ hlo_lines h' =
          filter (fun l => wrap_long (400 - 250) <= hl_t l) (hlo_lines three_lines_object)
       /\ cache_ok h'.
Proof.
  destruct three_lines_object_ok as (H1 & H2 & H3 & H4 & H5).
  assert (hlo_num_lines three_lines_object <= INT_MAX) as H6 by (by vm_compute).
  repeat (split; [assumption|]).
  destruct (history_del_removes_exactly_the_stale_lines sample_hash three_lines_table
              "#chat" chat_ptr three_lines_object 400 INT_MAX 250 H1 H2 H3 H4 H5 H6)
    as (_ & h' & Hd & Hl & Hc & _).
  exists h'. split; [exact Hd|]. split; [exact Hl | exact Hc].
Defined.

(** *** More of the backend on concrete inputs *)

Lemma sample_table_ok : store_ok sample_hash sample_table.
Proof.
  apply (history_add_store_ok sample_OBJECTLEN sample_hash iso8601_to_unix_time utc_gmtime
           at_100 _ "#chat"); [|exact chat_valid].
  apply (history_add_store_ok sample_OBJECTLEN sample_hash iso8601_to_unix_time utc_gmtime
           at_100 _ "#chat"); [|exact chat_valid].
  apply store_ok_init.
Defined.

Lemma other_valid : valid_name sample_OBJECTLEN "#other".
Proof. split; [vm_compute; lia | by repeat split]. Defined.

Lemma busy_table_ok : store_ok sample_hash busy_table.
Proof.
  apply (history_add_store_ok sample_OBJECTLEN sample_hash iso8601_to_unix_time utc_gmtime
           at_100 _ "#other"); [exact sample_table_ok | exact other_valid].
Defined.

Lemma runs_keep_the_table_well_formed_witness :
  Forall (fun op => valid_name sample_OBJECTLEN (op_object op)) sample_ops
  /\ exists tbl,
       run_ops sample_OBJECTLEN sample_hash iso8601_to_unix_time utc_gmtime
         sample_ops history_hash_table_init = Returns tbl
       /\ length tbl = HISTORY_BACKEND_MEM_HASH_TABLE_SIZE.
Proof.
  split; [exact sample_ops_valid|].
  destruct (runs_keep_the_table_well_formed sample_OBJECTLEN sample_hash
              iso8601_to_unix_time utc_gmtime sample_ops sample_ops_valid)
    as (tbl & H1 & H2 & _).
  exists tbl. split; [exact H1 | exact H2].
Defined.

Lemma runs_keep_the_cached_fields_consistent_witness :
  Forall (fun op => valid_name sample_OBJECTLEN (op_object op)) sample_ops
  /\ Z.of_nat (length sample_ops) <= INT_MAX
  /\ exists tbl,
       run_ops sample_OBJECTLEN sample_hash iso8601_to_unix_time utc_gmtime
         sample_ops history_hash_table_init = Returns tbl
       /\ Forall (Forall (fun h =>
            hlo_num_lines h = Z.of_nat (length (hlo_lines h))
            /\ hlo_oldest_t h = scan_oldest 0 (hlo_lines h)
            /\ (length (hlo_lines h) <= length sample_ops)%nat)) tbl.
Proof.
  assert (Z.of_nat (length sample_ops) <= INT_MAX) as Hlen by (by vm_compute).
  split; [exact sample_ops_valid|]. split; [exact Hlen|].
  exact (runs_keep_the_cached_fields_consistent sample_OBJECTLEN sample_hash
           iso8601_to_unix_time utc_gmtime sample_ops sample_ops_valid Hlen).
Defined.

Lemma history_del_enforces_the_line_limit_witness :
  hbm_find_object sample_hash three_lines_table "#chat" = Some chat_ptr
  /\ deref three_lines_table chat_ptr = Some three_lines_object
  /\ hlo_num_lines three_lines_object = Z.of_nat (length (hlo_lines three_lines_object))
  /\ Z.of_nat (length (hlo_lines three_lines_object)) <= INT_MAX
  /\ exists h',
       deref (hbm_history_del sample_hash 400 three_lines_table "#chat" 1 250).2 chat_ptr
         = Some h'
       /\ Z.of_nat (length (hlo_lines h')) <= Z.max 0 1
       /\ hlo_lines h' `sublist_of` hlo_lines three_lines_object.
Proof.
  destruct three_lines_object_ok as (H1 & H2 & _ & _ & H5).
  assert (hlo_num_lines three_lines_object
          = Z.of_nat (length (hlo_lines three_lines_object))) as H3 by reflexivity.
  split; [exact H1|]. split; [exact H2|]. split; [exact H3|]. split; [exact H5|].
  destruct (history_del_enforces_the_line_limit sample_hash three_lines_table "#chat"
              chat_ptr three_lines_object 400 1 250 H1 H2 H3 H5)
    as (_ & h' & Hd & _ & Hle & Hsub & _).
  exists h'. split; [exact Hd|]. split; [exact Hle | exact Hsub].
Defined.

Lemma calls_for_one_target_leave_the_others_as_they_are_witness :
  store_ok sample_hash busy_table
  /\ valid_name sample_OBJECTLEN (op_object (OpDestroy "#chat"))
  /\ nul_free "#other"
  /\ strcasecmp (op_object (OpDestroy "#chat")) "#other" <> 0
  /\ exists tbl',
       run_op sample_OBJECTLEN sample_hash iso8601_to_unix_time utc_gmtime busy_table
         (OpDestroy "#chat") = Returns tbl'
       /\ stored_object sample_hash tbl' "#other" = stored_object sample_hash busy_table "#other".
Proof.
  assert (strcasecmp (op_object (OpDestroy "#chat")) "#other" <> 0) as Hne by (by vm_compute).
  split; [exact busy_table_ok|]. split; [exact chat_valid|].
  split; [exact (proj2 other_valid)|]. split; [exact Hne|].
  exact (calls_for_one_target_leave_the_others_as_they_are sample_OBJECTLEN sample_hash
           iso8601_to_unix_time utc_gmtime busy_table (OpDestroy "#chat") "#other"
           busy_table_ok chat_valid (proj2 other_valid) Hne).
Defined.

Lemma upper_chat_nul_free : nul_free "#CHAT".
Proof. by repeat split. Defined.

Lemma lookup_ignores_the_case_of_the_name_witness :
  (forall a b, nul_free a -> nul_free b -> strcasecmp a b = 0 ->
               sample_hash a = sample_hash b)
  /\ store_ok sample_hash sample_table
  /\ nul_free "#chat" /\ nul_free "#CHAT"
  /\ strcasecmp "#CHAT" "#chat" = 0
  /\ hbm_find_object sample_hash sample_table "#CHAT"
     = hbm_find_object sample_hash sample_table "#chat".
Proof.
  split; [exact sample_hash_nocase|]. split; [exact sample_table_ok|].
  split; [exact (proj2 chat_valid)|]. split; [exact upper_chat_nul_free|].
  split; [reflexivity|].
  exact (proj1 (lookup_ignores_the_case_of_the_name sample_hash sample_hash_nocase
                  sample_table "#chat" "#CHAT" sample_table_ok (proj2 chat_valid)
                  upper_chat_nul_free eq_refl)).
Defined.

Lemma added_line_is_found_last_under_any_spelling_witness :
  (forall a b, nul_free a -> nul_free b -> strcasecmp a b = 0 ->
               sample_hash a = sample_hash b)
  /\ store_ok sample_hash sample_table
  /\ valid_name sample_OBJECTLEN "#chat" /\ nul_free "#CHAT"
  /\ strcasecmp "#CHAT" "#chat" = 0
  /\ exists h',
       stored_object sample_hash
         (hbm_history_add sample_OBJECTLEN sample_hash iso8601_to_unix_time utc_gmtime
            at_100 sample_table "#chat" [] "again").2 "#CHAT" = Some h'
       /\ hl_line <$> hlo_lines h' = ["hello"; "world"; "again"]%string.
Proof.
  split; [exact sample_hash_nocase|]. split; [exact sample_table_ok|].
  split; [exact chat_valid|]. split; [exact upper_chat_nul_free|]. split; [reflexivity|].
  destruct (added_line_is_found_last_under_any_spelling sample_OBJECTLEN sample_hash
              iso8601_to_unix_time utc_gmtime sample_hash_nocase at_100 sample_table
              "#chat" "#CHAT" [] "again" sample_table_ok chat_valid upper_chat_nul_free
              eq_refl) as (h' & Hs & Hl).
  exists h'. split; [exact Hs|]. rewrite Hl. by vm_compute.
Defined.

Lemma destroy_removes_the_object_for_every_spelling_witness :
  (forall a b, nul_free a -> nul_free b -> strcasecmp a b = 0 ->
               sample_hash a = sample_hash b)
  /\ store_ok sample_hash sample_table
  /\ valid_name sample_OBJECTLEN "#chat" /\ nul_free "#CHAT"
  /\ strcasecmp "#CHAT" "#chat" = 0
  /\ exists r tbl',
       hbm_history_destroy sample_hash sample_table "#chat" = Returns (r, tbl')
       /\ hbm_find_object sample_hash tbl' "#CHAT" = None.
Proof.
  split; [exact sample_hash_nocase|]. split; [exact sample_table_ok|].
  split; [exact chat_valid|]. split; [exact upper_chat_nul_free|]. split; [reflexivity|].
  destruct (destroy_removes_the_object_for_every_spelling sample_OBJECTLEN sample_hash
              sample_hash_nocase sample_table "#chat" "#CHAT" sample_table_ok chat_valid
              upper_chat_nul_free eq_refl) as (r & tbl' & Hd & _ & _ & _ & Hf & _).
  exists r, tbl'. split; [exact Hd | exact Hf].
Defined.

Lemma long_name_nul_free : nul_free long_name.
Proof. by repeat split. Defined.

Lemma init_names_fit : names_fit sample_OBJECTLEN history_hash_table_init.
Proof. apply Forall_replicate. constructor. Defined.

Lemma overlong_name_is_stored_but_never_found_witness :
  table_ok history_hash_table_init
  /\ names_fit sample_OBJECTLEN history_hash_table_init
  /\ nul_free long_name
  /\ (sample_OBJECTLEN < String.length long_name)%nat
  /\ (let tbl' := (hbm_history_add sample_OBJECTLEN sample_hash iso8601_to_unix_time
                     utc_gmtime at_100 history_hash_table_init long_name [] "lost").2 in
      hbm_find_object sample_hash tbl' long_name = None
      /\ hbm_history_request sample_hash "irc.example.org" "abc" tbl' sample_client
           long_name (fun _ _ => true) = (0, sample_client)).
Proof.
  assert (sample_OBJECTLEN < String.length long_name)%nat as Hlong by (vm_compute; lia).
  split; [exact init_table_ok|]. split; [exact init_names_fit|].
  split; [exact long_name_nul_free|]. split; [exact Hlong|].
  destruct (overlong_name_is_stored_but_never_found sample_OBJECTLEN sample_hash
              iso8601_to_unix_time utc_gmtime "irc.example.org" at_100
              history_hash_table_init long_name [] "lost" "abc" sample_client
              (fun _ _ => true) init_table_ok init_names_fit long_name_nul_free Hlong)
    as (_ & H2 & _ & H4 & _).
  split; [exact H2 | exact H4].
Defined.

Lemma replay_without_batch_sends_the_bare_lines_witness :
  hbm_find_object sample_hash sample_table "#chat" = Some (hbm_hash sample_hash "#chat", 0%nat)
  /\ HasCapability plain_client "server-time" = true
  /\ HasCapability plain_client "batch" = false
  /\ exists h,
       deref sample_table (hbm_hash sample_hash "#chat", 0%nat) = Some h
       /\ hbm_history_request sample_hash "irc.example.org" "abc" sample_table plain_client
            "#chat" (fun _ _ => true) =
          (1, mk_Client (cl_caps plain_client)
                (cl_sendq plain_client ++ (bare_line <$> hlo_lines h))).
Proof.
  assert (hbm_find_object sample_hash sample_table "#chat"
          = Some (hbm_hash sample_hash "#chat", 0%nat)) as Hfind by (by vm_compute).
  split; [exact Hfind|]. split; [reflexivity|]. split; [reflexivity|].
  exact (replay_without_batch_sends_the_bare_lines sample_hash "irc.example.org" sample_table
           plain_client "#chat" (fun _ _ => true) "abc" _ Hfind eq_refl eq_refl).
Defined.

Lemma history_del_twice_is_history_del_once_witness :
  hbm_find_object sample_hash three_lines_table "#chat" = Some chat_ptr
  /\ deref three_lines_table chat_ptr = Some three_lines_object
  /\ hlo_num_lines three_lines_object = Z.of_nat (length (hlo_lines three_lines_object))
  /\ hlo_oldest_t three_lines_object = scan_oldest 0 (hlo_lines three_lines_object)
  /\ Z.of_nat (length (hlo_lines three_lines_object)) <= INT_MAX
  /\ (let once := (hbm_history_del sample_hash 400 three_lines_table "#chat" 2 250).2 in
      hbm_history_del sample_hash 400 once "#chat" 2 250 = (1, once)).
Proof.
  destruct three_lines_object_ok as (H1 & H2 & _ & _ & H5).
  assert (hlo_num_lines three_lines_object
          = Z.of_nat (length (hlo_lines three_lines_object))) as H3 by reflexivity.
  assert (hlo_oldest_t three_lines_object
          = scan_oldest 0 (hlo_lines three_lines_object)) as H4 by reflexivity.
  split; [exact H1|]. split; [exact H2|]. split; [exact H3|]. split; [exact H4|].
  split; [exact H5|].
  exact (history_del_twice_is_history_del_once sample_hash three_lines_table "#chat"
           chat_ptr three_lines_object 400 2 250 H1 H2 H3 H4 H5).
Defined.
